(** * OpenHamClock server: DX-cluster spot aggregation and HF propagation estimate

    A shallow embedding of the algorithmic routes of [server.js]:
    - [GET /api/dxcluster/spots]  (lines 119-283): three upstream sources tried in
      order, each with its own parser;
    - [GET /api/propagation]      (lines 289-465): space-weather snapshot, the
      reliability estimator and the response assembly;
    - [GET /api/contests]         (lines 481-663): the upstream calendar and the
      calendar computed from the tables of recurring contests, over a model of
      the [Date] built-in.

    Conventions of the embedding.
    - JavaScript strings are modelled as [string] (sequences of one-byte
      characters); only the ASCII white space characters are white space.
    - A JavaScript number is [NaN], an infinity or a finite value.  The text
      parsers work over rationals ([num Q], executable): [parseFloat] and the
      division of the HamQTH frequency give the binary64 value of their
      result ([double]); the arithmetic of the snapshot, on integers, is
      exact.  The propagation route, which needs square roots and cosines,
      works over the reals ([num R]) without rounding; module [Binary64]
      replays the estimator and the summaries of [currentBands] on primitive
      binary64 floats where the rounding decides the outcome.  The sign of
      zero is not modelled.
    - [Array.prototype.sort] is determined by ECMA-262 only for a consistent
      comparator; for any other the order is that of the engine, a parameter
      of the functions that sort.
    - Built-ins that are not code of the repository and whose value is not
      determined by the models ([Number::toString], [StringToNumber],
      [JSON.parse]) are parameters of the functions that call them. *)

From Stdlib Require Import ZArith QArith Qabs Qround List String Ascii Bool Lia.
From Stdlib Require Import Reals Lra Sorted Permutation.
From Stdlib Require Import Numbers.DecimalString.
From Stdlib Require PrimFloat SpecFloat FloatOps.
Import ListNotations.

Set Implicit Arguments.

(* ================================================================== *)
(** * Part I. JavaScript values *)
(* ================================================================== *)

(** ** Numbers *)

Inductive num (A : Type) : Type :=
| NaN
| Inf (negative : bool)
| Fin (x : A).
Arguments NaN {A}.
Arguments Inf {A} negative.
Arguments Fin {A} x.

Definition isNaN {A} (x : num A) : bool :=
  match x with NaN => true | _ => false end.

(** ** Strings *)

Section Strings.
Local Open Scope string_scope.
Local Open Scope char_scope.

(** White space and line terminators stripped by [trim] and skipped by
    [parseFloat] / [parseInt] (ASCII part). *)
Definition isWhiteSpace (c : ascii) : bool :=
  match c with
  | " " | "009" | "010" | "011" | "012" | "013" => true
  | _ => false
  end.

Fixpoint trimStart (s : string) : string :=
  match s with
  | String c r => if isWhiteSpace c then trimStart r else s
  | EmptyString => EmptyString
  end.

Fixpoint trimEnd (s : string) : string :=
  match s with
  | EmptyString => EmptyString
  | String c r =>
      match trimEnd r with
      | EmptyString => if isWhiteSpace c then EmptyString else String c EmptyString
      | r' => String c r'
      end
  end.

Definition trim (s : string) : string := trimEnd (trimStart s).

(** [s.split(sep)] for a one-character separator. *)
Fixpoint split (sep : ascii) (s : string) : list string :=
  match s with
  | EmptyString => [EmptyString]
  | String c r =>
      if Ascii.eqb c sep then EmptyString :: split sep r
      else match split sep r with
           | w :: ws => String c w :: ws
           | [] => [String c EmptyString]
           end
  end.

Definition startsWith (p s : string) : bool := String.prefix p s.

(** [s.substring(a, b)]: indices are clamped to the length and swapped when
    [a > b]. *)
Definition substring (a b : nat) (s : string) : string :=
  String.substring (Nat.min a b) (Nat.max a b - Nat.min a b) s.

(** Truthiness of a string: non-empty. *)
Definition nonEmpty (s : string) : bool :=
  match s with EmptyString => false | _ => true end.

(** [xs[i] || '']: a missing element and an empty one both give [''] . *)
Definition at_or_empty (xs : list string) (i : nat) : string :=
  nth i xs EmptyString.

(** *** Decimal digits *)

Definition digitValue (c : ascii) : option Z :=
  let n := nat_of_ascii c in
  if (48 <=? n)%nat && (n <=? 57)%nat then Some (Z.of_nat (n - 48)) else None.

(** Longest prefix of decimal digits: its value, its length, and the rest. *)
Fixpoint digitsFrom (acc : Z) (len : nat) (s : string) : Z * nat * string :=
  match s with
  | String c r =>
      match digitValue c with
      | Some d => digitsFrom (10 * acc + d) (S len) r
      | None => (acc, len, s)
      end
  | EmptyString => (acc, len, s)
  end.

Definition readDigits (s : string) : Z * nat * string := digitsFrom 0 0%nat s.

Definition readSign (s : string) : bool * string :=
  match s with
  | String "-" r => (true, r)
  | String "+" r => (false, r)
  | _ => (false, s)
  end.

(** The optional exponent part [e[+-]digits]; [0] when there is none. *)
Definition readExponent (s : string) : Z :=
  match s with
  | String c r =>
      if Ascii.eqb c "e" || Ascii.eqb c "E" then
        let (neg, r1) := readSign r in
        let '(e, n, _) := readDigits r1 in
        if (n =? 0)%nat then 0 else if neg then - e else e
      else 0
  | EmptyString => 0
  end.

(** [m * 10^e] as a rational. *)
Definition scale10 (m e : Z) : Q :=
  if (0 <=? e)%Z then inject_Z (m * 10 ^ e)
  else Qmake m (Z.to_pos (10 ^ (- e))).

(** *** The Number value of a rational

    A JavaScript number is an IEEE 754 binary64 value; a finite one is
    represented here by the rational it denotes.  [double q] is "the Number
    value for [q]" of ECMA-262: the binary64 value nearest to [q], the one
    with an even significand when two are equally near, an infinity when
    the rounded magnitude reaches [2^1024], and [0] below half the smallest
    subnormal. *)

(** The integer nearest to [n / d], for [0 <= n] and [0 < d], ties to the
    even one. *)
Definition nearestEven (n d : Z) : Z :=
  let q := (n / d)%Z in
  match (2 * (n mod d) ?= d)%Z with
  | Lt => q
  | Gt => (q + 1)%Z
  | Eq => if Z.even q then q else (q + 1)%Z
  end.

(** [2^e <= n / d], for positive [n] and [d]. *)
Definition reaches (n d e : Z) : bool :=
  if (0 <=? e)%Z then (d * 2 ^ e <=? n)%Z else (d <=? n * 2 ^ (- e))%Z.

(** The exponent [q] such that the binary64 values around [n / d] are the
    multiples of [2^q]: [floor (log2 (n / d)) - 52], and [-1074] for the
    subnormal range. *)
Definition spacing (n d : Z) : Z :=
  let e0 := (Z.log2 n - Z.log2 d)%Z in
  let e := if reaches n d e0 then e0 else (e0 - 1)%Z in
  Z.max (e - 52) (-1074).

Definition doublePos (n d : Z) : num Q :=
  let q := spacing n d in
  let m := if (0 <=? q)%Z then nearestEven n (d * 2 ^ q)
           else nearestEven (n * 2 ^ (- q)) d in
  if reaches m 1 (1024 - q) then Inf false
  else Fin (Qred (if (0 <=? q)%Z then inject_Z (m * 2 ^ q)
                  else Qmake m (Z.to_pos (2 ^ (- q))))).

Definition double (q : Q) : num Q :=
  match Qnum q with
  | Z0 => Fin 0%Q
  | Zpos n => doublePos (Zpos n) (Zpos (Qden q))
  | Zneg n =>
      match doublePos (Zpos n) (Zpos (Qden q)) with
      | Fin x => Fin (- x)%Q
      | Inf _ => Inf true
      | NaN => NaN
      end
  end.

(** [parseFloat(s)]: leading white space is skipped and the longest prefix
    that is a decimal literal (or a signed [Infinity]) is converted to the
    Number value of the decimal it denotes; [NaN] when there is none. *)
Definition parseFloat (input : string) : num Q :=
  let (neg, s1) := readSign (trimStart input) in
  if startsWith "Infinity" s1 then Inf neg
  else
    let '(ip, ni, s2) := readDigits s1 in
    let '(fp, nf, s3) :=
      match s2 with
      | String "." r => digitsFrom ip 0%nat r
      | _ => (ip, 0%nat, s2)
      end in
    if (ni + nf =? 0)%nat then NaN
    else
      let m := if neg then (- fp)%Z else fp in
      double (scale10 m (readExponent s3 - Z.of_nat nf)).

(** Value of a digit in radix 16 (for [parseInt] with a [0x] prefix). *)
Definition hexValue (c : ascii) : option Z :=
  let n := nat_of_ascii c in
  if (48 <=? n)%nat && (n <=? 57)%nat then Some (Z.of_nat (n - 48))
  else if (97 <=? n)%nat && (n <=? 102)%nat then Some (Z.of_nat (n - 87))
  else if (65 <=? n)%nat && (n <=? 70)%nat then Some (Z.of_nat (n - 55))
  else None.

Fixpoint hexFrom (acc : Z) (len : nat) (s : string) : Z * nat :=
  match s with
  | String c r =>
      match hexValue c with
      | Some d => hexFrom (16 * acc + d) (S len) r
      | None => (acc, len)
      end
  | EmptyString => (acc, len)
  end.

(** [parseInt(s)] with no radix argument: white space is skipped, a sign and
    a [0x] / [0X] prefix are honoured, and the longest prefix of digits is
    read; [None] stands for [NaN]. *)
Definition parseInt (input : string) : option Z :=
  let (neg, s1) := readSign (trimStart input) in
  let '(v, n) :=
    match s1 with
    | String "0" (String x r) =>
        if Ascii.eqb x "x" || Ascii.eqb x "X" then hexFrom 0 0%nat r
        else let '(v, n, _) := readDigits s1 in (v, n)
    | _ => let '(v, n, _) := readDigits s1 in (v, n)
    end in
  if (n =? 0)%nat then None else Some (if neg then - v else v)%Z.

(** *** Printing *)

Definition decimalOfZ (n : Z) : string :=
  NilZero.string_of_uint (N.to_uint (Z.to_N n)).

Fixpoint zeros (n : nat) : string :=
  match n with O => EmptyString | S k => String "0" (zeros k) end.

(** Nearest integer to a non-negative rational, ties upwards. *)
Definition roundHalfUp (q : Q) : Z :=
  (2 * Qnum q + Zpos (Qden q)) / (2 * Zpos (Qden q)).

End Strings.

Section ToFixed.
Local Open Scope string_scope.

(** [Number::toString], used by [toFixed] for very large values and by
    [String(x)] on numbers. *)
Variable NumberToString : Q -> string.

(** [x.toFixed(f)] (ECMA-262, Number.prototype.toFixed) for [0 <= f]. *)
Definition toFixed (x : num Q) (f : nat) : string :=
  match x with
  | NaN => "NaN"
  | Inf false => "Infinity"
  | Inf true => "-Infinity"
  | Fin q =>
      if Qle_bool (inject_Z (10 ^ 21)) (Qabs q) then NumberToString q
      else
        let n := roundHalfUp (Qabs q * inject_Z (10 ^ Z.of_nat f)) in
        let m := decimalOfZ n in
        let m := if (f =? 0)%nat then m
                 else
                   let m := if (String.length m <=? f)%nat
                            then zeros (f + 1 - String.length m) ++ m else m in
                   let k := String.length m in
                   String.substring 0 (k - f) m ++ "." ++ String.substring (k - f) f m in
        if Qlt_le_dec q 0 then "-" ++ m else m
  end.

End ToFixed.


(** ** Arithmetic on numbers

    The operations are those of IEEE 754 on the extended line, written once
    over a carrier [A] with exact field operations.  [x / 0] is an infinity
    for [x <> 0] and [NaN] for [x = 0]; every comparison with [NaN] is
    false. *)

Section NumOps.
Variable A : Type.
Variable zero : A.
Variables add mul div : A -> A -> A.
Variables opp absA : A -> A.
Variable ltb : A -> A -> bool.

Definition isZero (x : A) : bool := negb (ltb x zero) && negb (ltb zero x).

Definition num_opp (x : num A) : num A :=
  match x with
  | NaN => NaN
  | Inf s => Inf (negb s)
  | Fin a => Fin (opp a)
  end.

Definition num_add (x y : num A) : num A :=
  match x, y with
  | NaN, _ | _, NaN => NaN
  | Inf s, Inf t => if Bool.eqb s t then Inf s else NaN
  | Inf s, Fin _ => Inf s
  | Fin _, Inf t => Inf t
  | Fin a, Fin b => Fin (add a b)
  end.

Definition num_sub (x y : num A) : num A := num_add x (num_opp y).

Definition num_mul (x y : num A) : num A :=
  match x, y with
  | NaN, _ | _, NaN => NaN
  | Inf s, Inf t => Inf (xorb s t)
  | Inf s, Fin b | Fin b, Inf s =>
      if isZero b then NaN else Inf (xorb s (ltb b zero))
  | Fin a, Fin b => Fin (mul a b)
  end.

Definition num_div (x y : num A) : num A :=
  match x, y with
  | NaN, _ | _, NaN => NaN
  | Inf _, Inf _ => NaN
  | Inf s, Fin b => Inf (xorb s (ltb b zero))
  | Fin _, Inf _ => Fin zero
  | Fin a, Fin b =>
      if isZero b then (if isZero a then NaN else Inf (ltb a zero))
      else Fin (div a b)
  end.

(** [x < y] *)
Definition num_lt (x y : num A) : bool :=
  match x, y with
  | NaN, _ | _, NaN => false
  | Inf s, Inf t => s && negb t
  | Inf s, Fin _ => s
  | Fin _, Inf t => negb t
  | Fin a, Fin b => ltb a b
  end.

(** [x <= y] *)
Definition num_le (x y : num A) : bool :=
  match x, y with
  | NaN, _ | _, NaN => false
  | Inf s, Inf t => s || negb t
  | Inf s, Fin _ => s
  | Fin _, Inf t => negb t
  | Fin a, Fin b => negb (ltb b a)
  end.

Definition num_gt (x y : num A) : bool := num_lt y x.
Definition num_ge (x y : num A) : bool := num_le y x.

(** [Math.max(x, y)] and [Math.min(x, y)]: [NaN] when an argument is. *)
Definition num_max (x y : num A) : num A :=
  match x, y with
  | NaN, _ | _, NaN => NaN
  | _, _ => if num_lt x y then y else x
  end.

Definition num_min (x y : num A) : num A :=
  match x, y with
  | NaN, _ | _, NaN => NaN
  | _, _ => if num_lt y x then y else x
  end.

(** [Math.abs(x)] *)
Definition num_abs (x : num A) : num A :=
  match x with
  | NaN => NaN
  | Inf _ => Inf false
  | Fin a => Fin (absA a)
  end.

(** Truthiness of a number: neither [0] nor [NaN]. *)
Definition num_truthy (x : num A) : bool :=
  match x with
  | NaN => false
  | Inf _ => true
  | Fin a => negb (isZero a)
  end.

End NumOps.

(** *** Rational instance *)

Definition Qltb (x y : Q) : bool := negb (Qle_bool y x).

Definition qnum := num Q.
Definition qlit (q : Q) : qnum := Fin q.
Definition qsub : qnum -> qnum -> qnum := num_sub Qplus Qopp.
Definition qdiv : qnum -> qnum -> qnum := num_div 0%Q Qdiv Qltb.
Definition qlt : qnum -> qnum -> bool := num_lt Qltb.
Definition qgt : qnum -> qnum -> bool := num_gt Qltb.
Definition qmax : qnum -> qnum -> qnum := num_max Qltb.
Definition qtruthy : qnum -> bool := num_truthy 0%Q Qltb.

(** The result of an arithmetic operation, rounded to binary64. *)
Definition rounded (x : qnum) : qnum :=
  match x with
  | Fin q => double q
  | _ => x
  end.

(** [Math.round(x)]: the nearest integer, ties towards [+Infinity]. *)
Definition qround (x : qnum) : qnum :=
  match x with
  | Fin q => Fin (inject_Z (Qfloor (q + (1 # 2))))
  | _ => x
  end.

(** ** Values *)

#[warnings="-register-all"]
Inductive jsval : Type :=
| JUndefined
| JNull
| JBool (b : bool)
| JNum (x : qnum)
| JStr (s : string)
| JArr (items : list jsval)
| JObj (props : list (string * jsval)).

Definition truthy (v : jsval) : bool :=
  match v with
  | JUndefined | JNull => false
  | JBool b => b
  | JNum x => qtruthy x
  | JStr s => nonEmpty s
  | JArr _ | JObj _ => true
  end.

(** [a || b] *)
Definition orElse (a b : jsval) : jsval := if truthy a then a else b.

Fixpoint lookup (k : string) (props : list (string * jsval)) : jsval :=
  match props with
  | [] => JUndefined
  | (k', v) :: rest => if String.eqb k k' then v else lookup k rest
  end.

Fixpoint joinWith (sep : string) (xs : list string) : string :=
  match xs with
  | [] => EmptyString
  | [x] => x
  | x :: rest => x ++ sep ++ joinWith sep rest
  end.

Definition isInteger (q : Q) : bool := Qeq_bool q (inject_Z (Qfloor q)).

Section Conversions.
Local Open Scope string_scope.

Variable NumberToString : Q -> string.
Variable StringToNumber : string -> qnum.

Definition numToString (x : qnum) : string :=
  match x with
  | NaN => "NaN"
  | Inf false => "Infinity"
  | Inf true => "-Infinity"
  | Fin q => NumberToString q
  end.

(** [String(v)] *)
Fixpoint ToString (v : jsval) : string :=
  match v with
  | JUndefined => "undefined"
  | JNull => "null"
  | JBool true => "true"
  | JBool false => "false"
  | JNum x => numToString x
  | JStr s => s
  | JArr items =>
      joinWith ","
        (map (fun x => match x with
                       | JUndefined | JNull => ""
                       | _ => ToString x
                       end) items)
  | JObj _ => "[object Object]"
  end.

(** [Number(v)] *)
Definition ToNumber (v : jsval) : qnum :=
  match v with
  | JUndefined => NaN
  | JNull => Fin 0%Q
  | JBool true => Fin 1%Q
  | JBool false => Fin 0%Q
  | JNum x => x
  | JStr s => StringToNumber s
  | JArr _ | JObj _ => StringToNumber (ToString v)
  end.

(** [v.k] for a property name [k] that is neither an index nor the name of a
    built-in method; [None] is the [TypeError] raised on [null] and
    [undefined]. *)
Definition getProp (v : jsval) (k : string) : option jsval :=
  match v with
  | JUndefined | JNull => None
  | JObj props => Some (lookup k props)
  | JArr items =>
      Some (if String.eqb k "length"
            then JNum (Fin (inject_Z (Z.of_nat (List.length items))))
            else JUndefined)
  | JStr s =>
      Some (if String.eqb k "length"
            then JNum (Fin (inject_Z (Z.of_nat (String.length s))))
            else JUndefined)
  | JBool _ | JNum _ => Some JUndefined
  end.

(** [v?.k] *)
Definition getPropOpt (v : jsval) (k : string) : jsval :=
  match getProp v k with Some x => x | None => JUndefined end.

(** The array index denoted by a number, if any. *)
Definition asIndex (x : qnum) : option nat :=
  match x with
  | Fin q => if isInteger q && Qle_bool 0 q then Some (Z.to_nat (Qfloor q)) else None
  | _ => None
  end.

(** [v[x]] for a numeric key [x]. *)
Definition getIndex (v : jsval) (x : qnum) : option jsval :=
  match v with
  | JUndefined | JNull => None
  | JObj props => Some (lookup (numToString x) props)
  | JArr items =>
      Some (match asIndex x with
            | Some i => nth i items JUndefined
            | None => JUndefined
            end)
  | JStr s =>
      Some (match asIndex x with
            | Some i => match String.get i s with
                        | Some c => JStr (String c EmptyString)
                        | None => JUndefined
                        end
            | None => JUndefined
            end)
  | JBool _ | JNum _ => Some JUndefined
  end.

Definition isArray (v : jsval) : bool :=
  match v with JArr _ => true | _ => false end.

End Conversions.

(** ** [Array.prototype.sort]

    ECMA-262 fixes the result of [sort] when the comparator is a consistent
    comparator for the elements of the array: the elements in ascending
    order of the comparator, those it calls equal in their original order.
    For any other comparator the order is left to the engine. *)

Section Sort.
Variable A : Type.

(** The comparator: the sign of the number it returns, [None] when it
    returns [NaN]. *)
Variable comparator : A -> A -> option comparison.

(** [SortCompare] (CompareArrayElements): a [NaN] counts as [+0]. *)
Definition SortCompare (a b : A) : comparison :=
  match comparator a b with
  | Some c => c
  | None => Eq
  end.

(** Stable insertion: an element is placed before the first one that the
    comparator orders after it. *)
Fixpoint insertSorted (x : A) (l : list A) : list A :=
  match l with
  | [] => [x]
  | y :: rest =>
      match SortCompare y x with
      | Gt => x :: l
      | _ => y :: insertSorted x rest
      end
  end.

Definition insertionSort (l : list A) : list A :=
  fold_left (fun sorted x => insertSorted x sorted) l [].

Definition hasSign (c : comparison) (x : option comparison) : bool :=
  match x, c with
  | Some Eq, Eq | Some Lt, Lt | Some Gt, Gt => true
  | _, _ => false
  end.

(** The requirements on a consistent comparator, at the values [a], [b]
    and [c]: the result for [a] and [b] is a number; [a =C a]; [a =C b]
    gives [b =C a]; and [=C], [<C] and [>C] are transitive. *)
Definition consistentAt (a b c : A) : bool :=
  let ab := comparator a b in
  let bc := comparator b c in
  let ac := comparator a c in
  match ab with Some _ => true | None => false end
  && hasSign Eq (comparator a a)
  && implb (hasSign Eq ab) (hasSign Eq (comparator b a))
  && implb (hasSign Eq ab && hasSign Eq bc) (hasSign Eq ac)
  && implb (hasSign Lt ab && hasSign Lt bc) (hasSign Lt ac)
  && implb (hasSign Gt ab && hasSign Gt bc) (hasSign Gt ac).

Definition consistentComparator (l : list A) : bool :=
  forallb (fun a => forallb (fun b => forallb (consistentAt a b) l) l) l.

(** An order chosen by the engine, given as a rank for each position (0
    where the list of ranks ends): the elements are arranged by ascending
    rank, those of equal rank in their original order.  Every arrangement
    of the elements is obtained from some ranks. *)
Fixpoint insertRanked (x : nat * A) (l : list (nat * A)) : list (nat * A) :=
  match l with
  | [] => [x]
  | y :: rest =>
      if (fst x <? fst y)%nat then x :: l else y :: insertRanked x rest
  end.

Definition arrangeBy (ranks : list nat) (l : list A) : list A :=
  map snd
    (fold_left (fun arranged x => insertRanked x arranged)
       (combine (ranks ++ repeat 0%nat (List.length l)) l) []).

(** What the engine does with an array for which the comparator is not
    consistent. *)
Variable engineOrder : list A -> list nat.

Definition sortWith (l : list A) : list A :=
  if consistentComparator l then insertionSort l
  else arrangeBy (engineOrder l) l.

End Sort.

(** An engine that leaves an array as it is when the comparator is not
    consistent. *)
Definition keepsOrder (A : Type) : list A -> list nat := fun _ => [].

Definition qsign (x : qnum) : option comparison :=
  match x with
  | NaN => None
  | _ => Some (if qlt x (Fin 0%Q) then Lt else if qgt x (Fin 0%Q) then Gt else Eq)
  end.

(* ================================================================== *)
(** * Part II. [GET /api/dxcluster/spots] *)
(* ================================================================== *)

(** A normalized spot, as pushed into the response array.  The HamQTH and
    DX Summit mappings store strings; the DXHeat mapping stores whatever value
    the upstream record holds. *)
Record Spot : Type := mkSpot {
  freq : jsval;
  call : jsval;
  comment : jsval;
  time : jsval;
  spotter : jsval
}.

(** What a route sends back. *)
Inductive reply (A : Type) : Type :=
| json200 (payload : A)
| json500 (error : string).
Arguments json200 {A} payload.
Arguments json500 {A} error.

(** Outcome of [await fetch(url, ...)] followed by [await response.text()]:
    the fetch rejects (network error, or the abort after 8000 ms), or a
    response arrives with its [ok] flag and a body ([None] when reading the
    body rejects). *)
Inductive fetchResult : Type :=
| FetchRejected
| Response (ok : bool) (body : option string).

Inductive source : Type := HamQTH | DXSummit | DXHeat.

(** Sequencing of steps that may throw. *)
Definition bindOpt {A B} (x : option A) (f : A -> option B) : option B :=
  match x with Some a => f a | None => None end.

Fixpoint mapM {A B} (f : A -> option B) (xs : list A) : option (list B) :=
  match xs with
  | [] => Some []
  | x :: rest =>
      bindOpt (f x) (fun y => bindOpt (mapM f rest) (fun ys => Some (y :: ys)))
  end.

Section DXCluster.
Local Open Scope string_scope.
Local Notation "x <- c ;; k" := (bindOpt c (fun x => k))
  (at level 61, c at next level, right associativity).

Variable NumberToString : Q -> string.
(** [JSON.parse]; [None] when it throws. *)
Variable JSON_parse : string -> option jsval.

Local Abbreviation String_ := (ToString NumberToString).

(** *** Source 1: HamQTH, one [^]-separated record per line (lines 139-188) *)

(** Body of the [for] loop for one line: the spot it pushes, if any. *)
Definition hamqthLine (line : string) : option Spot :=
  let parts := split "^" line in
  if (5 <=? List.length parts)%nat then
    let spotter := at_or_empty parts 0 in
    let freqKhz := at_or_empty parts 1 in
    let dxCall := at_or_empty parts 2 in
    let comment := at_or_empty parts 3 in
    let timeDate := at_or_empty parts 4 in
    let band := at_or_empty parts 9 in
    let freqNum := parseFloat freqKhz in
    if negb (isNaN freqNum) && qgt freqNum (Fin 0%Q) && nonEmpty dxCall then
      let freqMhz := toFixed NumberToString (rounded (qdiv freqNum (Fin 1000%Q))) 3 in
      let time :=
        if nonEmpty timeDate && (4 <=? String.length timeDate)%nat then
          let timeStr := substring 0 4 timeDate in
          substring 0 2 timeStr ++ ":" ++ substring 2 4 timeStr ++ "z"
        else "" in
      Some {| freq := JStr freqMhz;
              call := JStr dxCall;
              comment := JStr (comment ++ (if nonEmpty band then " " ++ band else ""));
              time := JStr time;
              spotter := JStr spotter |}
    else None
  else None.

(** [text.trim().split('\n').filter(line => line.trim() && !line.startsWith('#'))] *)
Definition hamqthLines (text : string) : list string :=
  filter (fun line => nonEmpty (trim line) && negb (startsWith "#" line))
         (split "010" (trim text)).

(** The loop over [lines.slice(0, 25)], pushing into [spots]. *)
Definition hamqthSpots (lines : list string) : list Spot :=
  fold_left
    (fun spots line =>
       match hamqthLine line with
       | Some spot => (spots ++ [spot])%list
       | None => spots
       end)
    (firstn 25 lines) [].

(** The whole first [try] block: [Some spots] when it returns
    [res.json(spots)], [None] when control falls through to source 2. *)
Definition tryHamQTH (r : fetchResult) : option (list Spot) :=
  match r with
  | Response true (Some text) =>
      let lines := hamqthLines text in
      if (0 <? List.length lines)%nat then
        let spots := hamqthSpots lines in
        if (0 <? List.length spots)%nat then Some spots else None
      else None
  | _ => None
  end.

(** *** Source 2: DX Summit, a JSON array (lines 214-232) *)

(** The arrow function mapped over the records; [None] is the [TypeError]
    of a property access on [null]. *)
Definition dxSummitSpot (spot : jsval) : option Spot :=
  frequency <- getProp spot "frequency" ;;
  dx_call <- getProp spot "dx_call" ;;
  dxcall <- getProp spot "dxcall" ;;
  callsign <- getProp spot "callsign" ;;
  info <- getProp spot "info" ;;
  comment <- getProp spot "comment" ;;
  time <- getProp spot "time" ;;
  spotter <- getProp spot "spotter" ;;
  de <- getProp spot "de" ;;
  Some {| freq := if truthy frequency then JStr (String_ frequency) else JStr "0.000";
          call := orElse (orElse (orElse dx_call dxcall) callsign) (JStr "UNKNOWN");
          comment := orElse (orElse info comment) (JStr "");
          time := if truthy time
                  then JStr (substring 0 5 (String_ time) ++ "z") else JStr "";
          spotter := orElse (orElse spotter de) (JStr "") |}.

(** [Array.isArray(data) && data.length > 0], then the mapping of
    [data.slice(0, 20)]. *)
Definition dxSummitSpots (data : jsval) : option (list Spot) :=
  match data with
  | JArr items =>
      if (0 <? List.length items)%nat then mapM dxSummitSpot (firstn 20 items)
      else None
  | _ => None
  end.

Definition tryDXSummit (r : fetchResult) : option (list Spot) :=
  match r with
  | Response true (Some text) =>
      data <- JSON_parse text ;;
      dxSummitSpots data
  | _ => None
  end.

(** *** Source 3: DXHeat, a JSON array or an object with a [spots] array
    (lines 258-275) *)

Definition dxHeatSpot (spot : jsval) : option Spot :=
  f <- getProp spot "f" ;;
  frequency <- getProp spot "frequency" ;;
  c <- getProp spot "c" ;;
  dx <- getProp spot "dx" ;;
  callsign <- getProp spot "callsign" ;;
  i <- getProp spot "i" ;;
  info <- getProp spot "info" ;;
  t <- getProp spot "t" ;;
  s <- getProp spot "s" ;;
  spotter <- getProp spot "spotter" ;;
  Some {| freq := orElse (orElse f frequency) (JStr "0.000");
          call := orElse (orElse (orElse c dx) callsign) (JStr "UNKNOWN");
          comment := orElse (orElse i info) (JStr "");
          time := if truthy t
                  then JStr (substring 11 16 (String_ t) ++ "z") else JStr "";
          spotter := orElse (orElse s spotter) (JStr "") |}.

Definition dxHeatSpots (data : jsval) : option (list Spot) :=
  data_spots <- getProp data "spots" ;;
  match orElse data_spots data with
  | JArr items =>
      if (0 <? List.length items)%nat then mapM dxHeatSpot (firstn 20 items)
      else None
  | _ => None
  end.

Definition tryDXHeat (r : fetchResult) : option (list Spot) :=
  match r with
  | Response true (Some text) =>
      data <- JSON_parse text ;;
      dxHeatSpots data
  | _ => None
  end.

(** *** The route: sources in sequence, with the fetches it performs *)

(** The upstream world answers each fetch; a run records, in order, the
    sources it has fetched from. *)
Definition World := source -> fetchResult.
Definition Run (A : Type) : Type := World -> list source -> A * list source.

Definition ret {A} (a : A) : Run A := fun _ log => (a, log).
Definition bind {A B} (m : Run A) (k : A -> Run B) : Run B :=
  fun w log => let (a, log') := m w log in k a w log'.
Definition fetch (s : source) : Run fetchResult :=
  fun w log => (w s, (log ++ [s])%list).

Definition attempt (s : source) : fetchResult -> option (list Spot) :=
  match s with
  | HamQTH => tryHamQTH
  | DXSummit => tryDXSummit
  | DXHeat => tryDXHeat
  end.

Definition dxclusterSpots : Run (reply (list Spot)) :=
  bind (fetch HamQTH) (fun r1 =>
  match tryHamQTH r1 with
  | Some spots => ret (json200 spots)
  | None =>
      bind (fetch DXSummit) (fun r2 =>
      match tryDXSummit r2 with
      | Some spots => ret (json200 spots)
      | None =>
          bind (fetch DXHeat) (fun r3 =>
          match tryDXHeat r3 with
          | Some mapped => ret (json200 mapped)
          | None => ret (json200 [])
          end)
      end)
  end).

Definition runDxcluster (w : World) : reply (list Spot) * list source :=
  dxclusterSpots w [].

End DXCluster.


(* ================================================================== *)
(** * Part III. [GET /api/propagation] *)
(* ================================================================== *)

(** ** Real-valued numbers *)

Definition Rltb (x y : R) : bool := if Rlt_dec x y then true else false.

Definition jsnum := num R.
Definition real (r : R) : jsnum := Fin r.
Coercion real : R >-> jsnum.

(** The exact value of a rational number. *)
Definition toReal (x : qnum) : jsnum :=
  match x with
  | NaN => NaN
  | Inf s => Inf s
  | Fin q => Fin (Q2R q)
  end.

Definition jadd : jsnum -> jsnum -> jsnum := num_add Rplus.
Definition jsub : jsnum -> jsnum -> jsnum := num_sub Rplus Ropp.
Definition jmul : jsnum -> jsnum -> jsnum := num_mul 0%R Rmult Rltb.
Definition jdiv : jsnum -> jsnum -> jsnum := num_div 0%R Rdiv Rltb.
Definition jlt : jsnum -> jsnum -> bool := num_lt Rltb.
Definition jle : jsnum -> jsnum -> bool := num_le Rltb.
Definition jgt : jsnum -> jsnum -> bool := num_gt Rltb.
Definition jge : jsnum -> jsnum -> bool := num_ge Rltb.

(** [x % y]: the remainder has the sign of the dividend. *)
Definition Rtrunc (x : R) : Z := if Rltb x 0 then Zceil x else Zfloor x.

Definition jrem (x y : jsnum) : jsnum :=
  match x, y with
  | NaN, _ | _, NaN | Inf _, _ => NaN
  | Fin a, Inf _ => Fin a
  | Fin a, Fin b =>
      if isZero 0%R Rltb b then NaN
      else Fin (a - b * IZR (Rtrunc (a / b)))%R
  end.

Declare Scope js_scope.
Delimit Scope js_scope with js.
Bind Scope js_scope with jsnum.
Notation "x + y" := (jadd x y) : js_scope.
Notation "x - y" := (jsub x y) : js_scope.
Notation "x * y" := (jmul x y) : js_scope.
Notation "x / y" := (jdiv x y) : js_scope.
Notation "x 'mod' y" := (jrem x y) : js_scope.
Notation "x <? y" := (jlt x y) : js_scope.
Notation "x <=? y" := (jle x y) : js_scope.
Notation "x >? y" := (jgt x y) : js_scope.
Notation "x >=? y" := (jge x y) : js_scope.

(** ** The [Math] object *)

Definition Math_PI : jsnum := Fin PI.
Definition Math_abs : jsnum -> jsnum := num_abs Rabs.
Definition Math_max : jsnum -> jsnum -> jsnum := num_max Rltb.
Definition Math_min : jsnum -> jsnum -> jsnum := num_min Rltb.

Definition Math_sqrt (x : jsnum) : jsnum :=
  match x with
  | NaN | Inf true => NaN
  | Inf false => Inf false
  | Fin r => if Rltb r 0 then NaN else Fin (sqrt r)
  end.

Definition Math_cos (x : jsnum) : jsnum :=
  match x with Fin r => Fin (cos r) | _ => NaN end.

Definition Math_sin (x : jsnum) : jsnum :=
  match x with Fin r => Fin (sin r) | _ => NaN end.

(** [Math.atan2(y, x)] *)
Definition Math_atan2 (y x : jsnum) : jsnum :=
  match y, x with
  | NaN, _ | _, NaN => NaN
  | Fin b, Fin a =>
      if Rltb 0 a then Fin (atan (b / a))
      else if Rltb a 0 then
        (if Rltb b 0 then Fin (atan (b / a) - PI) else Fin (atan (b / a) + PI))
      else if Rltb 0 b then Fin (PI / 2)
      else if Rltb b 0 then Fin (- (PI / 2))
      else Fin 0
  | Fin b, Inf false => Fin 0
  | Fin b, Inf true => if Rltb b 0 then Fin (- PI) else Fin PI
  | Inf s, Fin _ => if s then Fin (- (PI / 2)) else Fin (PI / 2)
  | Inf s, Inf false => if s then Fin (- (PI / 4)) else Fin (PI / 4)
  | Inf s, Inf true => if s then Fin (- (3 * PI / 4)) else Fin (3 * PI / 4)
  end%R.

(** [Math.round(x)]: the nearest integer, ties towards [+Infinity]. *)
Definition Math_round (x : jsnum) : jsnum :=
  match x with
  | Fin r => Fin (IZR (Zfloor (r + / 2)))
  | _ => x
  end.

(** ** The space-weather snapshot (lines 296-316) *)

Record SolarData : Type := mkSolar {
  sfi : qnum;
  ssn : qnum;
  kIndex : qnum
}.

(** One result of [Promise.allSettled]: the fetch was rejected, or fulfilled
    with a response carrying its [ok] flag and the outcome of
    [response.json()] ([None] when that rejects). *)
Inductive settled : Type :=
| Rejected
| Fulfilled (ok : bool) (json : option jsval).

(** A [try] block over a state: the statements run in order and the first
    one that throws (answers [None]) ends the block, leaving the state as it
    was before that statement. *)
Fixpoint tryBlock {S : Type} (stmts : list (S -> option S)) (s : S) : S :=
  match stmts with
  | [] => s
  | stmt :: rest =>
      match stmt s with
      | Some s' => tryBlock rest s'
      | None => s
      end
  end.

Section Snapshot.
Local Open Scope string_scope.
Local Notation "x <- c ;; k" := (bindOpt c (fun x => k))
  (at level 61, c at next level, right associativity).

Variable NumberToString : Q -> string.
Variable StringToNumber : string -> qnum.

Local Abbreviation Number_ := (ToNumber NumberToString StringToNumber).

(** [data[data.length - 1]] *)
Definition lastOf (data : jsval) : option jsval :=
  len <- getProp data "length" ;;
  getIndex NumberToString data (qsub (Number_ len) (Fin 1%Q)).

(** [parseInt(v)] as a number. *)
Definition parseIntNum (v : jsval) : qnum :=
  match parseInt (ToString NumberToString v) with
  | Some z => Fin (inject_Z z)
  | None => NaN
  end.

(** Lines 304-307. *)
Definition fluxStatement (fluxRes : settled) (s : SolarData) : option SolarData :=
  match fluxRes with
  | Fulfilled true json =>
      data <- json ;;
      if truthy (getPropOpt data "length") then
        last <- lastOf data ;;
        flux <- getProp last "flux" ;;
        Some {| sfi := qround (Number_ (orElse flux (JNum (Fin 150%Q))));
                ssn := ssn s;
                kIndex := kIndex s |}
      else Some s
  | _ => Some s
  end.

(** Lines 308-311. *)
Definition kStatement (kRes : settled) (s : SolarData) : option SolarData :=
  match kRes with
  | Fulfilled true json =>
      data <- json ;;
      if qgt (Number_ (getPropOpt data "length")) (Fin 1%Q) then
        last <- lastOf data ;;
        k <- getIndex NumberToString last (Fin 1%Q) ;;
        Some {| sfi := sfi s;
                ssn := ssn s;
                kIndex := let k := parseIntNum k in
                          if qtruthy k then k else Fin 2%Q |}
      else Some s
  | _ => Some s
  end.

(** Line 313. *)
Definition ssnStatement (s : SolarData) : option SolarData :=
  Some {| sfi := sfi s;
          ssn := qmax (Fin 0%Q)
                      (qround (qdiv (qsub (sfi s) (Fin 67%Q)) (Fin 0.97%Q)));
          kIndex := kIndex s |}.

Definition defaults : SolarData :=
  {| sfi := Fin 150%Q; ssn := Fin 100%Q; kIndex := Fin 2%Q |}.

Definition solarSnapshot (fluxRes kRes : settled) : SolarData :=
  tryBlock [fluxStatement fluxRes; kStatement kRes; ssnStatement] defaults.

End Snapshot.


(** ** The estimator (lines 376-465) *)

Record Coord : Type := mkCoord { lat : jsnum; lon : jsnum }.

Section Estimator.
Local Open Scope string_scope.
Local Open Scope R_scope.
Local Open Scope js_scope.

(** Great circle distance in km (lines 377-385). *)
Definition calculateDistance (lat1 lon1 lat2 lon2 : jsnum) : jsnum :=
  let R := 6371 in
  let dLat := (lat2 - lat1) * Math_PI / 180 in
  let dLon := (lon2 - lon1) * Math_PI / 180 in
  let a := Math_sin (dLat / 2) * Math_sin (dLat / 2) +
           Math_cos (lat1 * Math_PI / 180) * Math_cos (lat2 * Math_PI / 180) *
           Math_sin (dLon / 2) * Math_sin (dLon / 2) in
  R * 2 * Math_atan2 (Math_sqrt a) (Math_sqrt (1 - a)).

(** Lines 444-447. *)
Definition isDaytime (utcHour longitude : jsnum) : bool :=
  let localHour := (utcHour + longitude / 15 + 24) mod 24 in
  (localHour >=? 6) && (localHour <=? 18).

(** Lines 394-395. *)
Definition hourFactor (hour : jsnum) : jsnum :=
  1 + 0.4 * Math_cos ((hour - 12) * Math_PI / 12).

Definition foF2 (ssn hour : jsnum) : jsnum :=
  0.9 * Math_sqrt (ssn + 15) * hourFactor hour.

(** Lines 398-404. *)
Definition distFactor (distance : jsnum) : jsnum :=
  Math_sqrt (1 + distance / 3500).

Definition latFactor (midLat : jsnum) : jsnum :=
  1 - Math_abs midLat / 200.

Definition MUF (ssn hour distance midLat : jsnum) : jsnum :=
  foF2 ssn hour * distFactor distance * latFactor midLat * 3.5.

(** Lines 408-409. *)
Definition dayNight (hour : jsnum) (de dx : Coord) : jsnum :=
  if isDaytime hour ((lon de + lon dx) / 2) then 1.5 else 0.5.

Definition LUF (sfi kIndex hour : jsnum) (de dx : Coord) : jsnum :=
  2 + (sfi / 100) * dayNight hour de dx + kIndex * 0.5.

(** Lines 412-425: reliability from the position of [freq] relative to the
    usable window. *)
Definition baseReliability (freq muf luf : jsnum) : jsnum :=
  if freq >? muf then
    Math_max 0 (50 - (freq - muf) * 10)
  else if freq <? luf then
    Math_max 0 (50 - (luf - freq) * 15)
  else
    let midFreq := (muf + luf) / 2 in
    let optimalness := 1 - Math_abs (freq - midFreq) / (muf - luf) in
    50 + optimalness * 45.

(** Lines 428-430. *)
Definition stormDegradation (kIndex reliability : jsnum) : jsnum :=
  if kIndex >=? 5 then reliability * 0.3
  else if kIndex >=? 4 then reliability * 0.6
  else if kIndex >=? 3 then reliability * 0.8
  else reliability.

(** Lines 433-434. *)
Definition longPathPenalty (distance reliability : jsnum) : jsnum :=
  if distance >? 15000 then reliability * 0.7
  else if distance >? 10000 then reliability * 0.85
  else reliability.

(** Lines 437-438. *)
Definition highBandPenalty (freq sfi reliability : jsnum) : jsnum :=
  let reliability :=
    if (freq >=? 21) && (sfi <? 100) then reliability * (sfi / 100)
    else reliability in
  if (freq >=? 28) && (sfi <? 120) then reliability * (sfi / 120)
  else reliability.

(** Lines 388-441. *)
Definition calculateBandReliability
    (freq distance midLat hour sfi ssn kIndex : jsnum) (de dx : Coord) : jsnum :=
  let muf := MUF ssn hour distance midLat in
  let luf := LUF sfi kIndex hour de dx in
  let reliability := baseReliability freq muf luf in
  let reliability := stormDegradation kIndex reliability in
  let reliability := longPathPenalty distance reliability in
  let reliability := highBandPenalty freq sfi reliability in
  Math_min 99 (Math_max 0 reliability).

(** Lines 450-456. *)
Definition calculateSNR (reliability : jsnum) : string :=
  if reliability >=? 80 then "+20dB"
  else if reliability >=? 60 then "+10dB"
  else if reliability >=? 40 then "0dB"
  else if reliability >=? 20 then "-10dB"
  else "-20dB".

(** Lines 459-465. *)
Definition getStatus (reliability : jsnum) : string :=
  if reliability >=? 70 then "EXCELLENT"
  else if reliability >=? 50 then "GOOD"
  else if reliability >=? 30 then "FAIR"
  else if reliability >=? 15 then "POOR"
  else "CLOSED".

End Estimator.

(** ** The route (lines 289-374) *)

Record Prediction : Type := mkPrediction {
  hour : nat;
  reliability : jsnum;
  snr : string
}.

Record BandSummary : Type := mkBand {
  band : string;
  band_freq : jsnum;
  band_reliability : jsnum;
  band_snr : string;
  band_status : string
}.

Record Propagation : Type := mkPropagation {
  solarData : SolarData;
  distance : jsnum;
  currentHour : nat;
  currentBands : list BandSummary;
  hourlyPredictions : list (string * list Prediction)
}.

Definition jsign (x : jsnum) : option comparison :=
  match x with
  | NaN => None
  | _ => Some (if jlt x (Fin 0%R) then Lt else if jgt x (Fin 0%R) then Gt else Eq)
  end.

(** [l.sort(comparefn)] for a comparator that returns numbers;
    [engineOrder] is the order of the engine for the arrays on which
    [comparefn] is not consistent. *)
Definition Array_sort {A} (comparefn : A -> A -> jsnum)
    (engineOrder : list A -> list nat) (l : list A) : list A :=
  sortWith (fun a b => jsign (comparefn a b)) engineOrder l.

Fixpoint assoc {A} (k : string) (m : list (string * A)) : option A :=
  match m with
  | [] => None
  | (k', v) :: rest => if String.eqb k k' then Some v else assoc k rest
  end.

Section Route.
Local Open Scope string_scope.
Local Open Scope R_scope.
Local Open Scope js_scope.
Local Notation "x <- c ;; k" := (bindOpt c (fun x => k))
  (at level 61, c at next level, right associativity).

Variable NumberToString : Q -> string.
Variable StringToNumber : string -> qnum.
(** The engine's order for arrays of band summaries on which the comparator
    of line 360 is not consistent. *)
Variable sortOrder : list BandSummary -> list nat.

Definition bands : list string :=
  ["160m"; "80m"; "40m"; "30m"; "20m"; "17m"; "15m"; "12m"; "10m"; "6m"].
Definition bandFreqs : list jsnum :=
  [real 1.8; real 3.5; real 7; real 10; real 14; real 18; real 21; real 24;
   real 28; real 50].

(** [parseFloat(v) || d] for a query parameter [v]. *)
Definition queryOr (v : jsval) (d : Q) : jsnum :=
  let x := parseFloat (ToString NumberToString v) in
  toReal (if qtruthy x then x else Fin d).

(** The 24 entries of one band (lines 341-350). *)
Definition hourly (freq distance midLat : jsnum) (s : SolarData) (de dx : Coord)
  : list Prediction :=
  map (fun hour =>
         let reliability :=
           calculateBandReliability freq distance midLat (real (INR hour))
             (toReal (sfi s)) (toReal (ssn s)) (toReal (kIndex s)) de dx in
         {| hour := hour;
            reliability := Math_round reliability;
            snr := calculateSNR reliability |})
      (seq 0 24).

(** Lines 337-351: one entry of [predictions] per band, in band order. *)
Definition predict (distance midLat : jsnum) (s : SolarData) (de dx : Coord)
  : list (string * list Prediction) :=
  map (fun bf : string * jsnum =>
         let (band, freq) := bf in (band, hourly freq distance midLat s de dx))
      (combine bands bandFreqs).

(** Lines 354-360; [None] is the [TypeError] of reading a property of
    [predictions[band][currentHour]] when that is [undefined]. *)
Definition summarize (predictions : list (string * list Prediction)) (currentHour : nat)
  : option (list BandSummary) :=
  unsorted <-
    mapM (fun bf : string * jsnum =>
            let (band, freq) := bf in
            entries <- assoc band predictions ;;
            p <- nth_error entries currentHour ;;
            Some {| band := band;
                    band_freq := freq;
                    band_reliability := reliability p;
                    band_snr := snr p;
                    band_status := getStatus (reliability p) |})
         (combine bands bandFreqs) ;;
  Some (Array_sort (fun a b => band_reliability b - band_reliability a)
          sortOrder unsorted).

(** The handler.  [deLat], [deLon], [dxLat], [dxLon] are the query
    parameters, [fluxRes] and [kRes] the two settled fetches, and [utcHours]
    the value of [new Date().getUTCHours()]. *)
Definition propagation (deLat deLon dxLat dxLon : jsval) (fluxRes kRes : settled)
    (utcHours : nat) : reply Propagation :=
  let s := solarSnapshot NumberToString StringToNumber fluxRes kRes in
  let de := {| lat := queryOr deLat 40; lon := queryOr deLon (-75) |} in
  let dx := {| lat := queryOr dxLat 35; lon := queryOr dxLon 139 |} in
  let distance := calculateDistance (lat de) (lon de) (lat dx) (lon dx) in
  let midLat := (lat de + lat dx) / 2 in
  let currentHour := utcHours in
  let predictions := predict distance midLat s de dx in
  match summarize predictions currentHour with
  | Some currentBands =>
      json200 {| solarData := s;
                 distance := Math_round distance;
                 currentHour := currentHour;
                 currentBands := currentBands;
                 hourlyPredictions := predictions |}
  | None => json500 "Failed to calculate propagation"
  end.

End Route.

(* ================================================================== *)
(** * Part IV. The estimator on binary64 numbers *)
(* ================================================================== *)

(** The same lines 388-456 with every operation rounded as JavaScript does
    (IEEE 754 binary64, round to nearest even).  [Math.cos] is implemented
    by the engine and only specified up to an approximation, so it is a
    parameter here. *)

Module Binary64.
Import PrimFloat SpecFloat FloatOps.
Local Set Warnings "-inexact-float".
Local Open Scope float_scope.

Definition Math_PI : float := 0x1.921fb54442d18p+1.

Definition Math_max (x y : float) : float :=
  if is_nan x || is_nan y then nan else if ltb x y then y else x.

Definition Math_min (x y : float) : float :=
  if is_nan x || is_nan y then nan else if ltb y x then y else x.

(** The float with value [m * 2^e]. *)
Definition ofScaled (m e : Z) : float :=
  SF2Prim (binary_normalize prec emax m e false).

(** [x % y]: exact, with the sign of the dividend. *)
Definition rem (x y : float) : float :=
  match Prim2SF x, Prim2SF y with
  | S754_finite sx mx ex, S754_finite _ my ey =>
      let e := Z.min ex ey in
      let r := Z.rem (Zpos mx * 2 ^ (ex - e)) (Zpos my * 2 ^ (ey - e)) in
      if sx then - ofScaled r e else ofScaled r e
  | S754_zero _, S754_finite _ _ _ => x
  | S754_zero _, S754_infinity _ => x
  | S754_finite _ _ _, S754_infinity _ => x
  | _, _ => nan
  end.

(** [Math.round(x)]: the nearest integer, ties towards [+Infinity]. *)
Definition Math_round (x : float) : float :=
  match Prim2SF x with
  | S754_finite s m e =>
      if (0 <=? e)%Z then x
      else
        let k := (2 ^ (- e))%Z in
        let n := if s then (- Zpos m)%Z else Zpos m in
        ofScaled ((2 * n + k) / (2 * k)) 0
  | _ => x
  end.

Record Coord : Type := mkCoord { lat : float; lon : float }.

Section Estimator.
Local Open Scope string_scope.
Variable Math_cos : float -> float.

Definition isDaytime (utcHour longitude : float) : bool :=
  let localHour := rem (utcHour + longitude / 15 + 24) 24 in
  leb 6 localHour && leb localHour 18.

Definition calculateBandReliability
    (freq distance midLat hour sfi ssn kIndex : float) (de dx : Coord) : float :=
  let hourFactor := 1 + 0.4 * Math_cos ((hour - 12) * Math_PI / 12) in
  let foF2 := 0.9 * sqrt (ssn + 15) * hourFactor in
  let distFactor := sqrt (1 + distance / 3500) in
  let latFactor := 1 - abs midLat / 200 in
  let muf := foF2 * distFactor * latFactor * 3.5 in
  let dayNight := if isDaytime hour ((lon de + lon dx) / 2) then 1.5 else 0.5 in
  let luf := 2 + (sfi / 100) * dayNight + kIndex * 0.5 in
  let reliability :=
    if ltb muf freq then
      Math_max 0 (50 - (freq - muf) * 10)
    else if ltb freq luf then
      Math_max 0 (50 - (luf - freq) * 15)
    else
      let midFreq := (muf + luf) / 2 in
      let optimalness := 1 - abs (freq - midFreq) / (muf - luf) in
      50 + optimalness * 45 in
  let reliability :=
    if leb 5 kIndex then reliability * 0.3
    else if leb 4 kIndex then reliability * 0.6
    else if leb 3 kIndex then reliability * 0.8
    else reliability in
  let reliability :=
    if ltb 15000 distance then reliability * 0.7
    else if ltb 10000 distance then reliability * 0.85
    else reliability in
  let reliability :=
    if leb 21 freq && ltb sfi 100 then reliability * (sfi / 100)
    else reliability in
  let reliability :=
    if leb 28 freq && ltb sfi 120 then reliability * (sfi / 120)
    else reliability in
  Math_min 99 (Math_max 0 reliability).

Definition calculateSNR (reliability : float) : string :=
  if leb 80 reliability then "+20dB"
  else if leb 60 reliability then "+10dB"
  else if leb 40 reliability then "0dB"
  else if leb 20 reliability then "-10dB"
  else "-20dB".

(** The entry pushed for one band and hour (lines 342-349). *)
Definition prediction (freq distance midLat hour sfi ssn kIndex : float)
    (de dx : Coord) : float * string :=
  let reliability :=
    calculateBandReliability freq distance midLat hour sfi ssn kIndex de dx in
  (Math_round reliability, calculateSNR reliability).

(** Lines 459-465. *)
Definition getStatus (reliability : float) : string :=
  if leb 70 reliability then "EXCELLENT"
  else if leb 50 reliability then "GOOD"
  else if leb 30 reliability then "FAIR"
  else if leb 15 reliability then "POOR"
  else "CLOSED".

Record BandSummary : Type := mkBand {
  band : string;
  band_freq : float;
  band_reliability : float;
  band_snr : string;
  band_status : string
}.

Definition bandFreqs : list float := [1.8; 3.5; 7; 10; 14; 18; 21; 24; 28; 50].

(** Lines 354-359: the summary of each band at the current hour, in band
    order. *)
Definition summaries (distance midLat currentHour sfi ssn kIndex : float)
    (de dx : Coord) : list BandSummary :=
  map (fun bf : string * float =>
         let (band, freq) := bf in
         let p := prediction freq distance midLat currentHour sfi ssn kIndex de dx in
         {| band := band;
            band_freq := freq;
            band_reliability := fst p;
            band_snr := snd p;
            band_status := getStatus (fst p) |})
      (combine bands bandFreqs).

(** The sign of a number, [None] for [NaN]. *)
Definition fsign (x : float) : option comparison :=
  if is_nan x then None
  else Some (if ltb x 0 then Lt else if ltb 0 x then Gt else Eq).

(** The comparator of line 360. *)
Definition byReliability (a b : BandSummary) : option comparison :=
  fsign (band_reliability b - band_reliability a).

(** Line 360; [sortOrder] is the engine's order for the arrays on which the
    comparator is not consistent. *)
Definition currentBands (sortOrder : list BandSummary -> list nat)
    (distance midLat currentHour sfi ssn kIndex : float) (de dx : Coord)
  : list BandSummary :=
  sortWith byReliability sortOrder
    (summaries distance midLat currentHour sfi ssn kIndex de dx).

End Estimator.


End Binary64.

(* ================================================================== *)
(** * Part IV-b. The pass-through proxies (lines 34-103) *)
(* ================================================================== *)

Section Proxies.
Local Open Scope string_scope.

(** The body shared by the six JSON proxies.  The argument is the outcome
    of [await fetch(url)] followed by [await response.json()]: the upstream
    response is read as JSON and sent on with [res.json]; a rejection, of
    the fetch or of [response.json()], is answered with status 500 and the
    message of the route. *)
Definition proxyJson (message : string) (upstream : settled) : reply jsval :=
  match upstream with
  | Fulfilled _ (Some data) => json200 data
  | _ => json500 message
  end.

(** [GET /api/noaa/flux], [/api/noaa/kindex], [/api/noaa/sunspots],
    [/api/noaa/xray], [/api/pota/spots] and [/api/sota/spots]. *)
Definition noaaFlux : settled -> reply jsval :=
  proxyJson "Failed to fetch solar flux data".
Definition noaaKindex : settled -> reply jsval :=
  proxyJson "Failed to fetch K-index data".
Definition noaaSunspots : settled -> reply jsval :=
  proxyJson "Failed to fetch sunspot data".
Definition noaaXray : settled -> reply jsval :=
  proxyJson "Failed to fetch X-ray data".
Definition potaSpots : settled -> reply jsval :=
  proxyJson "Failed to fetch POTA spots".
Definition sotaSpots : settled -> reply jsval :=
  proxyJson "Failed to fetch SOTA spots".

(** What [GET /api/hamqsl/conditions] sends (lines 106-116): the upstream
    body as text with the content type it sets, or the error. *)
Inductive sent : Type :=
| sendText (contentType body : string)
| sendError (error : string).

Definition hamqslConditions (upstream : fetchResult) : sent :=
  match upstream with
  | Response _ (Some text) => sendText "application/xml" text
  | _ => sendError "Failed to fetch band conditions"
  end.

End Proxies.

(* ================================================================== *)
(** * Part IV-c. Dates *)
(* ================================================================== *)

(** The [Date] built-in as the contest calendar uses it (ECMA-262, Date
    objects).  A time value is a number of milliseconds since 1970-01-01
    00:00 UTC; the value of a Date object is a time value or [NaN]
    ([None], "Invalid Date"). *)

Module Date.
Local Open Scope Z_scope.

Definition msPerDay : Z := 86400000.
Definition msPerHour : Z := 3600000.
Definition msPerMinute : Z := 60000.
Definition msPerSecond : Z := 1000.

Definition Day (t : Z) : Z := t / msPerDay.
Definition TimeWithinDay (t : Z) : Z := t mod msPerDay.

Definition DaysInYear (y : Z) : Z :=
  if negb (y mod 4 =? 0) then 365
  else if negb (y mod 100 =? 0) then 366
  else if negb (y mod 400 =? 0) then 365
  else 366.

Definition DayFromYear (y : Z) : Z :=
  365 * (y - 1970) + (y - 1969) / 4 - (y - 1901) / 100 + (y - 1601) / 400.

Definition TimeFromYear (y : Z) : Z := msPerDay * DayFromYear y.

(** The largest [y] with [TimeFromYear y <= t]: an estimate from the mean
    length of a year, corrected by at most one. *)
Definition YearFromTime (t : Z) : Z :=
  let d := Day t in
  let y := 1970 + (400 * d) / 146097 in
  if d <? DayFromYear y then y - 1
  else if DayFromYear (y + 1) <=? d then y + 1
  else y.

(** 1 for a leap year, 0 otherwise. *)
Definition leapYear (y : Z) : Z := if DaysInYear y =? 366 then 1 else 0.

Definition InLeapYear (t : Z) : Z := leapYear (YearFromTime t).

Definition DayWithinYear (t : Z) : Z := Day t - DayFromYear (YearFromTime t).

Definition MonthFromTime (t : Z) : Z :=
  let d := DayWithinYear t in
  let leap := InLeapYear t in
  if d <? 31 then 0
  else if d <? 59 + leap then 1
  else if d <? 90 + leap then 2
  else if d <? 120 + leap then 3
  else if d <? 151 + leap then 4
  else if d <? 181 + leap then 5
  else if d <? 212 + leap then 6
  else if d <? 243 + leap then 7
  else if d <? 273 + leap then 8
  else if d <? 304 + leap then 9
  else if d <? 334 + leap then 10
  else 11.

Definition DateFromTime (t : Z) : Z :=
  let d := DayWithinYear t in
  let leap := InLeapYear t in
  match MonthFromTime t with
  | 0 => d + 1
  | 1 => d - 30
  | 2 => d - 58 - leap
  | 3 => d - 89 - leap
  | 4 => d - 119 - leap
  | 5 => d - 150 - leap
  | 6 => d - 180 - leap
  | 7 => d - 211 - leap
  | 8 => d - 242 - leap
  | 9 => d - 272 - leap
  | 10 => d - 303 - leap
  | _ => d - 333 - leap
  end.

Definition WeekDay (t : Z) : Z := (Day t + 4) mod 7.

Definition HourFromTime (t : Z) : Z := (t / msPerHour) mod 24.
Definition MinFromTime (t : Z) : Z := (t / msPerMinute) mod 60.
Definition SecFromTime (t : Z) : Z := (t / msPerSecond) mod 60.
Definition msFromTime (t : Z) : Z := t mod msPerSecond.

Definition MakeTime (hour min sec ms : Z) : Z :=
  hour * msPerHour + min * msPerMinute + sec * msPerSecond + ms.

(** Days of the year before the first of month [mn] (0 to 11). *)
Definition daysBeforeMonth (leap mn : Z) : Z :=
  match mn with
  | 0 => 0
  | 1 => 31
  | 2 => 59 + leap
  | 3 => 90 + leap
  | 4 => 120 + leap
  | 5 => 151 + leap
  | 6 => 181 + leap
  | 7 => 212 + leap
  | 8 => 243 + leap
  | 9 => 273 + leap
  | 10 => 304 + leap
  | _ => 334 + leap
  end.

(** Days of month [mn] (0 to 11) of year [y]. *)
Definition DaysInMonth (y mn : Z) : Z :=
  match mn with
  | 1 => 28 + leapYear y
  | 3 | 5 | 8 | 10 => 30
  | _ => 31
  end.

(** [MakeDay]: the day number of the first of the month, found from the
    year and the month brought into range, plus [date - 1]. *)
Definition MakeDay (year month date : Z) : Z :=
  let ym := year + month / 12 in
  let mn := month mod 12 in
  DayFromYear ym + daysBeforeMonth (leapYear ym) mn + date - 1.

Definition MakeDate (day time : Z) : Z := day * msPerDay + time.

Definition TimeClip (t : Z) : option Z :=
  if Z.abs t <=? 8640000000000000 then Some t else None.

(** The value of a Date object. *)
Definition date : Type := option Z.

(** [Date.UTC(year, month, date, hours, minutes, seconds, ms)] *)
Definition UTC (year month dt hours minutes seconds ms : Z) : date :=
  let yr := if (0 <=? year) && (year <=? 99) then 1900 + year else year in
  TimeClip (MakeDate (MakeDay yr month dt) (MakeTime hours minutes seconds ms)).

Definition getUTCMonth (d : date) : option Z := option_map MonthFromTime d.
Definition getUTCDate (d : date) : option Z := option_map DateFromTime d.
Definition getUTCDay (d : date) : option Z := option_map WeekDay d.

(** [d.setUTCDate(dt)]: the new value of [d]. *)
Definition setUTCDate (d : date) (dt : option Z) : date :=
  match d, dt with
  | Some t, Some dt =>
      TimeClip (MakeDate (MakeDay (YearFromTime t) (MonthFromTime t) dt)
                         (TimeWithinDay t))
  | _, _ => None
  end.

(** [d.setUTCHours(hour, min, sec, ms)]: the new value of [d]. *)
Definition setUTCHours (d : date) (hour min sec ms : Z) : date :=
  match d with
  | Some t => TimeClip (MakeDate (Day t) (MakeTime hour min sec ms))
  | None => None
  end.

(** [a < b] and [a <= b] on Date objects (their time values are compared;
    a comparison with [NaN] is false). *)
Definition lt (a b : date) : bool :=
  match a, b with Some x, Some y => x <? y | _, _ => false end.
Definition le (a b : date) : bool :=
  match a, b with Some x, Some y => x <=? y | _, _ => false end.

(** [x === n] and [x !== n] for the result of a getter and an integer. *)
Definition equalTo (x : option Z) (n : Z) : bool :=
  match x with Some v => v =? n | None => false end.

(** [new Date(x)] for a number [x]: [TimeClip], which checks the range and
    then drops the fraction. *)
Definition ofNumber (x : qnum) : date :=
  match x with
  | Fin q =>
      if Qle_bool (Qabs q) 8640000000000000
      then Some (if Qle_bool 0 q then Qfloor q else Qceiling q)
      else None
  | _ => None
  end.

(** *** [toISOString] *)

Section Printing.
Local Open Scope string_scope.

(** [ToZeroPaddedDecimalString] *)
Definition padStart (width : nat) (n : Z) : string :=
  let s := decimalOfZ n in zeros (width - String.length s) ++ s.

Definition yearString (y : Z) : string :=
  if ((0 <=? y) && (y <=? 9999))%Z then padStart 4 y
  else (if (0 <=? y)%Z then "+" else "-") ++ padStart 6 (Z.abs y).

(** [d.toISOString()]; [None] is the [RangeError] on an invalid date. *)
Definition toISOString (d : date) : option string :=
  match d with
  | None => None
  | Some t =>
      Some (yearString (YearFromTime t) ++ "-" ++
            padStart 2 (MonthFromTime t + 1) ++ "-" ++
            padStart 2 (DateFromTime t) ++ "T" ++
            padStart 2 (HourFromTime t) ++ ":" ++
            padStart 2 (MinFromTime t) ++ ":" ++
            padStart 2 (SecFromTime t) ++ "." ++
            padStart 3 (msFromTime t) ++ "Z")
  end.

End Printing.

(** *** [Date.parse] *)

Section Parsing.
Local Open Scope string_scope.
Local Open Scope char_scope.
Local Notation "x <- c ;; k" := (bindOpt c (fun x => k))
  (at level 61, c at next level, right associativity).

(** Exactly [k] decimal digits. *)
Fixpoint readFixed (k : nat) (acc : Z) (s : string) : option (Z * string) :=
  match k with
  | O => Some (acc, s)
  | S k' =>
      match s with
      | String c r =>
          match digitValue c with
          | Some d => readFixed k' (10 * acc + d) r
          | None => None
          end
      | EmptyString => None
      end
  end.

Definition expect (c : ascii) (s : string) : option string :=
  match s with
  | String c' r => if Ascii.eqb c c' then Some r else None
  | EmptyString => None
  end.

(** The complete UTC form of the date-time string format,
    [YYYY-MM-DDTHH:mm:ss.sssZ], with field values in range. *)
Definition parseComplete (s : string) : option Z :=
  ys <- readFixed 4 0 s ;; s <- expect "-" (snd ys) ;;
  ms <- readFixed 2 0 s ;; s <- expect "-" (snd ms) ;;
  ds <- readFixed 2 0 s ;; s <- expect "T" (snd ds) ;;
  hs <- readFixed 2 0 s ;; s <- expect ":" (snd hs) ;;
  ns <- readFixed 2 0 s ;; s <- expect ":" (snd ns) ;;
  ss <- readFixed 2 0 s ;; s <- expect "." (snd ss) ;;
  fs <- readFixed 3 0 s ;; s <- expect "Z" (snd fs) ;;
  let y := fst ys in let mo := fst ms in let d := fst ds in
  match s with
  | EmptyString =>
      if ((1 <=? mo) && (mo <=? 12) && (1 <=? d) && (d <=? DaysInMonth y (mo - 1))
          && (fst hs <=? 23) && (fst ns <=? 59) && (fst ss <=? 59))%Z
      then Some (MakeDate (MakeDay y (mo - 1) d)
                          (MakeTime (fst hs) (fst ns) (fst ss) (fst fs)))
      else None
  | _ => None
  end.

(** What the engine answers for any other text: the other forms of the
    format, and whatever it accepts besides. *)
Variable parseOther : string -> date.

(** [Date.parse(s)], and so [new Date(s)] for a string. *)
Definition parse (s : string) : date :=
  match parseComplete s with
  | Some t => Some t
  | None => parseOther s
  end.

Variable NumberToString : Q -> string.

(** [new Date(v)] for a value: a string is parsed, an array or an object is
    first converted to a string, anything else to a number. *)
Definition ofValue (v : jsval) : date :=
  match v with
  | JStr s => parse s
  | JArr _ | JObj _ => parse (ToString NumberToString v)
  | JUndefined => None
  | JNull => Some 0%Z
  | JBool b => Some (if b then 1 else 0)%Z
  | JNum x => ofNumber x
  end.

End Parsing.

(** [d.getFullYear()] for a valid date, in the local time zone whose offset
    from UTC at [t] is [LocalTZA t]. *)
Definition getFullYear (LocalTZA : Z -> Z) (t : Z) : Z :=
  YearFromTime (t + LocalTZA t).

End Date.


(* ================================================================== *)
(** * Part IV-d. [GET /api/contests] (lines 481-663) *)
(* ================================================================== *)

(** How a piece of code that loops ends: it returns, it throws, or the
    loop has not ended within the given number of iterations. *)
Inductive outcome (A : Type) : Type :=
| Returns (a : A)
| Throws
| OutOfFuel.
Arguments Returns {A} a.
Arguments Throws {A}.
Arguments OutOfFuel {A}.

Definition andThen {A B} (x : outcome A) (f : A -> outcome B) : outcome B :=
  match x with
  | Returns a => f a
  | Throws => Throws
  | OutOfFuel => OutOfFuel
  end.

(** A step that may throw. *)
Definition orThrow {A} (x : option A) : outcome A :=
  match x with Some a => Returns a | None => Throws end.

(** [xs.forEach(f)] where each call yields the elements it pushes. *)
Fixpoint forEach {A B} (f : A -> outcome (list B)) (xs : list A) : outcome (list B) :=
  match xs with
  | [] => Returns []
  | x :: rest =>
      andThen (f x) (fun ys =>
      andThen (forEach f rest) (fun zs => Returns (ys ++ zs)%list))
  end.

(** An entry of the calendar, as sent.  The computed entries have no [url]
    property. *)
Record Contest : Type := mkContest {
  contest_name : jsval;
  contest_start : string;
  contest_end : string;
  contest_mode : jsval;
  contest_status : string;
  contest_url : option jsval
}.

Record MajorContest : Type := mkMajor {
  major_name : string;
  major_month : Z;
  major_weekend : Z;
  major_duration : Q;
  major_mode : string
}.

Record WeeklyContest : Type := mkWeekly {
  weekly_name : string;
  weekly_dayOfWeek : Z;
  weekly_hour : Z;
  weekly_minute : option Z;
  weekly_duration : Q;
  weekly_mode : string
}.

(** [l.sort(comparefn)] for a comparator whose results are numbers over
    the rationals; [engineOrder] as for [Array_sort]. *)
Definition Array_sortQ {A} (comparefn : A -> A -> qnum)
    (engineOrder : list A -> list nat) (l : list A) : list A :=
  sortWith (fun a b => qsign (comparefn a b)) engineOrder l.

Section Contests.
Local Open Scope string_scope.
Local Open Scope Z_scope.
Local Notation "x <- c ;; k" := (andThen c (fun x => k))
  (at level 61, c at next level, right associativity).

(** The engine's parser for texts outside the complete UTC form, the
    offset of the local time zone, [Number::toString], and the engine's
    order for arrays of entries on which the comparator of line 634 is not
    consistent. *)
Variable parseOther : string -> Date.date.
Variable LocalTZA : Z -> Z.
Variable NumberToString : Q -> string.
Variable sortOrder : list Contest -> list nat.

(** Lines 543-562. *)
Definition majorContests : list MajorContest :=
  [ mkMajor "CQ WW DX CW" 10 (-1) 48 "CW";
    mkMajor "CQ WW DX SSB" 9 (-1) 48 "SSB";
    mkMajor "ARRL DX CW" 1 3 48 "CW";
    mkMajor "ARRL DX SSB" 2 1 48 "SSB";
    mkMajor "CQ WPX SSB" 2 (-1) 48 "SSB";
    mkMajor "CQ WPX CW" 4 (-1) 48 "CW";
    mkMajor "IARU HF Championship" 6 2 24 "Mixed";
    mkMajor "ARRL Field Day" 5 4 27 "Mixed";
    mkMajor "ARRL Sweepstakes CW" 10 1 24 "CW";
    mkMajor "ARRL Sweepstakes SSB" 10 3 24 "SSB";
    mkMajor "ARRL 10m Contest" 11 2 48 "Mixed";
    mkMajor "ARRL RTTY Roundup" 0 1 24 "RTTY";
    mkMajor "NA QSO Party CW" 0 2 12 "CW";
    mkMajor "NA QSO Party SSB" 0 3 12 "SSB";
    mkMajor "CQ 160m CW" 0 (-1) 42 "CW";
    mkMajor "CQ WW RTTY" 8 (-1) 48 "RTTY";
    mkMajor "JIDX CW" 3 2 48 "CW";
    mkMajor "JIDX SSB" 10 2 48 "SSB" ].

(** Lines 565-572. *)
Definition weeklyContests : list WeeklyContest :=
  [ mkWeekly "CWT 1300z" 3 13 None 1 "CW";
    mkWeekly "CWT 1900z" 3 19 None 1 "CW";
    mkWeekly "CWT 0300z" 4 3 None 1 "CW";
    mkWeekly "NCCC Sprint" 5 3 (Some 30) 0.5 "CW";
    mkWeekly "K1USN SST" 0 0 None 1 "CW";
    mkWeekly "ICWC MST" 1 13 None 1 "CW" ].

(** [new Date(d.getTime() + duration * 3600000)] *)
Definition after (d : Date.date) (duration : Q) : Date.date :=
  match d with
  | Some t => Date.ofNumber (Fin (inject_Z t + duration * 3600000)%Q)
  | None => None
  end.

(** [(now >= start && now <= end) ? 'active' : 'upcoming'] *)
Definition statusAt (now : Z) (start finish : Date.date) : string :=
  if Date.le start (Some now) && Date.le (Some now) finish
  then "active" else "upcoming".

(** Lines 639-652.  [fuel] bounds the number of tests of the loop
    condition. *)
Fixpoint nthWeekendLoop (fuel : nat) (month n : Z) (date : Date.date)
    (weekendCount : Z) : outcome Date.date :=
  match fuel with
  | O => OutOfFuel
  | S fuel =>
      if Date.equalTo (Date.getUTCMonth date) month then
        let next := Date.setUTCDate date
                      (option_map (fun d => d + 1) (Date.getUTCDate date)) in
        if Date.equalTo (Date.getUTCDay date) 6 then
          let weekendCount := weekendCount + 1 in
          if weekendCount =? n then Returns date
          else nthWeekendLoop fuel month n next weekendCount
        else nthWeekendLoop fuel month n next weekendCount
      else Returns date
  end.

Definition getNthWeekendOfMonth (fuel : nat) (year month n : Z)
  : outcome Date.date :=
  nthWeekendLoop fuel month n (Date.UTC year month 1 0 0 0 0) 0.

(** Lines 654-663. *)
Fixpoint lastWeekendLoop (fuel : nat) (date : Date.date) : outcome Date.date :=
  match fuel with
  | O => OutOfFuel
  | S fuel =>
      if negb (Date.equalTo (Date.getUTCDay date) 6) then
        lastWeekendLoop fuel
          (Date.setUTCDate date (option_map (fun d => d - 1) (Date.getUTCDate date)))
      else Returns date
  end.

Definition getLastWeekendOfMonth (fuel : nat) (year month : Z)
  : outcome Date.date :=
  lastWeekendLoop fuel (Date.UTC year (month + 1) 0 0 0 0 0).

(** [contest.minute || 0] *)
Definition minuteOf (contest : WeeklyContest) : Z :=
  match weekly_minute contest with Some m => m | None => 0 end.

(** Lines 577-585: the days from today to the day of the next start. *)
Definition daysUntilNext (now : Z) (contest : WeeklyContest) : Z :=
  let currentDay := Date.WeekDay now in
  let daysUntil := weekly_dayOfWeek contest - currentDay in
  let daysUntil := if daysUntil <? 0 then daysUntil + 7 else daysUntil in
  if daysUntil =? 0 then
    let todayStart :=
      Date.setUTCHours (Some now) (weekly_hour contest) (minuteOf contest) 0 0 in
    if Date.lt todayStart (Some now) then 7 else daysUntil
  else daysUntil.

(** Lines 575-599: what the callback pushes for one weekly contest. *)
Definition weeklyEntry (now : Z) (contest : WeeklyContest) : outcome (list Contest) :=
  let daysUntil := daysUntilNext now contest in
  let next := Date.setUTCDate (Some now) (Some (Date.DateFromTime now + daysUntil)) in
  let next := Date.setUTCHours next (weekly_hour contest) (minuteOf contest) 0 0 in
  let endTime := after next (weekly_duration contest) in
  start <- orThrow (Date.toISOString next) ;;
  finish <- orThrow (Date.toISOString endTime) ;;
  Returns [ {| contest_name := JStr (weekly_name contest);
               contest_start := start;
               contest_end := finish;
               contest_mode := JStr (weekly_mode contest);
               contest_status := statusAt now next endTime;
               contest_url := None |} ].

(** Lines 605-629: the body of the [for] loop for year [y]; [None] when
    nothing is pushed and the loop goes on. *)
Definition majorOccurrence (fuel : nat) (now : Z) (contest : MajorContest) (y : Z)
  : outcome (option Contest) :=
  startDate <-
    (if major_weekend contest =? -1
     then getLastWeekendOfMonth fuel y (major_month contest)
     else getNthWeekendOfMonth fuel y (major_month contest) (major_weekend contest)) ;;
  let startDate := Date.setUTCHours startDate 0 0 0 0 in
  let endDate := after startDate (major_duration contest) in
  if Date.lt (Some now) endDate then
    start <- orThrow (Date.toISOString startDate) ;;
    finish <- orThrow (Date.toISOString endDate) ;;
    Returns (Some {| contest_name := JStr (major_name contest);
                     contest_start := start;
                     contest_end := finish;
                     contest_mode := JStr (major_mode contest);
                     contest_status := statusAt now startDate endDate;
                     contest_url := None |})
  else Returns None.

(** Lines 603-631: the years [year] and [year + 1] in turn, up to the first
    occurrence that is pushed. *)
Definition majorEntry (fuel : nat) (now year : Z) (contest : MajorContest)
  : outcome (list Contest) :=
  first <- majorOccurrence fuel now contest year ;;
  match first with
  | Some c => Returns [c]
  | None =>
      second <- majorOccurrence fuel now contest (year + 1) ;;
      match second with
      | Some c => Returns [c]
      | None => Returns []
      end
  end.

(** [new Date(s)] as a number. *)
Definition timeOf (s : string) : qnum :=
  match Date.parse parseOther s with
  | Some t => Fin (inject_Z t)
  | None => NaN
  end.

(** The comparator of line 634. *)
Definition byStart (a b : Contest) : qnum :=
  qsub (timeOf (contest_start a)) (timeOf (contest_start b)).

(** Lines 538-637; [now] is the value of [new Date()]. *)
Definition calculateUpcomingContests (fuel : nat) (now : Z) : outcome (list Contest) :=
  weekly <- forEach (weeklyEntry now) weeklyContests ;;
  let year := Date.getFullYear LocalTZA now in
  major <- forEach (majorEntry fuel now year) majorContests ;;
  let contests := (weekly ++ major)%list in
  Returns (firstn 15 (Array_sortQ byStart sortOrder contests)).

(** *** The route *)

Local Notation "x <-- c ;; k" := (bindOpt c (fun x => k))
  (at level 61, c at next level, right associativity).

Fixpoint filterM {A} (f : A -> option bool) (xs : list A) : option (list A) :=
  match xs with
  | [] => Some []
  | x :: rest =>
      keep <-- f x ;;
      kept <-- filterM f rest ;;
      Some (if keep then x :: kept else kept)
  end.

Local Abbreviation newDate := (Date.ofValue parseOther NumberToString).

(** The callback of line 499; [None] is the [TypeError] of a property read
    on [null]. *)
Definition isCurrent (now : Z) (c : jsval) : option bool :=
  e <-- getProp c "end" ;;
  Some (Date.lt (Some now) (newDate e)).

(** The callback of lines 501-517. *)
Definition upstreamEntry (now : Z) (c : jsval) : option Contest :=
  s <-- getProp c "start" ;;
  e <-- getProp c "end" ;;
  let startDate := newDate s in
  let endDate := newDate e in
  name <-- getProp c "name" ;;
  contest <-- getProp c "contest" ;;
  start <-- Date.toISOString startDate ;;
  finish <-- Date.toISOString endDate ;;
  mode <-- getProp c "mode" ;;
  url <-- getProp c "url" ;;
  Some {| contest_name := orElse name contest;
          contest_start := start;
          contest_end := finish;
          contest_mode := orElse mode (JStr "Mixed");
          contest_status := statusAt now startDate endDate;
          contest_url := Some (orElse url JNull) |}.

(** The first [try] block (lines 485-523): [Some contests] when it returns
    [res.json(contests)], [None] when control goes on to the fallback. *)
Definition upstreamContests (now : Z) (upstream : settled) : option (list Contest) :=
  match upstream with
  | Fulfilled true json =>
      data <-- json ;;
      _ <-- getProp data "length" ;;
      match data with
      | JArr items =>
          current <-- filterM (isCurrent now) items ;;
          mapM (upstreamEntry now) (firstn 20 current)
      | _ => None
      end
  | _ => None
  end.

(** The handler.  [now1] and [now2] are the two readings of the clock, in
    the first block and in [calculateUpcomingContests]. *)
Definition contests (fuel : nat) (upstream : settled) (now1 now2 : Z)
  : outcome (reply (list Contest)) :=
  match upstreamContests now1 upstream with
  | Some found => Returns (json200 found)
  | None =>
      match calculateUpcomingContests fuel now2 with
      | Returns calculated => Returns (json200 calculated)
      | Throws => Returns (json200 [])
      | OutOfFuel => OutOfFuel
      end
  end.

End Contests.

(* ================================================================== *)
(** * Part V. Properties of the spot route *)
(* ================================================================== *)

Section SpotFacts.
Local Open Scope string_scope.

Variable NumberToString : Q -> string.
Variable JSON_parse : string -> option jsval.

(** The documented sample record of the HamQTH feed (comment at line 147 of
    the source). *)
Definition sample_line : string :=
  "F5PAC^7022.0^KP5/NP3VI^Up 2^0610 2026-01-30^^^NA^40M^Desecheo Island^43".

(** The loop pushes, in order, the spot of each of the first 25 lines that
    yields one. *)
Lemma push_loop_flat_map : forall (lines : list string) (acc : list Spot),
  fold_left
    (fun spots line =>
       match hamqthLine NumberToString line with
       | Some spot => (spots ++ [spot])%list
       | None => spots
       end) lines acc =
  (acc ++ flat_map (fun line => match hamqthLine NumberToString line with
                                | Some spot => [spot]
                                | None => []
                                end) lines)%list.
Proof.
  induction lines as [|l ls IH]; intro acc; simpl.
  - now rewrite app_nil_r.
  - rewrite IH. destruct (hamqthLine NumberToString l); simpl.
    + now rewrite <- app_assoc.
    + reflexivity.
Qed.

Lemma hamqthSpots_flat_map : forall lines,
  hamqthSpots NumberToString lines =
  flat_map (fun line => match hamqthLine NumberToString line with
                        | Some spot => [spot]
                        | None => []
                        end) (firstn 25 lines).
Proof. intro lines. unfold hamqthSpots. now rewrite push_loop_flat_map. Qed.

Lemma hamqthSpots_In : forall lines sp,
  In sp (hamqthSpots NumberToString lines) <->
  exists line, In line (firstn 25 lines) /\ hamqthLine NumberToString line = Some sp.
Proof using NumberToString.
  intros lines sp. rewrite hamqthSpots_flat_map, in_flat_map. split.
  - intros (line & Hin & Hsp). exists line. split; [assumption|].
    destruct (hamqthLine NumberToString line) as [sp'|]; simpl in Hsp.
    + destruct Hsp as [->|[]]. reflexivity.
    + destruct Hsp.
  - intros (line & Hin & Hsp). exists line. split; [assumption|].
    rewrite Hsp. now left.
Qed.

(** What one line contributes: a spot exactly when it has five fields, a
    kHz field that parses to a positive number and a non-empty call. *)
Lemma hamqthLine_Some : forall line sp,
  hamqthLine NumberToString line = Some sp ->
  let parts := split "^" line in
  let khz := parseFloat (at_or_empty parts 1) in
  (5 <= List.length parts)%nat /\
  isNaN khz = false /\ qgt khz (Fin 0%Q) = true /\
  nonEmpty (at_or_empty parts 2) = true /\
  freq sp = JStr (toFixed NumberToString (rounded (qdiv khz (Fin 1000%Q))) 3) /\
  call sp = JStr (at_or_empty parts 2) /\
  spotter sp = JStr (at_or_empty parts 0) /\
  comment sp = JStr (at_or_empty parts 3 ++
                     (if nonEmpty (at_or_empty parts 9)
                      then " " ++ at_or_empty parts 9 else "")).
Proof.
  intros line sp. unfold hamqthLine.
  destruct (5 <=? List.length (split "^" line))%nat eqn:Hlen; [|discriminate].
  destruct (isNaN (parseFloat (at_or_empty (split "^" line) 1))) eqn:Hnan;
    [discriminate|].
  destruct (qgt (parseFloat (at_or_empty (split "^" line) 1)) (Fin 0%Q)) eqn:Hpos;
    [|discriminate].
  destruct (nonEmpty (at_or_empty (split "^" line) 2)) eqn:Hcall; [|discriminate].
  simpl. intro H. injection H as <-. simpl.
  apply Nat.leb_le in Hlen. repeat split; auto.
Qed.

Lemma hamqthLine_None : forall line,
  let parts := split "^" line in
  let khz := parseFloat (at_or_empty parts 1) in
  (List.length parts < 5)%nat \/ isNaN khz = true \/ qgt khz (Fin 0%Q) = false \/
  nonEmpty (at_or_empty parts 2) = false ->
  hamqthLine NumberToString line = None.
Proof.
  intros line parts khz H. unfold hamqthLine. fold parts. fold khz.
  destruct (5 <=? List.length parts)%nat eqn:Hlen; [|reflexivity].
  apply Nat.leb_le in Hlen.
  destruct H as [H | [H | [H | H]]]; [lia | | |]; rewrite H; simpl;
    try reflexivity.
  - now rewrite andb_false_r.
  - now rewrite andb_false_r.
Qed.

(** C3.  On the sample record of the feed the parser appends field 10
    (index 9), which holds the country ["Desecheo Island"]; the band label
    ["40M"] of that record is field 9 (index 8).  The spot carries the
    comment ["Up 2 Desecheo Island"], not ["Up 2 40M"]. *)
Theorem hamqth_sample_line_comment :
  hamqthLine NumberToString sample_line =
  Some {| freq := JStr "7.022";
          call := JStr "KP5/NP3VI";
          comment := JStr "Up 2 Desecheo Island";
          time := JStr "06:10z";
          spotter := JStr "F5PAC" |}
  /\ nth 8 (split "^" sample_line) "" = "40M"
  /\ nth 9 (split "^" sample_line) "" = "Desecheo Island".
Proof. repeat split; reflexivity. Qed.

(** *** First success wins *)

Lemma mapM_length : forall (A B : Type) (f : A -> option B) xs ys,
  mapM f xs = Some ys -> List.length ys = List.length xs.
Proof.
  induction xs as [|x xs IH]; simpl; intros ys H.
  - now injection H as <-.
  - destruct (f x); simpl in H; [|discriminate].
    destruct (mapM f xs) as [zs|]; simpl in H; [|discriminate].
    injection H as <-. simpl. f_equal. now apply IH.
Qed.

Lemma mapM_nonempty : forall (A B : Type) (f : A -> option B) items ys,
  (0 <? List.length items)%nat = true ->
  mapM f (firstn 20 items) = Some ys -> ys <> [].
Proof.
  intros A B f items ys Hlen H. apply mapM_length in H.
  destruct items; [discriminate|]. destruct ys; [discriminate|]. discriminate.
Qed.

(** A source succeeds: its fetch returns an ok response with a readable
    body, and parsing the body yields a list of spots that is not empty. *)
Inductive yields : source -> fetchResult -> list Spot -> Prop :=
| yields_HamQTH : forall text spots,
    hamqthSpots NumberToString (hamqthLines text) = spots -> spots <> [] ->
    yields HamQTH (Response true (Some text)) spots
| yields_DXSummit : forall text items spots,
    JSON_parse text = Some (JArr items) ->
    mapM (dxSummitSpot NumberToString) (firstn 20 items) = Some spots ->
    spots <> [] ->
    yields DXSummit (Response true (Some text)) spots
| yields_DXHeat : forall text data data_spots items spots,
    JSON_parse text = Some data ->
    getProp data "spots" = Some data_spots ->
    orElse data_spots data = JArr items ->
    mapM (dxHeatSpot NumberToString) (firstn 20 items) = Some spots ->
    spots <> [] ->
    yields DXHeat (Response true (Some text)) spots.

(** A source fails, at the fetch (rejected, status not ok, unreadable
    body), at the parse (the text is not JSON, the JSON is not an array of
    records, a record is [null]), or by yielding no spot. *)
Inductive fails : source -> fetchResult -> Prop :=
| fails_rejected : forall s, fails s FetchRejected
| fails_status : forall s body, fails s (Response false body)
| fails_body : forall s, fails s (Response true None)
| fails_no_spot : forall text,
    hamqthSpots NumberToString (hamqthLines text) = [] ->
    fails HamQTH (Response true (Some text))
| fails_json : forall s text,
    s <> HamQTH -> JSON_parse text = None ->
    fails s (Response true (Some text))
| fails_summit_shape : forall text data,
    JSON_parse text = Some data -> isArray data = false ->
    fails DXSummit (Response true (Some text))
| fails_summit_empty : forall text,
    JSON_parse text = Some (JArr []) ->
    fails DXSummit (Response true (Some text))
| fails_summit_record : forall text items,
    JSON_parse text = Some (JArr items) ->
    mapM (dxSummitSpot NumberToString) (firstn 20 items) = None ->
    fails DXSummit (Response true (Some text))
| fails_heat_null : forall text data,
    JSON_parse text = Some data -> getProp data "spots" = None ->
    fails DXHeat (Response true (Some text))
| fails_heat_shape : forall text data data_spots,
    JSON_parse text = Some data -> getProp data "spots" = Some data_spots ->
    isArray (orElse data_spots data) = false ->
    fails DXHeat (Response true (Some text))
| fails_heat_empty : forall text data data_spots,
    JSON_parse text = Some data -> getProp data "spots" = Some data_spots ->
    orElse data_spots data = JArr [] ->
    fails DXHeat (Response true (Some text))
| fails_heat_record : forall text data data_spots items,
    JSON_parse text = Some data -> getProp data "spots" = Some data_spots ->
    orElse data_spots data = JArr items ->
    mapM (dxHeatSpot NumberToString) (firstn 20 items) = None ->
    fails DXHeat (Response true (Some text)).

Lemma positive_length : forall (X : Type) (l : list X),
  l <> [] -> (0 <? List.length l)%nat = true.
Proof. intros X [|x l] H; [now elim H | reflexivity]. Qed.

Lemma mapM_firstn_nonempty : forall (X Y : Type) (f : X -> option Y) items ys,
  mapM f (firstn 20 items) = Some ys -> ys <> [] -> items <> [].
Proof.
  intros X Y f items ys H Hys ->. cbn in H. injection H as <-. now elim Hys.
Qed.

(** The block of a source returns the spots the source yields. *)
Lemma yields_attempt : forall s r spots,
  yields s r spots -> attempt NumberToString JSON_parse s r = Some spots.
Proof.
  intros s r spots H.
  destruct H as [text spots E Hne | text items spots Ep Em Hne
                | text data ds items spots Ep Eg Eo Em Hne]; cbn [attempt].
  - cbn [tryHamQTH]. rewrite E.
    assert (Hl : hamqthLines text <> []).
    { intro Hl. rewrite Hl in E. cbn in E. now elim Hne. }
    now rewrite (positive_length Hl), (positive_length Hne).
  - cbn [tryDXSummit]. rewrite Ep. cbn [bindOpt dxSummitSpots].
    now rewrite (positive_length (@mapM_firstn_nonempty _ _ _ _ _ Em Hne)).
  - cbn [tryDXHeat]. rewrite Ep. cbn [bindOpt]. unfold dxHeatSpots.
    rewrite Eg. cbn [bindOpt]. rewrite Eo.
    now rewrite (positive_length (@mapM_firstn_nonempty _ _ _ _ _ Em Hne)).
Qed.

(** The block of a source that fails falls through. *)
Lemma fails_attempt : forall s r,
  fails s r -> attempt NumberToString JSON_parse s r = None.
Proof.
  intros s r H.
  destruct H as [s | s body | s | text E | s text Hs Ep | text data Ep Ea
                | text Ep | text items Ep Em | text data Ep Eg
                | text data ds Ep Eg Ea | text data ds Ep Eg Eo
                | text data ds items Ep Eg Eo Em].
  - destruct s; reflexivity.
  - destruct s; reflexivity.
  - destruct s; reflexivity.
  - cbn [attempt tryHamQTH]. rewrite E. now destruct (0 <? _)%nat.
  - destruct s; [now elim Hs | |]; cbn [attempt tryDXSummit tryDXHeat];
      now rewrite Ep.
  - cbn [attempt tryDXSummit]. rewrite Ep. cbn [bindOpt].
    destruct data; try reflexivity. discriminate.
  - cbn [attempt tryDXSummit]. rewrite Ep. reflexivity.
  - cbn [attempt tryDXSummit]. rewrite Ep. cbn [bindOpt dxSummitSpots].
    rewrite Em. now destruct (0 <? _)%nat.
  - cbn [attempt tryDXHeat]. rewrite Ep. cbn [bindOpt]. unfold dxHeatSpots.
    now rewrite Eg.
  - cbn [attempt tryDXHeat]. rewrite Ep. cbn [bindOpt]. unfold dxHeatSpots.
    rewrite Eg. cbn [bindOpt]. destruct (orElse ds data); try reflexivity. discriminate.
  - cbn [attempt tryDXHeat]. rewrite Ep. cbn [bindOpt]. unfold dxHeatSpots.
    rewrite Eg. cbn [bindOpt]. now rewrite Eo.
  - cbn [attempt tryDXHeat]. rewrite Ep. cbn [bindOpt]. unfold dxHeatSpots.
    rewrite Eg. cbn [bindOpt]. rewrite Eo, Em. now destruct (0 <? _)%nat.
Qed.

(** Every answer of a source is a success or a failure. *)
Lemma yields_or_fails : forall s r,
  (exists spots, yields s r spots) \/ fails s r.
Proof.
  intros s r. destruct r as [|[] [text|]];
    [right; constructor | | right; constructor | right; constructor
    | right; constructor].
  destruct s.
  - destruct (hamqthSpots NumberToString (hamqthLines text)) as [|sp spots] eqn:E.
    + right. now constructor.
    + left. eexists. econstructor; [exact E | discriminate].
  - destruct (JSON_parse text) as [data|] eqn:Ep;
      [|right; now apply fails_json].
    destruct data as [ | | b | x | t | items | props];
      try (right; eapply fails_summit_shape; [exact Ep | reflexivity]).
    destruct items as [|item items]; [right; now apply fails_summit_empty|].
    destruct (mapM (dxSummitSpot NumberToString) (firstn 20 (item :: items)))
      as [spots|] eqn:Em.
    + left. exists spots. eapply yields_DXSummit; [exact Ep | exact Em |].
      eapply mapM_nonempty; [|exact Em]. reflexivity.
    + right. eapply fails_summit_record; eassumption.
  - destruct (JSON_parse text) as [data|] eqn:Ep;
      [|right; now apply fails_json].
    destruct (getProp data "spots") as [ds|] eqn:Eg;
      [|right; eapply fails_heat_null; eassumption].
    destruct (orElse ds data) as [ | | b | x | t | items | props] eqn:Eo;
      try (right; eapply fails_heat_shape; [exact Ep | exact Eg |];
           rewrite Eo; reflexivity).
    destruct items as [|item items];
      [right; eapply fails_heat_empty; eassumption|].
    destruct (mapM (dxHeatSpot NumberToString) (firstn 20 (item :: items)))
      as [spots|] eqn:Em.
    + left. exists spots. eapply yields_DXHeat; [exact Ep | exact Eg | exact Eo | exact Em |].
      eapply mapM_nonempty; [|exact Em]. reflexivity.
    + right. eapply fails_heat_record; eassumption.
Qed.

(** C2.  The sources are fetched in the order HamQTH, DX Summit, DXHeat.
    The first one that succeeds (an ok response whose body parses to a list
    of spots that is not empty) answers with its spots, and no later source
    is fetched.  A source that fails (at the fetch, at the parse, or by
    yielding no spot) is passed over, and every answer of a source is one
    or the other.  When all three fail the reply is [[]].  The reply is a
    200 in every case. *)
Theorem dxcluster_first_success_wins : forall w : World,
  let run := runDxcluster NumberToString JSON_parse w in
  (forall spots, yields HamQTH (w HamQTH) spots ->
     run = (json200 spots, [HamQTH]))
  /\ (forall spots, fails HamQTH (w HamQTH) -> yields DXSummit (w DXSummit) spots ->
        run = (json200 spots, [HamQTH; DXSummit]))
  /\ (forall spots, fails HamQTH (w HamQTH) -> fails DXSummit (w DXSummit) ->
        yields DXHeat (w DXHeat) spots ->
        run = (json200 spots, [HamQTH; DXSummit; DXHeat]))
  /\ (fails HamQTH (w HamQTH) -> fails DXSummit (w DXSummit) ->
      fails DXHeat (w DXHeat) ->
        run = (json200 [], [HamQTH; DXSummit; DXHeat]))
  /\ (forall s, (exists spots, yields s (w s) spots) \/ fails s (w s))
  /\ (exists spots log, run = (json200 spots, log)).
Proof.
  intros w run.
  assert (Hrun : run =
    match attempt NumberToString JSON_parse HamQTH (w HamQTH),
          attempt NumberToString JSON_parse DXSummit (w DXSummit),
          attempt NumberToString JSON_parse DXHeat (w DXHeat) with
    | Some spots, _, _ => (json200 spots, [HamQTH])
    | None, Some spots, _ => (json200 spots, [HamQTH; DXSummit])
    | None, None, Some spots => (json200 spots, [HamQTH; DXSummit; DXHeat])
    | None, None, None => (json200 [], [HamQTH; DXSummit; DXHeat])
    end).
  { unfold run, runDxcluster, dxclusterSpots, bind, fetch, ret. cbn [attempt app].
    destruct (tryHamQTH NumberToString (w HamQTH)); [reflexivity|].
    destruct (tryDXSummit NumberToString JSON_parse (w DXSummit)); [reflexivity|].
    destruct (tryDXHeat NumberToString JSON_parse (w DXHeat)); reflexivity. }
  repeat split.
  - intros spots H1. now rewrite Hrun, (yields_attempt H1).
  - intros spots F1 H2. now rewrite Hrun, (fails_attempt F1), (yields_attempt H2).
  - intros spots F1 F2 H3.
    now rewrite Hrun, (fails_attempt F1), (fails_attempt F2), (yields_attempt H3).
  - intros F1 F2 F3.
    now rewrite Hrun, (fails_attempt F1), (fails_attempt F2), (fails_attempt F3).
  - intro s. apply yields_or_fails.
  - rewrite Hrun.
    destruct (attempt NumberToString JSON_parse HamQTH (w HamQTH));
      [now eexists; eexists|].
    destruct (attempt NumberToString JSON_parse DXSummit (w DXSummit));
      [now eexists; eexists|].
    destruct (attempt NumberToString JSON_parse DXHeat (w DXHeat));
      now eexists; eexists.
Qed.

(** *** Frequencies of emitted spots *)

(** The frequency of a spot is a finite positive number: a number that is,
    or a text whose numeric value is. *)
Definition frequencyPositive (sp : Spot) : Prop :=
  match freq sp with
  | JNum (Fin q) => (0 < q)%Q
  | JStr s => match parseFloat s with Fin q => (0 < q)%Q | _ => False end
  | _ => False
  end.

Definition unknownSpot : Spot :=
  {| freq := JStr "0.000"; call := JStr "UNKNOWN"; comment := JStr "";
     time := JStr ""; spotter := JStr "" |}.

(** C4, as stated, fails: a record without a frequency is emitted by both
    JSON mappings with the text ["0.000"], whose value is not positive. *)
Lemma json_sources_emit_zero_frequency :
  (forall nts, dxSummitSpots nts (JArr [JObj []]) = Some [unknownSpot]) /\
  (forall nts, dxHeatSpots nts (JArr [JObj []]) = Some [unknownSpot]) /\
  ~ frequencyPositive unknownSpot.
Proof.
  repeat split. unfold frequencyPositive. simpl. intro H. discriminate H.
Qed.

(** C4, amended.  Every spot emitted from the HamQTH text comes from one of
    the first 25 lines whose kHz field parses to a number that is not [NaN]
    and is greater than 0, and its frequency is that number divided by 1000,
    the quotient rounded to binary64, and printed with three decimals.  The
    JSON mappings do not check the
    frequency: DX Summit emits the text of the [frequency] property when it
    is truthy and ["0.000"] otherwise, DXHeat emits [f || frequency ||
    "0.000"] unchanged. *)
Theorem hamqth_frequency_checked_json_unchecked :
  (forall text spots sp,
      tryHamQTH NumberToString (Response true (Some text)) = Some spots ->
      In sp spots ->
      exists line khz,
        In line (firstn 25 (hamqthLines text)) /\
        khz = parseFloat (at_or_empty (split "^" line) 1) /\
        isNaN khz = false /\ qgt khz (Fin 0%Q) = true /\
        freq sp =
          JStr (toFixed NumberToString (rounded (qdiv khz (Fin 1000%Q))) 3))
  /\ (forall spot sp frequency,
        dxSummitSpot NumberToString spot = Some sp ->
        getProp spot "frequency" = Some frequency ->
        freq sp = if truthy frequency then JStr (ToString NumberToString frequency)
                  else JStr "0.000")
  /\ (forall spot sp f frequency,
        dxHeatSpot NumberToString spot = Some sp ->
        getProp spot "f" = Some f ->
        getProp spot "frequency" = Some frequency ->
        freq sp = orElse (orElse f frequency) (JStr "0.000")).
Proof using NumberToString.
  repeat split.
  - intros text spots sp H Hin. simpl in H.
    destruct (0 <? List.length (hamqthLines text))%nat; [|discriminate].
    destruct (0 <? List.length (hamqthSpots NumberToString (hamqthLines text)))%nat;
      [|discriminate].
    injection H as <-. apply hamqthSpots_In in Hin. destruct Hin as (line & Hl & Hsp).
    apply hamqthLine_Some in Hsp. simpl in Hsp.
    destruct Hsp as (_ & Hnan & Hpos & _ & Hfreq & _).
    exists line, (parseFloat (at_or_empty (split "^" line) 1)).
    repeat split; assumption.
  - intros spot sp frequency H Hf. unfold dxSummitSpot in H. rewrite Hf in H.
    simpl in H.
    repeat match type of H with
           | bindOpt ?c _ = Some _ => destruct c; simpl in H; [|discriminate]
           end.
    injection H as <-. reflexivity.
  - intros spot sp f frequency H Hf Hfr. unfold dxHeatSpot in H.
    rewrite Hf in H. simpl in H. rewrite Hfr in H. simpl in H.
    repeat match type of H with
           | bindOpt ?c _ = Some _ => destruct c; simpl in H; [|discriminate]
           end.
    injection H as <-. reflexivity.
Qed.

End SpotFacts.

(* ================================================================== *)
(** * Part VI. Properties of the space-weather snapshot *)
(* ================================================================== *)


(** The estimate of the sunspot number written in the specification:
    [max(0, round((sfi - 67) / 0.97))]. *)
Definition ssnFromSfi (sfi : qnum) : qnum :=
  qmax (Fin 0%Q) (qround (qdiv (qsub sfi (Fin 67%Q)) (Fin 0.97%Q))).


Section SnapshotFacts.
Local Open Scope string_scope.

Variable NumberToString : Q -> string.
Variable StringToNumber : string -> qnum.

Local Abbreviation snapshot := (solarSnapshot NumberToString StringToNumber).
Local Abbreviation fluxStmt := (fluxStatement NumberToString StringToNumber).
Local Abbreviation kStmt := (kStatement NumberToString StringToNumber).



Lemma fluxStatement_frame : forall r s s',
  fluxStmt r s = Some s' -> ssn s' = ssn s /\ kIndex s' = kIndex s.
Proof.
  intros [|[] [data|]] s s' H; simpl in H; try discriminate;
    try (injection H as <-; now split).
  destruct (truthy (getPropOpt data "length")); [|injection H as <-; now split].
  destruct (lastOf NumberToString StringToNumber data) as [last|]; [|discriminate].
  simpl in H. destruct (getProp last "flux"); [|discriminate].
  simpl in H. injection H as <-. now split.
Qed.

Lemma kStatement_frame : forall r s s',
  kStmt r s = Some s' ->
  sfi s' = sfi s /\ ssn s' = ssn s /\
  (qtruthy (kIndex s) = true -> qtruthy (kIndex s') = true).
Proof.
  intros [|[] [data|]] s s' H; simpl in H; try discriminate;
    try (injection H as <-; now repeat split).
  match type of H with
  | (if ?c then _ else _) = _ => destruct c; [|injection H as <-; now repeat split]
  end.
  destruct (lastOf NumberToString StringToNumber data) as [last|]; [|discriminate].
  simpl in H. destruct (getIndex NumberToString last (Fin 1%Q)) as [k|]; [|discriminate].
  simpl in H. injection H as <-. simpl. repeat split. intros _.
  destruct (qtruthy (parseIntNum NumberToString k)) eqn:E; [exact E|reflexivity].
Qed.

(** The snapshot in terms of its three statements. *)
Lemma snapshot_cases : forall fluxRes kRes,
  snapshot fluxRes kRes =
  match fluxStmt fluxRes defaults with
  | None => defaults
  | Some s1 =>
      match kStmt kRes s1 with
      | None => s1
      | Some s2 => {| sfi := sfi s2; ssn := ssnFromSfi (sfi s2); kIndex := kIndex s2 |}
      end
  end.
Proof.
  intros. unfold solarSnapshot. simpl.
  destruct (fluxStmt fluxRes defaults) as [s1|]; [|reflexivity].
  destruct (kStmt kRes s1) as [s2|]; reflexivity.
Qed.


(** C10.  The K index of the snapshot is never 0 (nor [NaN]); when the K
    fetch succeeds and the second component of the last element of the series
    parses to 0 or to no integer, the snapshot holds the default 2. *)
Theorem kindex_zero_never_reported : forall fluxRes kRes,
  qtruthy (kIndex (snapshot fluxRes kRes)) = true
  /\
  (forall data last k,
      kRes = Fulfilled true (Some data) ->
      qgt (ToNumber NumberToString StringToNumber (getPropOpt data "length"))
          (Fin 1%Q) = true ->
      lastOf NumberToString StringToNumber data = Some last ->
      getIndex NumberToString last (Fin 1%Q) = Some k ->
      parseInt (ToString NumberToString k) = Some 0%Z \/
      parseInt (ToString NumberToString k) = None ->
      kIndex (snapshot fluxRes kRes) = Fin 2%Q).
Proof.
  intros fluxRes kRes. split.
  - rewrite snapshot_cases.
    destruct (fluxStmt fluxRes defaults) as [s1|] eqn:H1; [|reflexivity].
    destruct (fluxStatement_frame _ _ H1) as (_ & Hk1).
    destruct (kStmt kRes s1) as [s2|] eqn:H2.
    + simpl. destruct (kStatement_frame _ _ H2) as (_ & _ & Hk2).
      apply Hk2. now rewrite Hk1.
    + now rewrite Hk1.
  - intros data last k -> Hlen Hlast Hk Hparse. rewrite snapshot_cases.
    destruct (fluxStmt fluxRes defaults) as [s1|] eqn:H1; [|reflexivity].
    unfold kStatement. cbn [bindOpt]. rewrite Hlen, Hlast. cbn [bindOpt].
    rewrite Hk. cbn [bindOpt kIndex].
    unfold parseIntNum. destruct Hparse as [-> | ->]; reflexivity.
Qed.

End SnapshotFacts.

(* ================================================================== *)
(** * Part VII. Properties of the estimator *)
(* ================================================================== *)

Section RealArithmetic.
Local Open Scope R_scope.

Lemma Rltb_true : forall x y, Rltb x y = true <-> x < y.
Proof. intros. unfold Rltb. destruct (Rlt_dec x y); intuition discriminate. Qed.

Lemma Rltb_false : forall x y, Rltb x y = false <-> y <= x.
Proof.
  intros. unfold Rltb.
  destruct (Rlt_dec x y); split; intro; first [discriminate | lra | reflexivity].
Qed.

Lemma Rltb_lt : forall x y, x < y -> Rltb x y = true.
Proof. intros. now apply Rltb_true. Qed.

Lemma Rltb_ge : forall x y, y <= x -> Rltb x y = false.
Proof. intros. now apply Rltb_false. Qed.

Lemma isZero_nonzero : forall b, b <> 0 -> isZero 0 Rltb b = false.
Proof.
  intros b Hb. unfold isZero.
  destruct (Rltb b 0) eqn:E1; [reflexivity|].
  destruct (Rltb 0 b) eqn:E2; [reflexivity|].
  apply Rltb_false in E1, E2. exfalso. apply Hb. lra.
Qed.

Lemma isZero_zero : isZero 0 Rltb 0 = true.
Proof. unfold isZero. rewrite (@Rltb_ge 0 0) by lra. reflexivity. Qed.

Lemma jadd_real : forall a b, (real a + real b)%js = real (a + b).
Proof. reflexivity. Qed.

Lemma jsub_real : forall a b, (real a - real b)%js = real (a - b).
Proof. reflexivity. Qed.

Lemma jmul_real : forall a b, (real a * real b)%js = real (a * b).
Proof. reflexivity. Qed.

Lemma jdiv_real : forall a b, b <> 0 -> (real a / real b)%js = real (a / b).
Proof. intros a b Hb. unfold jdiv, real, num_div. now rewrite isZero_nonzero. Qed.

Lemma jdiv_zero_zero : (real 0 / real 0)%js = NaN.
Proof. unfold jdiv, real, num_div. now rewrite isZero_zero. Qed.

Lemma jlt_real : forall a b, (real a <? real b)%js = Rltb a b.
Proof. reflexivity. Qed.

Lemma jgt_real : forall a b, (real a >? real b)%js = Rltb b a.
Proof. reflexivity. Qed.

Lemma jle_real : forall a b, (real a <=? real b)%js = negb (Rltb b a).
Proof. reflexivity. Qed.

Lemma jge_real : forall a b, (real a >=? real b)%js = negb (Rltb a b).
Proof. reflexivity. Qed.

Lemma Math_abs_real : forall a, Math_abs (real a) = real (Rabs a).
Proof. reflexivity. Qed.

Lemma Math_cos_real : forall a, Math_cos (real a) = real (cos a).
Proof. reflexivity. Qed.

Lemma Math_sin_real : forall a, Math_sin (real a) = real (sin a).
Proof. reflexivity. Qed.

Lemma Math_sqrt_real : forall a, 0 <= a -> Math_sqrt (real a) = real (sqrt a).
Proof. intros a Ha. unfold Math_sqrt, real. now rewrite Rltb_ge. Qed.

Lemma Math_sqrt_neg : forall a, a < 0 -> Math_sqrt (real a) = NaN.
Proof. intros a Ha. unfold Math_sqrt, real. now rewrite Rltb_lt. Qed.

Lemma Math_max_real : forall a b, Math_max (real a) (real b) = real (Rmax a b).
Proof.
  intros a b. unfold Math_max, num_max, real, num_lt, Rltb, Rmax.
  destruct (Rlt_dec a b), (Rle_dec a b); first [reflexivity | lra | f_equal; lra].
Qed.

Lemma Math_min_real : forall a b, Math_min (real a) (real b) = real (Rmin a b).
Proof.
  intros a b. unfold Math_min, num_min, real, num_lt, Rltb, Rmin.
  destruct (Rlt_dec b a), (Rle_dec a b); first [reflexivity | lra | f_equal; lra].
Qed.

Lemma Math_round_real : forall a, Math_round (real a) = real (IZR (Zfloor (a + / 2))).
Proof. reflexivity. Qed.

(** The comparator [b - a] is positive exactly when [a < b]. *)
Lemma comparator_positive : forall a b : jsnum,
  ((b - a)%js >? real 0)%js = (a <? b)%js.
Proof.
  intros [|s|a] [|t|b]; try reflexivity;
    try (destruct s; try destruct t; reflexivity).
  unfold jgt, num_gt, jsub, num_sub, num_opp, num_add, num_lt, jlt, num_lt, real.
  destruct (Rltb a b) eqn:E.
  - apply Rltb_true in E. apply Rltb_lt. lra.
  - apply Rltb_false in E. apply Rltb_ge. lra.
Qed.

(** The final clamp answers [NaN] or a number of the interval [0, 99],
    whatever it is given. *)
Lemma clamp_range : forall x : jsnum,
  Math_min (real 99) (Math_max (real 0) x) = NaN \/
  exists r, Math_min (real 99) (Math_max (real 0) x) = real r /\ 0 <= r <= 99.
Proof.
  intros [|s|a].
  - now left.
  - right. destruct s; cbn.
    + exists 0. rewrite (@Rltb_lt 0 99) by lra. split; [reflexivity|lra].
    + exists 99. split; [reflexivity|lra].
  - right. rewrite Math_max_real, Math_min_real. eexists. split; [reflexivity|].
    unfold Rmin, Rmax. destruct (Rle_dec 0 a), (Rle_dec 99 _); lra.
Qed.

Lemma clamp_NaN : forall x : jsnum,
  Math_min (real 99) (Math_max (real 0) x) = NaN -> x = NaN.
Proof.
  intros x H. destruct x as [|s|a]; [reflexivity| |].
  - destruct s; cbn in H; [rewrite (@Rltb_lt 0 99) in H by lra|]; discriminate.
  - rewrite Math_max_real, Math_min_real in H. discriminate.
Qed.

Lemma round_range : forall r, 0 <= r <= 99 ->
  exists z, Math_round (real r) = real (IZR z) /\ (0 <= z <= 99)%Z.
Proof.
  intros r Hr. exists (Zfloor (r + / 2)). split; [reflexivity|].
  pose proof (Zfloor_bound (r + / 2)) as [Hlo Hhi].
  split.
  - apply Zfloor_lub. simpl. lra.
  - assert (H : IZR (Zfloor (r + / 2)) < IZR 100) by (simpl; lra).
    apply lt_IZR in H. lia.
Qed.

End RealArithmetic.

Section EstimatorFacts.
Local Open Scope R_scope.

(** *** The formulas of the specification *)

(** Written from the specification's section 4.5 (steps 2 to 5). *)
Definition spec_foF2 (ssn hour : jsnum) : jsnum :=
  (0.9 * Math_sqrt (ssn + 15) * (1 + 0.4 * Math_cos ((hour - 12) * Math_PI / 12)))%js.

Definition spec_MUF (ssn hour distance midLatitude : jsnum) : jsnum :=
  (spec_foF2 ssn hour * Math_sqrt (1 + distance / 3500)
   * (1 - Math_abs midLatitude / 200) * 3.5)%js.

Definition spec_LUF (sfi dayNightFactor kIndex : jsnum) : jsnum :=
  (2 + (sfi / 100) * dayNightFactor + kIndex * 0.5)%js.

Definition spec_baseReliability (freq MUF LUF : jsnum) : jsnum :=
  if (freq >? MUF)%js then Math_max 0 (50 - (freq - MUF) * 10)%js
  else if (freq <? LUF)%js then Math_max 0 (50 - (LUF - freq) * 15)%js
  else (50 + (1 - Math_abs (freq - (MUF + LUF) / 2) / (MUF - LUF)) * 45)%js.

(** *** The estimator on real inputs *)

Ltac push_real :=
  repeat first
    [ rewrite jadd_real | rewrite jsub_real | rewrite jmul_real
    | rewrite Math_abs_real | rewrite Math_cos_real | rewrite Math_max_real
    | rewrite Math_min_real | rewrite jdiv_real by lra ].

Lemma hourFactor_real : forall h,
  hourFactor (real h) = real (1 + 0.4 * cos ((h - 12) * PI / 12)).
Proof. intro h. unfold hourFactor, Math_PI. fold (real PI). now push_real. Qed.

Lemma latFactor_real : forall m, latFactor (real m) = real (1 - Rabs m / 200).
Proof. intro m. unfold latFactor. now push_real. Qed.

Lemma MUF_real : forall ssn h d m,
  0 <= ssn + 15 -> 0 <= 1 + d / 3500 ->
  MUF (real ssn) (real h) (real d) (real m) =
  real (0.9 * sqrt (ssn + 15) * (1 + 0.4 * cos ((h - 12) * PI / 12))
        * sqrt (1 + d / 3500) * (1 - Rabs m / 200) * 3.5).
Proof.
  intros ssn h d m Hs Hd. unfold MUF, foF2, distFactor.
  rewrite hourFactor_real, latFactor_real. push_real.
  rewrite !Math_sqrt_real by assumption. now push_real.
Qed.

Lemma MUF_real_or_NaN : forall ssn h d m,
  MUF (real ssn) (real h) (real d) (real m) = NaN \/
  exists x, MUF (real ssn) (real h) (real d) (real m) = real x.
Proof.
  intros ssn h d m.
  destruct (Rlt_dec (ssn + 15) 0) as [Hs|Hs].
  - left. unfold MUF, foF2. push_real. now rewrite Math_sqrt_neg.
  - destruct (Rlt_dec (1 + d / 3500) 0) as [Hd|Hd].
    + left. unfold MUF, foF2, distFactor. rewrite hourFactor_real. push_real.
      rewrite (@Math_sqrt_real (ssn + 15)) by lra. push_real.
      now rewrite Math_sqrt_neg.
    + right. eexists. apply MUF_real; lra.
Qed.

(** The day/night factor is one of two numbers. *)
Definition dayNightR (hour : jsnum) (de dx : Coord) : R :=
  if isDaytime hour ((lon de + lon dx) / 2)%js then 1.5 else 0.5.

Lemma LUF_real : forall flux k h de dx,
  LUF (real flux) (real k) h de dx =
  real (2 + flux / 100 * dayNightR h de dx + k * 0.5).
Proof.
  intros flux k h de dx. unfold LUF, dayNight, dayNightR.
  destruct (isDaytime h _); now push_real.
Qed.

Lemma dayNightR_cases : forall h de dx,
  dayNightR h de dx = 1.5 \/ dayNightR h de dx = 0.5.
Proof. intros h de dx. unfold dayNightR. destruct (isDaytime _ _); auto. Qed.

(** The base reliability for a real window: the three cases, the last one
    undefined ([0 / 0]) when the window is a single point. *)
Lemma baseReliability_real : forall f m l,
  baseReliability (real f) (real m) (real l) =
  if Rltb m f then real (Rmax 0 (50 - (f - m) * 10))
  else if Rltb f l then real (Rmax 0 (50 - (l - f) * 15))
  else if Req_dec_T m l then NaN
  else real (50 + (1 - Rabs (f - (m + l) / 2) / (m - l)) * 45).
Proof.
  intros f m l. unfold baseReliability. rewrite jgt_real, jlt_real.
  destruct (Rltb m f) eqn:Hm; [now push_real|].
  destruct (Rltb f l) eqn:Hl; [now push_real|].
  apply Rltb_false in Hm, Hl. push_real.
  destruct (Req_dec_T m l) as [E|E].
  - assert (f = l) by lra. subst m f.
    replace (Rabs (l - (l + l) / 2)) with 0
      by (replace (l - (l + l) / 2) with 0 by lra; now rewrite Rabs_R0).
    replace (l - l) with 0 by lra. now rewrite jdiv_zero_zero.
  - rewrite jdiv_real by lra. now push_real.
Qed.

Lemma baseReliability_NaN_muf : forall f l,
  baseReliability (real f) NaN (real l) =
  if Rltb f l then real (Rmax 0 (50 - (l - f) * 15)) else NaN.
Proof.
  intros f l. unfold baseReliability. rewrite jlt_real.
  change ((real f >? NaN)%js) with false. cbv iota.
  destruct (Rltb f l); [now push_real|reflexivity].
Qed.

(** In the usable window the base reliability lies between 72.5 and 95;
    outside it lies between 0 and 50. *)
Lemma baseReliability_bounds : forall f (muf : jsnum) l b,
  (muf = NaN \/ exists m, muf = real m) ->
  baseReliability (real f) muf (real l) = real b ->
  0 <= b <= 95 /\ (l <= f -> (exists m, muf = real m /\ m < f) \/ 72.5 <= b).
Proof.
  intros f muf l b [-> | (m & ->)] H.
  - rewrite baseReliability_NaN_muf in H.
    destruct (Rltb f l) eqn:Hl; [|discriminate]. apply Rltb_true in Hl.
    injection H as <-. split; [|lra].
    unfold Rmax. destruct (Rle_dec 0 _); lra.
  - rewrite baseReliability_real in H.
    destruct (Rltb m f) eqn:Hm.
    { apply Rltb_true in Hm. injection H as <-. split.
      - unfold Rmax. destruct (Rle_dec 0 _); lra.
      - intros _. left. now exists m. }
    destruct (Rltb f l) eqn:Hl.
    { apply Rltb_true in Hl. injection H as <-. split; [|lra].
      unfold Rmax. destruct (Rle_dec 0 _); lra. }
    destruct (Req_dec_T m l) as [E|E]; [discriminate|].
    apply Rltb_false in Hm, Hl. injection H as <-.
    assert (Hw : 0 < m - l) by lra.
    assert (Hq : 0 <= Rabs (f - (m + l) / 2) / (m - l) <= / 2).
    { split.
      - apply Rmult_le_pos; [apply Rabs_pos|left; now apply Rinv_0_lt_compat].
      - apply Rmult_le_reg_r with (m - l); [assumption|].
        unfold Rdiv. rewrite Rmult_assoc, Rinv_l by lra. rewrite Rmult_1_r.
        unfold Rabs. destruct (Rcase_abs _); lra. }
    split; [lra|]. intros _. right. lra.
Qed.

(** *** The penalties on real inputs *)

Lemma stormDegradation_5 : forall x,
  stormDegradation (real 5) (real x) = real (x * 0.3).
Proof.
  intro x. unfold stormDegradation. rewrite jge_real.
  rewrite (@Rltb_ge 5 5) by lra. reflexivity.
Qed.

Lemma stormDegradation_2 : forall x : jsnum, stormDegradation (real 2) x = x.
Proof.
  intro x. unfold stormDegradation. rewrite !jge_real.
  rewrite (@Rltb_lt 2 5), (@Rltb_lt 2 4), (@Rltb_lt 2 3) by lra. reflexivity.
Qed.

Lemma stormDegradation_NaN : forall k, stormDegradation k NaN = NaN.
Proof.
  intro k. unfold stormDegradation.
  destruct (k >=? real 5)%js; [reflexivity|].
  destruct (k >=? real 4)%js; [reflexivity|].
  destruct (k >=? real 3)%js; reflexivity.
Qed.

Lemma penalties_NaN : forall f s d,
  highBandPenalty f s (longPathPenalty d NaN) = NaN.
Proof.
  intros f s d. unfold highBandPenalty, longPathPenalty.
  repeat match goal with
         | |- context [if ?c then _ else _] => destruct c
         end; reflexivity.
Qed.

(** The long-path and high-band penalties multiply by a factor that depends
    on the frequency, the flux and the distance only. *)
Lemma penalties_real : forall f s d,
  exists M, forall x,
    highBandPenalty (real f) (real s) (longPathPenalty (real d) (real x)) =
    real (x * M).
Proof.
  intros f s d. unfold highBandPenalty, longPathPenalty.
  rewrite !jge_real, !jlt_real, !jgt_real.
  destruct (Rltb 15000 d); [|destruct (Rltb 10000 d)];
    destruct (negb (Rltb f 21) && Rltb s 100);
    destruct (negb (Rltb f 28) && Rltb s 120);
    eexists; intro x; push_real;
    try (rewrite <- (Rmult_1_r x) at 1); rewrite ?Rmult_assoc; reflexivity.
Qed.

Lemma baseReliability_real_or_NaN : forall f (muf : jsnum) l,
  (muf = NaN \/ exists m, muf = real m) ->
  baseReliability (real f) muf (real l) = NaN \/
  exists b, baseReliability (real f) muf (real l) = real b.
Proof.
  intros f muf l [-> | (m & ->)].
  - rewrite baseReliability_NaN_muf. destruct (Rltb f l); eauto.
  - rewrite baseReliability_real.
    destruct (Rltb m f); eauto. destruct (Rltb f l); eauto.
    destruct (Req_dec_T m l); eauto.
Qed.

(** The result of the estimator on real inputs, from the base reliability
    [b], the storm factor and the factor [M] of the other penalties. *)
Lemma clamp_real : forall x, Math_min (real 99) (Math_max (real 0) (real x)) =
                             real (Rmin 99 (Rmax 0 x)).
Proof. intro x. now rewrite Math_max_real, Math_min_real. Qed.

(** Raising the lowest usable frequency by 1.5 MHz (K index 5 instead of 2)
    and applying the storm factor 0.3 never raises the base reliability. *)
Lemma base_storm_compare : forall f (muf : jsnum) l b2 b5,
  (muf = NaN \/ exists m, muf = real m) ->
  baseReliability (real f) muf (real l) = real b2 ->
  baseReliability (real f) muf (real (l + 1.5)) = real b5 ->
  0 <= b2 /\ 0 <= b5 /\ b5 * 0.3 <= b2 /\ (0 < b2 -> b5 * 0.3 < b2).
Proof.
  intros f muf l b2 b5 Hmuf H2 H5.
  destruct (@baseReliability_bounds f muf l b2 Hmuf H2) as (Hb2 & Hw2).
  destruct (@baseReliability_bounds f muf (l + 1.5) b5 Hmuf H5) as (Hb5 & _).
  assert (Hout : f < l ->
                 b2 = Rmax 0 (50 - (l - f) * 15) /\
                 b5 = Rmax 0 (50 - (l + 1.5 - f) * 15) -> 
                 b5 <= b2).
  { intros Hf (-> & ->). unfold Rmax.
    destruct (Rle_dec 0 _), (Rle_dec 0 _); lra. }
  destruct Hmuf as [-> | (m & ->)].
  - rewrite baseReliability_NaN_muf in H2, H5.
    destruct (Rltb f l) eqn:Hl; [|discriminate]. apply Rltb_true in Hl.
    rewrite (@Rltb_lt f (l + 1.5)) in H5 by lra.
    injection H2 as <-. injection H5 as <-.
    assert (Hle := Hout Hl (conj eq_refl eq_refl)). lra.
  - destruct (Rlt_dec m f) as [Hm|Hm].
    + rewrite baseReliability_real, (Rltb_lt Hm) in H2, H5.
      injection H2 as <-. injection H5 as <-. lra.
    + destruct (Rlt_dec f l) as [Hl|Hl].
      * rewrite baseReliability_real, (@Rltb_ge m f) in H2, H5 by lra.
        rewrite (Rltb_lt Hl) in H2. rewrite (@Rltb_lt f (l + 1.5)) in H5 by lra.
        injection H2 as <-. injection H5 as <-.
        assert (Hle := Hout Hl (conj eq_refl eq_refl)). lra.
      * destruct Hw2 as [(m' & Em & Hm') | Hb]; [lra | |].
        -- injection Em as <-. lra.
        -- lra.
Qed.

(** With every other input fixed and real, the reliability for K index 5 is
    never above the reliability for K index 2, and it is strictly below
    whenever the latter lies strictly between 0 and 99. *)
Lemma storm_compare :
  forall (freq distance midLat hr flux sunspots : R) (de dx : Coord) (r5 r2 : R),
  calculateBandReliability (real freq) (real distance) (real midLat) (real hr)
    (real flux) (real sunspots) (real 5) de dx = real r5 ->
  calculateBandReliability (real freq) (real distance) (real midLat) (real hr)
    (real flux) (real sunspots) (real 2) de dx = real r2 ->
  r5 <= r2 /\ (0 < r2 < 99 -> r5 < r2).
Proof.
  intros f d m h s n de dx r5 r2 H5 H2.
  unfold calculateBandReliability in H5, H2. rewrite LUF_real in H5, H2.
  pose proof (MUF_real_or_NaN n h d m) as Hmuf.
  set (muf := MUF (real n) (real h) (real d) (real m)) in *.
  set (dn := dayNightR (real h) de dx) in *.
  replace (2 + s / 100 * dn + 5 * 0.5) with (2 + s / 100 * dn + 2 * 0.5 + 1.5)
    in H5 by lra.
  set (l := 2 + s / 100 * dn + 2 * 0.5) in *.
  destruct (penalties_real f s d) as (M & HM).
  destruct (@baseReliability_real_or_NaN f muf l Hmuf) as [E2 | (b2 & E2)].
  { rewrite E2, stormDegradation_NaN, penalties_NaN in H2. discriminate. }
  destruct (@baseReliability_real_or_NaN f muf (l + 1.5) Hmuf) as [E5 | (b5 & E5)].
  { rewrite E5, stormDegradation_NaN, penalties_NaN in H5. discriminate. }
  destruct (@base_storm_compare f muf l b2 b5 Hmuf E2 E5) as (Hb2 & Hb5 & Hle & Hlt).
  rewrite E2, stormDegradation_2, HM, clamp_real in H2.
  rewrite E5, stormDegradation_5, HM, clamp_real in H5.
  injection H2 as <-. injection H5 as <-.
  set (p := b5 * 0.3) in *.
  assert (Hp : 0 <= p) by (unfold p; lra). clearbody p.
  destruct (Rle_dec M 0) as [HM0 | HM0].
  - assert (p * M <= 0) by nra. assert (b2 * M <= 0) by nra.
    unfold Rmin, Rmax.
    destruct (Rle_dec 0 (p * M)), (Rle_dec 0 (b2 * M));
      repeat match goal with |- context [Rle_dec ?a ?b] => destruct (Rle_dec a b) end;
      lra.
  - assert (HMpos : 0 < M) by lra.
    assert (Hx : p * M <= b2 * M) by nra.
    split.
    + unfold Rmin, Rmax.
      destruct (Rle_dec 0 (p * M)), (Rle_dec 0 (b2 * M));
        repeat match goal with |- context [Rle_dec ?a ?b] => destruct (Rle_dec a b) end;
        lra.
    + intros Hr.
      assert (Hr2 : Rmin 99 (Rmax 0 (b2 * M)) = b2 * M).
      { revert Hr. unfold Rmin, Rmax.
        destruct (Rle_dec 0 (b2 * M));
          repeat match goal with |- context [Rle_dec ?a ?b] => destruct (Rle_dec a b) end;
          lra. }
      rewrite Hr2 in *.
      assert (0 < b2) by nra.
      assert (p * M < b2 * M) by (specialize (Hlt H); nra).
      unfold Rmin, Rmax.
      destruct (Rle_dec 0 (p * M));
        repeat match goal with |- context [Rle_dec ?a ?b] => destruct (Rle_dec a b) end;
        lra.
Qed.

(** Only the highest bracket that the K index reaches is applied. *)
Lemma stormDegradation_brackets : forall k x : R,
  (5 <= k -> stormDegradation (real k) (real x) = real (x * 0.3)) /\
  (4 <= k < 5 -> stormDegradation (real k) (real x) = real (x * 0.6)) /\
  (3 <= k < 4 -> stormDegradation (real k) (real x) = real (x * 0.8)) /\
  (k < 3 -> stormDegradation (real k) (real x) = real x).
Proof.
  intros k x. unfold stormDegradation. rewrite !jge_real.
  repeat split; intro H.
  - rewrite (@Rltb_ge k 5) by lra. reflexivity.
  - rewrite (@Rltb_lt k 5), (@Rltb_ge k 4) by lra. reflexivity.
  - rewrite (@Rltb_lt k 5), (@Rltb_lt k 4), (@Rltb_ge k 3) by lra. reflexivity.
  - rewrite (@Rltb_lt k 5), (@Rltb_lt k 4), (@Rltb_lt k 3) by lra. reflexivity.
Qed.

(** C7, amended.  The storm degradation applies only the highest bracket
    that the K index reaches: the factor is 0.3 from 5 on, 0.6 from 4 to 5,
    0.8 from 3 to 4, and there is none below 3 (so 0.3 alone for K index 5
    and nothing for K index 2).  With every other input fixed and real, the
    reliability for K index 5 is never above the reliability for K index 2,
    and it is strictly below whenever the latter lies strictly between 0
    and 99. *)
Theorem storm_never_raises_reliability :
  (forall k x : R,
      (5 <= k -> stormDegradation (real k) (real x) = real (x * 0.3)) /\
      (4 <= k < 5 -> stormDegradation (real k) (real x) = real (x * 0.6)) /\
      (3 <= k < 4 -> stormDegradation (real k) (real x) = real (x * 0.8)) /\
      (k < 3 -> stormDegradation (real k) (real x) = real x))
  /\
  (forall (freq distance midLat hr flux sunspots : R) (de dx : Coord) (r5 r2 : R),
      calculateBandReliability (real freq) (real distance) (real midLat) (real hr)
        (real flux) (real sunspots) (real 5) de dx = real r5 ->
      calculateBandReliability (real freq) (real distance) (real midLat) (real hr)
        (real flux) (real sunspots) (real 2) de dx = real r2 ->
      r5 <= r2 /\ (0 < r2 < 99 -> r5 < r2)).
Proof.
  split.
  - exact stormDegradation_brackets.
  - intros freq distance midLat hr flux sunspots de dx r5 r2 H5 H2.
    exact (@storm_compare freq distance midLat hr flux sunspots de dx r5 r2 H5 H2).
Qed.

(** *** Evaluating the estimator *)

Lemma stormDegradation_real : forall k,
  exists c, 0 < c <= 1 /\
    forall x, stormDegradation (real k) (real x) = real (x * c).
Proof.
  intro k. unfold stormDegradation. rewrite !jge_real.
  destruct (negb (Rltb k 5)); [exists 0.3; split; [lra|reflexivity]|].
  destruct (negb (Rltb k 4)); [exists 0.6; split; [lra|reflexivity]|].
  destruct (negb (Rltb k 3)); [exists 0.8; split; [lra|reflexivity]|].
  exists 1. split; [lra|]. intro x. now rewrite Rmult_1_r.
Qed.

(** The estimator on real inputs whose square roots are defined, in terms
    of the real window. *)
Definition mufR (sunspots hr dist midLat : R) : R :=
  0.9 * sqrt (sunspots + 15) * (1 + 0.4 * cos ((hr - 12) * PI / 12))
  * sqrt (1 + dist / 3500) * (1 - Rabs midLat / 200) * 3.5.

Definition lufR (flux k : R) (hr : jsnum) (de dx : Coord) : R :=
  2 + flux / 100 * dayNightR hr de dx + k * 0.5.

Lemma calculateBandReliability_real :
  forall f d m h s n k de dx,
  0 <= n + 15 -> 0 <= 1 + d / 3500 ->
  calculateBandReliability (real f) (real d) (real m) (real h) (real s) (real n)
    (real k) de dx =
  Math_min (real 99)
    (Math_max (real 0)
       (highBandPenalty (real f) (real s)
          (longPathPenalty (real d)
             (stormDegradation (real k)
                (baseReliability (real f) (real (mufR n h d m))
                   (real (lufR s k (real h) de dx))))))).
Proof.
  intros. unfold calculateBandReliability. rewrite LUF_real, MUF_real by assumption.
  reflexivity.
Qed.

Lemma foF2_real : forall n h,
  0 <= n + 15 ->
  foF2 (real n) (real h) =
  real (0.9 * sqrt (n + 15) * (1 + 0.4 * cos ((h - 12) * PI / 12))).
Proof.
  intros n h Hn. unfold foF2. rewrite hourFactor_real. push_real.
  rewrite Math_sqrt_real by assumption. now push_real.
Qed.

(** C5.  For every nine inputs the estimator computes the critical
    frequency, the maximum and lowest usable frequencies and the base
    reliability by the formulas of the specification, and returns the base
    reliability after the three penalties and the clamp.  On real inputs
    whose square roots exist these are the real-number formulas, the last
    case of the base reliability being defined when the window is not a
    single point. *)
Theorem reliability_formulas :
  (forall (freq dist midLat hr flux sunspots k : jsnum) (de dx : Coord),
     let muf := spec_MUF sunspots hr dist midLat in
     let luf := spec_LUF flux (dayNight hr de dx) k in
     foF2 sunspots hr = spec_foF2 sunspots hr /\
     MUF sunspots hr dist midLat = muf /\
     LUF flux k hr de dx = luf /\
     baseReliability freq muf luf = spec_baseReliability freq muf luf /\
     calculateBandReliability freq dist midLat hr flux sunspots k de dx =
     Math_min 99
       (Math_max 0
          (highBandPenalty freq flux
             (longPathPenalty dist
                (stormDegradation k (spec_baseReliability freq muf luf))))))
  /\
  (forall (f d m h s n k : R) (de dx : Coord),
     0 <= n + 15 -> 0 <= 1 + d / 3500 ->
     let muf := mufR n h d m in
     let luf := lufR s k (real h) de dx in
     foF2 (real n) (real h) =
       real (0.9 * sqrt (n + 15) * (1 + 0.4 * cos ((h - 12) * PI / 12))) /\
     MUF (real n) (real h) (real d) (real m) = real muf /\
     LUF (real s) (real k) (real h) de dx = real luf /\
     (muf < f ->
      baseReliability (real f) (real muf) (real luf) =
      real (Rmax 0 (50 - (f - muf) * 10))) /\
     (f <= muf -> f < luf ->
      baseReliability (real f) (real muf) (real luf) =
      real (Rmax 0 (50 - (luf - f) * 15))) /\
     (luf <= f <= muf -> luf < muf ->
      baseReliability (real f) (real muf) (real luf) =
      real (50 + (1 - Rabs (f - (muf + luf) / 2) / (muf - luf)) * 45))).
Proof.
  split.
  - intros. repeat split.
  - intros f d m h s n k de dx Hn Hd muf luf.
    split; [now apply foF2_real|].
    split; [now apply MUF_real|].
    split; [apply LUF_real|].
    rewrite baseReliability_real. repeat split.
    + intro H. now rewrite (Rltb_lt H).
    + intros H1 H2. now rewrite (Rltb_ge H1), (Rltb_lt H2).
    + intros (H1 & H2) H3. rewrite (Rltb_ge H2), (Rltb_ge H1).
      destruct (Req_dec_T muf luf) as [E|_]; [exfalso; lra|reflexivity].
Qed.

(** Far above the maximum usable frequency (5 MHz or more) the link is
    closed whatever the other inputs. *)
Lemma closed_far_above_muf : forall f d m h s n k de dx,
  0 <= n + 15 -> 0 <= 1 + d / 3500 ->
  mufR n h d m + 5 <= f ->
  calculateBandReliability (real f) (real d) (real m) (real h) (real s) (real n)
    (real k) de dx = real 0.
Proof.
  intros f d m h s n k de dx Hn Hd Hf.
  rewrite calculateBandReliability_real by assumption.
  rewrite baseReliability_real, (@Rltb_lt (mufR n h d m) f) by lra.
  replace (Rmax 0 (50 - (f - mufR n h d m) * 10)) with 0
    by (unfold Rmax; destruct (Rle_dec 0 _); lra).
  destruct (stormDegradation_real k) as (c & _ & ->).
  destruct (penalties_real f s d) as (M & ->).
  rewrite clamp_real. f_equal. rewrite !Rmult_0_l.
  unfold Rmin, Rmax. destruct (Rle_dec 0 0), (Rle_dec 99 _); lra.
Qed.

(** The degenerate window in exact arithmetic: when the frequency, the
    maximum and the lowest usable frequency coincide as real numbers, the
    optimalness is [0 / 0] and the result is [NaN], which the clamp lets
    through.  (Part IX has a request on which the rounded values of the
    program coincide.) *)
Lemma degenerate_window_NaN : forall f d m h s n k de dx,
  0 <= n + 15 -> 0 <= 1 + d / 3500 ->
  mufR n h d m = f -> lufR s k (real h) de dx = f ->
  calculateBandReliability (real f) (real d) (real m) (real h) (real s) (real n)
    (real k) de dx = NaN.
Proof.
  intros f d m h s n k de dx Hn Hd Hm Hl.
  rewrite calculateBandReliability_real by assumption. rewrite Hm, Hl.
  rewrite baseReliability_real, (@Rltb_ge f f) by lra.
  destruct (Req_dec_T f f) as [_|E]; [|now elim E].
  now rewrite stormDegradation_NaN, penalties_NaN.
Qed.

Lemma sqrt_of_square : forall x y, 0 <= y -> x = y * y -> sqrt x = y.
Proof. intros x y Hy ->. now apply sqrt_square. Qed.

Lemma cos_noon : cos ((12 - 12) * PI / 12) = 1.
Proof. replace ((12 - 12) * PI / 12) with 0 by lra. apply cos_0. Qed.

Definition greenwich : Coord := {| lat := real 0; lon := real 0 |}.

Lemma mufR_example_closed : mufR 1 12 0 0 = 17.64.
Proof.
  unfold mufR. rewrite cos_noon, Rabs_R0.
  rewrite (@sqrt_of_square (1 + 15) 4) by lra.
  rewrite (@sqrt_of_square (1 + 0 / 3500) 1) by lra. lra.
Qed.

(** C7, as stated, fails: on the 6 m band (50 MHz) at noon with a sunspot
    number of 1 the maximum usable frequency is 17.64 MHz, and the
    reliability is 0 for K index 5 and for K index 2 alike. *)
Lemma storm_degradation_not_strict :
  calculateBandReliability (real 50) (real 0) (real 0) (real 12) (real 150)
    (real 1) (real 5) greenwich greenwich = real 0 /\
  calculateBandReliability (real 50) (real 0) (real 0) (real 12) (real 150)
    (real 1) (real 2) greenwich greenwich = real 0 /\
  (real 0 <? real 0)%js = false.
Proof.
  pose proof mufR_example_closed as Hm.
  repeat split.
  - apply closed_far_above_muf; lra.
  - apply closed_far_above_muf; lra.
  - rewrite jlt_real. apply Rltb_ge. lra.
Qed.

(** *** A worked path: 40 m at noon between two stations at 70 N, 75 W *)

Lemma jrem_real : forall a b, b <> 0 ->
  (real a mod real b)%js = real (a - b * IZR (Rtrunc (a / b))).
Proof. intros a b Hb. unfold jrem, real. now rewrite isZero_nonzero. Qed.

Definition north : Coord := {| lat := real 70; lon := real (-75) |}.

Lemma daytime_noon_75W : dayNightR (real 12) north north = 1.5.
Proof.
  unfold dayNightR, isDaytime, north. cbn [lon]. push_real.
  rewrite jrem_real by lra. rewrite !jge_real, !jle_real.
  assert (E : Rtrunc ((12 + (-75 + -75) / 2 / 15 + 24) / 24) = 1%Z).
  { unfold Rtrunc. rewrite Rltb_ge by lra. apply Zfloor_eq. split; lra. }
  rewrite E. rewrite Rltb_ge by lra. rewrite Rltb_ge by lra. reflexivity.
Qed.

Lemma mufR_example_window : mufR 34 12 0 70 = 20.0655.
Proof.
  unfold mufR. rewrite cos_noon.
  rewrite (@sqrt_of_square (34 + 15) 7) by lra.
  rewrite (@sqrt_of_square (1 + 0 / 3500) 1) by lra.
  rewrite (Rabs_pos_eq 70) by lra. lra.
Qed.

Lemma penalties_none : forall f s d (x : jsnum),
  f < 21 -> d <= 10000 ->
  highBandPenalty (real f) (real s) (longPathPenalty (real d) x) = x.
Proof.
  intros f s d x Hf Hd. unfold highBandPenalty, longPathPenalty.
  rewrite !jge_real, !jgt_real.
  rewrite (@Rltb_ge 15000 d), (@Rltb_ge 10000 d) by lra.
  rewrite (@Rltb_lt f 21), (@Rltb_lt f 28) by lra. reflexivity.
Qed.

Definition example_r2 : R := 50 + (1 - 5.28275 / 15.5655) * 45.
Definition example_r5 : R := (50 + (1 - 6.03275 / 14.0655) * 45) * 0.3.

Lemma example_r2_range : 79.5 <= example_r2 < 80.
Proof. unfold example_r2. split; lra. Qed.

Lemma example_reliability_k2 :
  calculateBandReliability (real 7) (real 0) (real 70) (real 12) (real 100)
    (real 34) (real 2) north north = real example_r2.
Proof.
  rewrite calculateBandReliability_real by lra.
  unfold lufR. rewrite daytime_noon_75W, mufR_example_window.
  rewrite baseReliability_real.
  rewrite (@Rltb_ge 20.0655 7), (@Rltb_ge 7 (2 + 100 / 100 * 1.5 + 2 * 0.5)) by lra.
  destruct (Req_dec_T 20.0655 _) as [E|_]; [exfalso; lra|].
  rewrite stormDegradation_2, penalties_none, clamp_real by lra. f_equal.
  rewrite Rabs_left by lra.
  replace (20.0655 - (2 + 100 / 100 * 1.5 + 2 * 0.5)) with 15.5655 by lra.
  replace (- (7 - (20.0655 + (2 + 100 / 100 * 1.5 + 2 * 0.5)) / 2)) with 5.28275
    by lra.
  fold example_r2. pose proof example_r2_range as Hr.
  unfold Rmin, Rmax.
  destruct (Rle_dec 0 example_r2); [|lra]. destruct (Rle_dec 99 example_r2); lra.
Qed.

Lemma example_reliability_k5 :
  calculateBandReliability (real 7) (real 0) (real 70) (real 12) (real 100)
    (real 34) (real 5) north north = real example_r5.
Proof.
  rewrite calculateBandReliability_real by lra.
  unfold lufR. rewrite daytime_noon_75W, mufR_example_window.
  rewrite baseReliability_real.
  rewrite (@Rltb_ge 20.0655 7), (@Rltb_ge 7 (2 + 100 / 100 * 1.5 + 5 * 0.5)) by lra.
  destruct (Req_dec_T 20.0655 _) as [E|_]; [exfalso; lra|].
  rewrite stormDegradation_5, penalties_none, clamp_real by lra. f_equal.
  rewrite Rabs_left by lra.
  replace (20.0655 - (2 + 100 / 100 * 1.5 + 5 * 0.5)) with 14.0655 by lra.
  replace (- (7 - (20.0655 + (2 + 100 / 100 * 1.5 + 5 * 0.5)) / 2)) with 6.03275
    by lra.
  fold example_r5.
  assert (Hr : 22 <= example_r5 <= 23) by (unfold example_r5; split; lra).
  unfold Rmin, Rmax.
  destruct (Rle_dec 0 example_r5); [|lra]. destruct (Rle_dec 99 example_r5); lra.
Qed.

Lemma storm_never_raises_reliability_witness :
  example_r5 <= example_r2 /\ (0 < example_r2 < 99 -> example_r5 < example_r2).
Proof.
  exact (proj2 storm_never_raises_reliability 7 0 70 12 100 34 north north
           example_r5 example_r2 example_reliability_k5 example_reliability_k2).
Defined.

End EstimatorFacts.

(* ================================================================== *)
(** * Part VIII. Properties of the route *)
(* ================================================================== *)

(** ** Sorting *)

Section SortGeneric.
Variable A : Type.
Variable comparator : A -> A -> option comparison.

Lemma insertSorted_perm : forall x l,
  Permutation (insertSorted comparator x l) (x :: l).
Proof.
  intros x l. induction l as [|y rest IH]; cbn [insertSorted].
  - reflexivity.
  - destruct (SortCompare comparator y x); try reflexivity;
      rewrite IH; apply perm_swap.
Qed.

Lemma insertionSort_perm : forall l, Permutation (insertionSort comparator l) l.
Proof.
  intro l. unfold insertionSort.
  enough (H : forall acc, Permutation
            (fold_left (fun sorted x => insertSorted comparator x sorted) l acc)
            (acc ++ l)) by apply (H []).
  induction l as [|x l IH]; intro acc; cbn [fold_left].
  - now rewrite app_nil_r.
  - rewrite IH, insertSorted_perm. apply Permutation_cons_app. reflexivity.
Qed.

Lemma insertRanked_perm : forall (x : nat * A) l,
  Permutation (insertRanked x l) (x :: l).
Proof.
  intros x l. induction l as [|y rest IH]; cbn [insertRanked].
  - reflexivity.
  - destruct (fst x <? fst y)%nat; [reflexivity|].
    rewrite IH. apply perm_swap.
Qed.

Lemma arrange_loop_perm : forall (l acc : list (nat * A)),
  Permutation (fold_left (fun arranged x => insertRanked x arranged) l acc) (acc ++ l).
Proof.
  induction l as [|x l IH]; intro acc; cbn [fold_left].
  - now rewrite app_nil_r.
  - rewrite IH, insertRanked_perm. apply Permutation_cons_app. reflexivity.
Qed.

Lemma snd_combine : forall (l : list A) (ranks : list nat),
  (List.length l <= List.length ranks)%nat -> map snd (combine ranks l) = l.
Proof.
  induction l as [|x l IH]; intros ranks H.
  - now destruct ranks.
  - destruct ranks as [|r ranks]; [cbn in H; lia|].
    cbn [combine map snd]. f_equal. apply IH. cbn in H. lia.
Qed.

Lemma ranks_cover : forall (ranks : list nat) (l : list A),
  (List.length l <= List.length (ranks ++ repeat 0%nat (List.length l)))%nat.
Proof. intros. rewrite length_app, repeat_length. lia. Qed.

(** Whatever ranks the engine gives, the elements are those of the array. *)
Lemma arrangeBy_perm : forall ranks (l : list A), Permutation (arrangeBy ranks l) l.
Proof.
  intros ranks l. unfold arrangeBy.
  rewrite (Permutation_map snd (arrange_loop_perm _ [])). cbn [app].
  rewrite snd_combine by apply ranks_cover. reflexivity.
Qed.

Lemma insertRanked_last : forall (x : A) (l : list (nat * A)),
  Forall (fun p => fst p = 0%nat) l -> insertRanked (0%nat, x) l = (l ++ [(0%nat, x)])%list.
Proof.
  intros x l H. induction H as [|y l Hy _ IH]; [reflexivity|].
  cbn [insertRanked fst app]. rewrite Hy. cbn. now rewrite IH.
Qed.

Lemma arrange_loop_zero : forall (l : list A) (acc : list (nat * A)),
  Forall (fun p => fst p = 0%nat) acc ->
  fold_left (fun arranged x => insertRanked x arranged)
    (combine (repeat 0%nat (List.length l)) l) acc =
  (acc ++ combine (repeat 0%nat (List.length l)) l)%list.
Proof.
  induction l as [|x l IH]; intros acc H;
    cbn [List.length repeat combine fold_left].
  - now rewrite app_nil_r.
  - rewrite (insertRanked_last x H), IH.
    + now rewrite <- app_assoc.
    + apply Forall_app. split; [assumption|]. now repeat constructor.
Qed.

(** An engine that gives no rank leaves the array as it is. *)
Lemma arrangeBy_keeps : forall l : list A, arrangeBy [] l = l.
Proof.
  intro l. unfold arrangeBy. cbn [app].
  rewrite arrange_loop_zero by constructor. cbn [app].
  apply snd_combine. now rewrite repeat_length.
Qed.

Lemma sortWith_perm : forall engineOrder l,
  Permutation (sortWith comparator engineOrder l) l.
Proof.
  intros engineOrder l. unfold sortWith.
  destruct (consistentComparator comparator l);
    [apply insertionSort_perm | apply arrangeBy_perm].
Qed.

(** A comparator that is the order of a key is consistent. *)
Section Keyed.
Variables (K : Type) (ord : K -> K -> comparison) (key : A -> K).
Hypothesis ord_refl : forall x, ord x x = Eq.
Hypothesis ord_sym : forall x y, ord x y = Eq -> ord y x = Eq.
Hypothesis ord_eq : forall x y z, ord x y = Eq -> ord y z = Eq -> ord x z = Eq.
Hypothesis ord_lt : forall x y z, ord x y = Lt -> ord y z = Lt -> ord x z = Lt.
Hypothesis ord_gt : forall x y z, ord x y = Gt -> ord y z = Gt -> ord x z = Gt.

Lemma hasSign_Some : forall c d, hasSign c (Some d) = true <-> d = c.
Proof. intros [] []; cbn; split; intro H; (reflexivity || discriminate). Qed.

Lemma consistent_of_key : forall l,
  (forall a b, In a l -> In b l -> comparator a b = Some (ord (key a) (key b))) ->
  consistentComparator comparator l = true.
Proof using ord_refl ord_sym ord_eq ord_lt ord_gt.
  intros l H. unfold consistentComparator.
  apply forallb_forall. intros a Ha.
  apply forallb_forall. intros b Hb.
  apply forallb_forall. intros c Hc.
  unfold consistentAt.
  rewrite (H a b Ha Hb), (H b c Hb Hc), (H a c Ha Hc), (H a a Ha Ha), (H b a Hb Ha).
  rewrite ord_refl.
  repeat (apply andb_true_intro; split);
    try reflexivity;
    apply Bool.implb_true_iff; rewrite ?andb_true_iff, !hasSign_Some;
    intuition eauto.
Qed.

End Keyed.

End SortGeneric.

(** ** Sorting by a numeric key, largest first *)

(** Equality of numbers, decided. *)
Definition jeqb (x y : jsnum) : bool :=
  match x, y with
  | NaN, NaN => true
  | Inf s, Inf t => Bool.eqb s t
  | Fin a, Fin b => if Req_dec_T a b then true else false
  | _, _ => false
  end.

(** The order of two real keys under the comparator [b - a]. *)
Definition descending (x y : R) : comparison :=
  if Rltb (y - x) 0 then Lt else if Rltb 0 (y - x) then Gt else Eq.

Section SortFacts.
Variable A : Type.
Variable key : A -> jsnum.

(** The comparator of line 360, [(a, b) => b.key - a.key]. *)
Definition byKeyDescending (a b : A) : jsnum := (key b - key a)%js.

(** [a] may stand before [b]: its key is not below [b]'s. *)
Definition notBelow (a b : A) : Prop := (key a <? key b)%js = false.

(** Every key is a number. *)
Definition keysAreNumbers (l : list A) : Prop :=
  Forall (fun a => exists r, key a = real r) l.

Local Abbreviation signOf := (fun a b : A => jsign (byKeyDescending a b)).

Lemma jeqb_eq : forall x y, jeqb x y = true <-> x = y.
Proof.
  intros [|s|a] [|t|b]; simpl; split; intro H; try discriminate; try reflexivity.
  - apply eqb_prop in H. now subst.
  - injection H as ->. apply eqb_reflx.
  - destruct (Req_dec_T a b); [now subst|discriminate].
  - injection H as ->. destruct (Req_dec_T b b) as [_|E]; [reflexivity|now elim E].
Qed.

Lemma jlt_irrefl : forall x : jsnum, (x <? x)%js = false.
Proof.
  intros [|s|a]; simpl; try reflexivity.
  - now destruct s.
  - apply Rltb_ge. apply Rle_refl.
Qed.

Lemma jlt_trans : forall x y z : jsnum,
  (x <? y)%js = true -> (y <? z)%js = true -> (x <? z)%js = true.
Proof.
  intros [|s|a] [|t|b] [|u|c]; simpl; intros H1 H2; try discriminate; auto;
    try solve [repeat match goal with b : bool |- _ => destruct b end;
               simpl in *; auto; discriminate].
  apply Rltb_true in H1, H2. apply Rltb_lt. now apply Rlt_trans with b.
Qed.

(** The sign is [Gt] exactly when the number is positive. *)
Lemma jsign_Gt : forall (x : jsnum) (X : Type) (u v : X),
  match (match jsign x with Some c => c | None => Eq end) with
  | Gt => u
  | _ => v
  end = if (x >? Fin 0%R)%js then u else v.
Proof.
  intros [|s|a] X u v; cbn.
  - reflexivity.
  - now destruct s.
  - destruct (Rltb a 0) eqn:E1; destruct (Rltb 0 a) eqn:E2; try reflexivity.
    apply Rltb_true in E1, E2. lra.
Qed.

Lemma insertSorted_cons : forall x y rest,
  insertSorted signOf x (y :: rest) =
  if (key y <? key x)%js then x :: y :: rest
  else y :: insertSorted signOf x rest.
Proof.
  intros. cbn [insertSorted]. unfold SortCompare. rewrite jsign_Gt.
  unfold byKeyDescending at 1.
  change (Fin 0%R) with (real 0). now rewrite comparator_positive.
Qed.

Lemma insertSorted_sorted : forall x l,
  StronglySorted notBelow l ->
  StronglySorted notBelow (insertSorted signOf x l).
Proof.
  intros x l. induction l as [|y rest IH]; intro Hs.
  - constructor; constructor.
  - rewrite insertSorted_cons.
    apply StronglySorted_inv in Hs. destruct Hs as (Hrest & Hy).
    destruct (key y <? key x)%js eqn:Hyx.
    + constructor; [constructor; assumption|].
      constructor.
      * unfold notBelow. destruct (key x <? key y)%js eqn:Hxy; [|reflexivity].
        pose proof (jlt_trans _ _ _ Hyx Hxy) as Hc.
        now rewrite jlt_irrefl in Hc.
      * rewrite Forall_forall in *. intros z Hz. specialize (Hy z Hz).
        unfold notBelow in *. destruct (key x <? key z)%js eqn:Hxz; [|reflexivity].
        pose proof (jlt_trans _ _ _ Hyx Hxz) as Hc. congruence.
    + constructor; [now apply IH|].
      eapply Permutation_Forall.
      * symmetry. apply insertSorted_perm.
      * constructor; assumption.
Qed.

(** An element is never placed before one with the same key. *)
Lemma insertSorted_stable : forall v x l,
  StronglySorted notBelow l ->
  filter (fun e => jeqb (key e) v) (insertSorted signOf x l) =
  (filter (fun e => jeqb (key e) v) l ++ filter (fun e => jeqb (key e) v) [x])%list.
Proof.
  intros v x l. induction l as [|y rest IH]; intro Hs.
  - reflexivity.
  - rewrite insertSorted_cons.
    apply StronglySorted_inv in Hs. destruct Hs as (Hrest & Hy).
    destruct (key y <? key x)%js eqn:Hyx.
    + cbn [filter]. destruct (jeqb (key x) v) eqn:Hx; [|now rewrite app_nil_r].
      apply jeqb_eq in Hx. subst v.
      assert (Hnone : forall l', Forall (notBelow y) l' ->
                filter (fun e => jeqb (key e) (key x)) l' = []).
      { induction l' as [|z l' IHl']; intro Hall; [reflexivity|].
        apply Forall_cons_iff in Hall. destruct Hall as (Hz & Hall). cbn [filter].
        destruct (jeqb (key z) (key x)) eqn:Hzx; [|now apply IHl'].
        apply jeqb_eq in Hzx. unfold notBelow in Hz. congruence. }
      rewrite (Hnone rest Hy).
      destruct (jeqb (key y) (key x)) eqn:Hyk; [|reflexivity].
      apply jeqb_eq in Hyk. rewrite Hyk, jlt_irrefl in Hyx. discriminate.
    + cbn [filter]. rewrite (IH Hrest). cbn [filter].
      destruct (jeqb (key y) v); reflexivity.
Qed.

Lemma sort_loop : forall l acc,
  StronglySorted notBelow acc ->
  let sorted := fold_left (fun s x => insertSorted signOf x s) l acc in
  StronglySorted notBelow sorted /\
  Permutation sorted (acc ++ l) /\
  forall v, filter (fun e => jeqb (key e) v) sorted =
            filter (fun e => jeqb (key e) v) (acc ++ l).
Proof.
  induction l as [|x l IH]; intros acc Hacc; cbn [fold_left].
  - rewrite app_nil_r. repeat split; auto.
  - destruct (IH (insertSorted signOf x acc) (insertSorted_sorted x Hacc))
      as (Hs & Hp & Hf).
    repeat split.
    + exact Hs.
    + rewrite Hp, insertSorted_perm. cbn [app].
      apply Permutation_middle.
    + intro v. rewrite Hf, !filter_app, (insertSorted_stable v x Hacc).
      cbn [filter]. rewrite <- app_assoc. destruct (jeqb (key x) v); reflexivity.
Qed.

(** The order of a consistent comparator: no element stands before one
    with a larger key, and the elements of equal key keep their order. *)
Lemma insertionSort_spec : forall l,
  StronglySorted notBelow (insertionSort signOf l) /\
  Permutation (insertionSort signOf l) l /\
  forall v, filter (fun e => jeqb (key e) v) (insertionSort signOf l) =
            filter (fun e => jeqb (key e) v) l.
Proof.
  intro l. unfold insertionSort.
  exact (sort_loop l (SSorted_nil notBelow)).
Qed.

Lemma descending_order :
  (forall x, descending x x = Eq) /\
  (forall x y, descending x y = Eq -> descending y x = Eq) /\
  (forall x y z, descending x y = Eq -> descending y z = Eq -> descending x z = Eq) /\
  (forall x y z, descending x y = Lt -> descending y z = Lt -> descending x z = Lt) /\
  (forall x y z, descending x y = Gt -> descending y z = Gt -> descending x z = Gt).
Proof.
  unfold descending. repeat split; intros;
    repeat match goal with
           | H : context [Rltb ?a ?b] |- _ =>
               let E := fresh "E" in
               destruct (Rltb a b) eqn:E;
               [apply Rltb_true in E | apply Rltb_false in E]
           end; try discriminate;
    repeat match goal with
           | |- context [Rltb ?a ?b] =>
               let E := fresh "E" in
               destruct (Rltb a b) eqn:E;
               [apply Rltb_true in E | apply Rltb_false in E]
           end; try reflexivity; lra.
Qed.

(** When every key is a number the comparator of line 360 is consistent. *)
Lemma numbers_consistent : forall l,
  keysAreNumbers l -> consistentComparator signOf l = true.
Proof.
  intros l H.
  destruct descending_order as (O1 & O2 & O3 & O4 & O5).
  apply (@consistent_of_key A signOf R descending
           (fun a => match key a with Fin r => r | _ => 0%R end) O1 O2 O3 O4 O5).
  intros a b Ha Hb. unfold keysAreNumbers in H. rewrite Forall_forall in H.
  destruct (H a Ha) as (ra & Ea). destruct (H b Hb) as (rb & Eb).
  unfold byKeyDescending. rewrite Ea, Eb. reflexivity.
Qed.

(** [Array_sort] with the comparator of the route: the result is a
    permutation in every case; when every key is a number no element
    stands before one with a larger key, and the elements of equal key keep
    their order. *)
Lemma Array_sort_perm : forall engineOrder l,
  Permutation (Array_sort byKeyDescending engineOrder l) l.
Proof. intros. apply sortWith_perm. Qed.

Lemma Array_sort_spec : forall engineOrder l,
  keysAreNumbers l ->
  StronglySorted notBelow (Array_sort byKeyDescending engineOrder l) /\
  forall v, filter (fun e => jeqb (key e) v) (Array_sort byKeyDescending engineOrder l) =
            filter (fun e => jeqb (key e) v) l.
Proof.
  intros engineOrder l H. unfold Array_sort, sortWith.
  rewrite (numbers_consistent H).
  destruct (insertionSort_spec l) as (Hs & _ & Hf). now split.
Qed.

End SortFacts.

(** ** The response *)

Section RouteFacts.
Local Open Scope string_scope.

Variable NumberToString : Q -> string.
Variable StringToNumber : string -> qnum.
Variable sortOrder : list BandSummary -> list nat.

(** The entry of one band and hour (lines 342-349). *)
Definition entryAt (freq dist midLat : jsnum) (s : SolarData) (de dx : Coord)
    (h : nat) : Prediction :=
  let r := calculateBandReliability freq dist midLat (real (INR h))
             (toReal (sfi s)) (toReal (ssn s)) (toReal (kIndex s)) de dx in
  {| hour := h; reliability := Math_round r; snr := calculateSNR r |}.

(** The summary of one band at the current hour, before sorting. *)
Definition summaryAt (dist midLat : jsnum) (s : SolarData) (de dx : Coord)
    (h : nat) (bf : string * jsnum) : BandSummary :=
  let p := entryAt (snd bf) dist midLat s de dx h in
  {| band := fst bf;
     band_freq := snd bf;
     band_reliability := reliability p;
     band_snr := snr p;
     band_status := getStatus (reliability p) |}.

Lemma hourly_entries : forall freq dist midLat s de dx,
  hourly freq dist midLat s de dx = map (entryAt freq dist midLat s de dx) (seq 0 24).
Proof. reflexivity. Qed.

Lemma mapM_map : forall (X Y : Type) (f : X -> option Y) (g : X -> Y) l,
  (forall x, In x l -> f x = Some (g x)) -> mapM f l = Some (map g l).
Proof.
  induction l as [|x l IH]; intro H; cbn [mapM map].
  - reflexivity.
  - rewrite (H x (or_introl eq_refl)). cbn [bindOpt].
    rewrite IH by (intros y Hy; apply H; now right). reflexivity.
Qed.

Lemma assoc_predict : forall dist midLat s de dx b f,
  In (b, f) (combine bands bandFreqs) ->
  assoc b (predict dist midLat s de dx) = Some (hourly f dist midLat s de dx).
Proof.
  intros dist midLat s de dx b f H. unfold predict.
  unfold bands, bandFreqs in *. cbn [combine In] in H.
  repeat (destruct H as [H|H]; [injection H as <- <-; reflexivity|]).
  contradiction.
Qed.

Lemma summarize_predict : forall dist midLat s de dx h,
  (h < 24)%nat ->
  summarize sortOrder (predict dist midLat s de dx) h =
  Some (Array_sort (byKeyDescending band_reliability) sortOrder
          (map (summaryAt dist midLat s de dx h) (combine bands bandFreqs))).
Proof.
  intros dist midLat s de dx h Hh. unfold summarize.
  rewrite (@mapM_map _ _ _ (summaryAt dist midLat s de dx h)); [reflexivity|].
  intros [b f] Hin. rewrite (@assoc_predict dist midLat s de dx b f Hin). cbn [bindOpt].
  rewrite hourly_entries, nth_error_map, nth_error_seq.
  apply Nat.ltb_lt in Hh. rewrite Hh. reflexivity.
Qed.

(** With an hour of the day the handler answers 200. *)
Lemma propagation_ok : forall deLat deLon dxLat dxLon fluxRes kRes utcHours,
  (utcHours < 24)%nat ->
  exists resp,
    propagation NumberToString StringToNumber sortOrder deLat deLon dxLat dxLon
      fluxRes kRes utcHours = json200 resp /\
    exists dist midLat de dx,
      let s := solarSnapshot NumberToString StringToNumber fluxRes kRes in
      solarData resp = s /\
      hourlyPredictions resp = predict dist midLat s de dx /\
      currentBands resp =
        Array_sort (byKeyDescending band_reliability) sortOrder
          (map (summaryAt dist midLat s de dx utcHours) (combine bands bandFreqs)).
Proof.
  intros deLat deLon dxLat dxLon fluxRes kRes utcHours Hh.
  unfold propagation. rewrite summarize_predict by assumption.
  eexists. split; [reflexivity|].
  do 4 eexists. cbn [solarData hourlyPredictions currentBands]. repeat split.
Qed.

(** X1.  Every band has 24 entries, for the hours 0 to 23 in order, and
    each reliability is [NaN] or an integer from 0 to 99. *)
Lemma hourly_shape : forall freq dist midLat s de dx,
  let entries := hourly freq dist midLat s de dx in
  List.length entries = 24%nat /\
  map hour entries = seq 0 24 /\
  Forall (fun p => reliability p = NaN \/
                   exists z, reliability p = real (IZR z) /\ (0 <= z <= 99)%Z)
         entries.
Proof.
  intros freq dist midLat s de dx entries. unfold entries.
  rewrite hourly_entries. split; [|split].
  - now rewrite length_map, length_seq.
  - rewrite map_map. cbn [entryAt hour]. apply map_id.
  - apply Forall_forall. intros p Hp. apply in_map_iff in Hp.
    destruct Hp as (h & <- & _). cbn [entryAt reliability].
    unfold calculateBandReliability.
    destruct (clamp_range
                (highBandPenalty freq (toReal (sfi s))
                   (longPathPenalty dist
                      (stormDegradation (toReal (kIndex s))
                         (baseReliability freq
                            (MUF (toReal (ssn s)) (real (INR h)) dist midLat)
                            (LUF (toReal (sfi s)) (toReal (kIndex s)) (real (INR h))
                               de dx))))))
      as [E | (r & E & Hr)].
    + left. change (real 99) with (Fin 99%R) in E. change (real 0) with (Fin 0%R) in E.
      unfold real in *. rewrite E. reflexivity.
    + right. destruct (round_range Hr) as (z & Hz & Hzr). exists z. split; [|exact Hzr].
      unfold real in *. rewrite E. exact Hz.
Qed.

(** *** The order of [currentBands] *)

(** The bands are enumerated by ascending frequency. *)
Lemma bandFreqs_ascending :
  StronglySorted (fun x y => (x <? y)%js = true) bandFreqs.
Proof.
  unfold bandFreqs. repeat constructor; rewrite jlt_real; apply Rltb_lt; lra.
Qed.

(** [sorted] is [unsorted] put in order: no entry stands before one of
    larger reliability, and the entries of each reliability keep the order
    they have in [unsorted]. *)
Definition orderedByReliability (sorted unsorted : list BandSummary) : Prop :=
  StronglySorted
    (fun a b => (band_reliability a <? band_reliability b)%js = false) sorted /\
  forall v, filter (fun e => jeqb (band_reliability e) v) sorted =
            filter (fun e => jeqb (band_reliability e) v) unsorted.

(** X28.  In every response [currentBands] holds the ten band summaries,
    one per band.  When every reliability among them is a number, they are
    in descending order of reliability, and entries of equal reliability
    stand in the fixed band order, which is that of ascending band
    frequency. *)
Theorem currentBands_sorted_when_numbers :
  forall deLat deLon dxLat dxLon fluxRes kRes utcHours,
  (utcHours < 24)%nat ->
  exists resp unsorted,
    propagation NumberToString StringToNumber sortOrder deLat deLon dxLat dxLon
      fluxRes kRes utcHours = json200 resp /\
    map band unsorted = bands /\
    map band_freq unsorted = bandFreqs /\
    StronglySorted (fun x y => (x <? y)%js = true) (map band_freq unsorted) /\
    Permutation (currentBands resp) unsorted /\
    (Forall (fun e => exists r, band_reliability e = real r) (currentBands resp) ->
     orderedByReliability (currentBands resp) unsorted).
Proof.
  intros deLat deLon dxLat dxLon fluxRes kRes utcHours Hh.
  destruct (propagation_ok deLat deLon dxLat dxLon fluxRes kRes Hh)
    as (resp & Hresp & dist & midLat & de & dx & _ & _ & Hcb).
  set (unsorted := map (summaryAt dist midLat
                          (solarSnapshot NumberToString StringToNumber fluxRes kRes)
                          de dx utcHours) (combine bands bandFreqs)) in *.
  exists resp, unsorted. split; [exact Hresp|]. rewrite Hcb.
  pose proof (Array_sort_perm band_reliability sortOrder unsorted) as Hp.
  split; [reflexivity|]. split; [reflexivity|].
  split; [exact bandFreqs_ascending|]. split; [exact Hp|].
  intro Hnum.
  apply (@Array_sort_spec _ band_reliability sortOrder unsorted).
  exact (Permutation_Forall Hp Hnum).
Qed.

(** *** C9: the label and the rounded reliability *)

Local Open Scope R_scope.

Lemma round_to_threshold : forall r (t : Z),
  IZR t - / 2 <= r < IZR t -> Math_round (real r) = real (IZR t).
Proof.
  intros r t Hr. rewrite Math_round_real. do 2 f_equal.
  apply Zfloor_eq. lra.
Qed.

Lemma calculateSNR_real : forall r,
  calculateSNR (real r) =
  if Rltb r 80 then
    if Rltb r 60 then
      if Rltb r 40 then
        if Rltb r 20 then "-20dB" else "-10dB"
      else "0dB"
    else "+10dB"
  else "+20dB".
Proof.
  intro r. unfold calculateSNR. rewrite !jge_real.
  destruct (Rltb r 80), (Rltb r 60), (Rltb r 40), (Rltb r 20); reflexivity.
Qed.

(** Just below a threshold the label computed from the unrounded value is
    the lower one, while the rounded value reaches the threshold. *)
Lemma snr_label_below_threshold : forall r (t : Z),
  t = 80%Z \/ t = 60%Z \/ t = 40%Z \/ t = 20%Z ->
  IZR t - / 2 <= r < IZR t ->
  calculateSNR (real r) <> calculateSNR (Math_round (real r)).
Proof.
  intros r t Ht Hr. rewrite (@round_to_threshold r t Hr), !calculateSNR_real.
  destruct Ht as [-> | [-> | [-> | ->]]];
    repeat match goal with
           | |- context [Rltb ?a ?b] =>
               first [ rewrite (@Rltb_lt a b) by lra
                     | rewrite (@Rltb_ge a b) by lra ]
           end; discriminate.
Qed.

Lemma toReal_integer : forall z, toReal (Fin (inject_Z z)) = real (IZR z).
Proof. intro z. unfold toReal, real, Q2R. cbn [Qnum Qden inject_Z]. f_equal. lra. Qed.

Lemma distance_same_point : forall a b,
  calculateDistance (real a) (real b) (real a) (real b) = real 0.
Proof.
  intros a b. unfold calculateDistance, Math_PI. fold (real PI).
  repeat first [ rewrite jsub_real | rewrite jmul_real | rewrite jadd_real
               | rewrite Math_sin_real | rewrite Math_cos_real
               | rewrite jdiv_real by lra ].
  replace ((a - a) * PI / 180 / 2)%R with 0%R by (unfold Rdiv; ring).
  replace ((b - b) * PI / 180 / 2)%R with 0%R by (unfold Rdiv; ring).
  rewrite sin_0.
  match goal with
  | |- context [Math_sqrt (real ?x)] => replace x with 0%R by ring
  end.
  replace (1 - 0)%R with 1%R by lra.
  rewrite !Math_sqrt_real by lra. rewrite sqrt_0, sqrt_1.
  unfold Math_atan2, real. rewrite (@Rltb_lt 0 1) by lra.
  replace (0 / 1)%R with 0%R by lra. rewrite atan_0.
  change (Fin 0%R) with (real 0). rewrite jmul_real. f_equal. lra.
Qed.

Definition flux100 : jsval := JArr [JObj [("flux", JNum (Fin 100%Q))]].

Lemma example_snapshot :
  solarSnapshot NumberToString StringToNumber (Fulfilled true (Some flux100))
    Rejected =
  {| sfi := Fin (inject_Z 100); ssn := Fin (inject_Z 34); kIndex := Fin (inject_Z 2) |}.
Proof. reflexivity. Qed.

Lemma example_query :
  queryOr NumberToString (JStr "70") 40 = real 70 /\
  queryOr NumberToString (JStr "-75") (-75) = real (-75) /\
  queryOr NumberToString (JStr "-75") 139 = real (-75) /\
  queryOr NumberToString (JStr "70") 35 = real 70.
Proof.
  unfold queryOr. cbn [ToString].
  change (parseFloat "70") with (Fin (inject_Z 70)).
  change (parseFloat "-75") with (Fin (inject_Z (-75))).
  change (qtruthy (Fin (inject_Z 70))) with true.
  change (qtruthy (Fin (inject_Z (-75)))) with true.
  cbv iota. rewrite !toReal_integer. repeat split.
Qed.

(** C9.  In every hourly entry the label is computed from the unrounded
    reliability and the reported reliability is the rounded one; just below
    each of the thresholds 80, 60, 40 and 20 the two disagree; and there is a
    request (40 m at noon, both stations at 70 N 75 W, solar flux 100)
    whose entry reports reliability 80 with the label of the 60 to 80
    bracket. *)
Theorem snr_label_uses_unrounded_reliability :
  (forall freq dist midLat s de dx p,
      In p (hourly freq dist midLat s de dx) ->
      exists h r,
        (h < 24)%nat /\
        r = calculateBandReliability freq dist midLat (real (INR h))
              (toReal (sfi s)) (toReal (ssn s)) (toReal (kIndex s)) de dx /\
        hour p = h /\ reliability p = Math_round r /\ snr p = calculateSNR r)
  /\
  (forall r (t : Z),
      t = 80%Z \/ t = 60%Z \/ t = 40%Z \/ t = 20%Z ->
      (IZR t - / 2 <= r < IZR t)%R ->
      calculateSNR (real r) <> calculateSNR (Math_round (real r)))
  /\
  (exists deLat deLon dxLat dxLon fluxRes kRes utcHours resp entries p,
      propagation NumberToString StringToNumber sortOrder deLat deLon dxLat dxLon
        fluxRes kRes utcHours = json200 resp /\
      In ("40m", entries) (hourlyPredictions resp) /\
      In p entries /\
      hour p = 12%nat /\ reliability p = real 80 /\ snr p = "+10dB" /\
      snr p <> calculateSNR (reliability p)).
Proof.
  split; [|split].
  - intros freq dist midLat s de dx p Hp. rewrite hourly_entries in Hp.
    apply in_map_iff in Hp. destruct Hp as (h & <- & Hh). apply in_seq in Hh.
    exists h. eexists. split; [lia|]. split; [reflexivity|]. repeat split.
  - exact snr_label_below_threshold.
  - exists (JStr "70"), (JStr "-75"), (JStr "70"), (JStr "-75"),
      (Fulfilled true (Some flux100)), Rejected, 0%nat.
    unfold propagation. rewrite summarize_predict by lia.
    destruct example_query as (Q1 & Q2 & Q3 & Q4).
    rewrite example_snapshot, Q1, Q2, Q3, Q4. cbn [lat lon].
    rewrite distance_same_point. rewrite jadd_real, jdiv_real by lra.
    replace ((70 + 70) / 2)%R with 70%R by lra. fold north.
    set (s0 := {| sfi := Fin (inject_Z 100); ssn := Fin (inject_Z 34);
                  kIndex := Fin (inject_Z 2) |}).
    eexists. exists (hourly (real 7) (real 0) (real 70) s0 north north).
    exists (entryAt (real 7) (real 0) (real 70) s0 north north 12).
    split; [reflexivity|]. cbn [hourlyPredictions].
    split.
    { unfold predict. apply in_map_iff. exists ("40m", real 7). split; [reflexivity|].
      unfold bands, bandFreqs. cbn [combine In]. right. right. left. reflexivity. }
    split.
    { rewrite hourly_entries. apply in_map. apply in_seq. lia. }
    unfold s0. cbn [entryAt hour reliability snr sfi ssn kIndex].
    rewrite !toReal_integer.
    replace (INR 12) with 12%R by (simpl; lra).
    rewrite example_reliability_k2.
    pose proof example_r2_range as Hr.
    assert (Hround : Math_round (real example_r2) = real (IZR 80)).
    { apply round_to_threshold. lra. }
    assert (Hsnr : calculateSNR (real example_r2) = "+10dB").
    { rewrite calculateSNR_real.
      rewrite (@Rltb_lt example_r2 80), (@Rltb_ge example_r2 60) by lra.
      reflexivity. }
    rewrite Hround, Hsnr. repeat split.
    rewrite calculateSNR_real, (@Rltb_ge 80 80) by lra. discriminate.
Qed.

End RouteFacts.

(* ================================================================== *)
(** * Part IX. The degenerate window in binary64 *)
(* ================================================================== *)

(** A request that reaches the division [0 / 0] of line 423 with the
    numbers JavaScript computes: both stations at latitude
    172.38734320441884 and longitude -75 (the handler does not restrict the
    range), solar flux 900 and K index 5.  The distance is 0, the sunspot
    number is [max(0, round((900 - 67) / 0.97)) = 859], and at 12 h UTC the
    17 m band (18 MHz) meets a maximum and a lowest usable frequency that
    are both exactly 18. *)

Module Binary64Facts.
Import PrimFloat SpecFloat FloatOps.
Local Open Scope string_scope.

Definition degenerate_latitude : float := 0x1.58c651d9369d1p+7%float.

Definition degenerate_station : Binary64.Coord :=
  {| Binary64.lat := degenerate_latitude; Binary64.lon := (-75)%float |}.

(** The double nearest to the decimal text of the latitude. *)
#[warnings="-inexact-float"]
Lemma degenerate_latitude_decimal :
  PrimFloat.eqb 172.38734320441884%float degenerate_latitude = true.
Proof. reflexivity. Qed.

Lemma degenerate_request_snapshot : forall nts stn,
  solarSnapshot nts stn
    (Fulfilled true (Some (JArr [JObj [("flux"%string, JNum (Fin 900%Q))]])))
    (Fulfilled true
       (Some (JArr [JArr [JStr "time_tag"; JStr "Kp"];
                    JArr [JStr "2026-01-30 06:00:00.000"; JStr "5.00"]]))) =
  {| sfi := Fin 900%Q; ssn := Fin 859%Q; kIndex := Fin 5%Q |}.
Proof. reflexivity. Qed.

(** C6.  With [Math.cos(0) = 1], as ECMAScript requires, the reliability
    computed for that request on the 17 m band at 12 h is [NaN]: the entry
    pushed has reliability [Math.round(NaN) = NaN] (serialized as [null]),
    which is not an integer of the interval from 0 to 99. *)
Theorem degenerate_window_binary64 : forall Math_cos : float -> float,
  Math_cos 0%float = 1%float ->
  let r := Binary64.calculateBandReliability Math_cos
             18 0 degenerate_latitude 12 900 859 5
             degenerate_station degenerate_station in
  PrimFloat.is_nan r = true /\
  Binary64.prediction Math_cos 18 0 degenerate_latitude 12 900 859 5
    degenerate_station degenerate_station = (PrimFloat.nan, "-20dB"%string).
Proof.
  intros Math_cos Hcos.
  unfold Binary64.prediction.
  set (r := Binary64.calculateBandReliability Math_cos
              18 0 degenerate_latitude 12 900 859 5
              degenerate_station degenerate_station).
  assert (Hr : r = PrimFloat.nan).
  { unfold r. vm_compute. rewrite Hcos. vm_compute. reflexivity. }
  rewrite Hr. split; reflexivity.
Qed.

Lemma degenerate_window_binary64_witness :
  let r := Binary64.calculateBandReliability (fun _ => 1%float)
             18 0 degenerate_latitude 12 900 859 5
             degenerate_station degenerate_station in
  PrimFloat.is_nan r = true /\
  Binary64.prediction (fun _ => 1%float) 18 0 degenerate_latitude 12 900 859 5
    degenerate_station degenerate_station = (PrimFloat.nan, "-20dB"%string).
Proof.
  exact (degenerate_window_binary64 (fun _ => 1%float) eq_refl).
Defined.

(** *** The Number value of a rational and the floats of the processor *)

(** The number that a float denotes. *)
Definition valueOf (f : float) : qnum :=
  match Prim2SF f with
  | S754_zero _ => Fin 0%Q
  | S754_infinity s => Inf s
  | S754_nan => NaN
  | S754_finite s m e =>
      let n := if s then Zneg m else Zpos m in
      Fin (Qred (if (0 <=? e)%Z then inject_Z (n * 2 ^ e)
                 else Qmake n (Z.to_pos (2 ^ (- e)))))
  end.

(** [double] on the quotient of line 162 for 7022.5 kHz, on decimal texts
    that are not binary fractions, at the two ends of the range and on a
    tie, against the division and the literals of binary64. *)
#[warnings="-inexact-float"]
Lemma double_agrees_with_binary64 :
  rounded (qdiv (parseFloat "7022.5") (Fin 1000%Q)) = valueOf (7022.5 / 1000)%float /\
  parseFloat "0.1" = valueOf 0.1%float /\
  parseFloat "172.38734320441884" = valueOf degenerate_latitude /\
  parseFloat "5e-324" = valueOf 5e-324%float /\
  parseFloat "1.7976931348623157e308" = valueOf 1.7976931348623157e308%float /\
  parseFloat "9007199254740993" = valueOf 9007199254740992%float /\
  parseFloat "9007199254740995" = valueOf 9007199254740996%float /\
  parseFloat "1e-400" = Fin 0%Q /\
  parseFloat "1e400" = Inf false.
Proof. repeat split; vm_compute; reflexivity. Qed.

(** *** The order of [currentBands] for that request *)

(** At 12 h the estimator asks for the cosine of 0 only. *)
Lemma reliability_at_noon : forall Math_cos : float -> float,
  Math_cos 0%float = 1%float ->
  forall freq distance midLat sfi ssn kIndex de dx,
  Binary64.calculateBandReliability Math_cos freq distance midLat 12
    sfi ssn kIndex de dx =
  Binary64.calculateBandReliability (fun _ => 1%float) freq distance midLat 12
    sfi ssn kIndex de dx.
Proof.
  intros Math_cos Hcos freq distance midLat sfi ssn kIndex de dx.
  unfold Binary64.calculateBandReliability.
  change ((12 - 12) * Binary64.Math_PI / 12)%float with 0%float.
  rewrite Hcos. reflexivity.
Qed.

Lemma degenerate_summaries : forall Math_cos : float -> float,
  Math_cos 0%float = 1%float ->
  Binary64.summaries Math_cos 0 degenerate_latitude 12 900 859 5
    degenerate_station degenerate_station =
  Binary64.summaries (fun _ => 1%float) 0 degenerate_latitude 12 900 859 5
    degenerate_station degenerate_station.
Proof.
  intros Math_cos Hcos. unfold Binary64.summaries. apply map_ext.
  intros [b f]. unfold Binary64.prediction.
  now rewrite (@reliability_at_noon Math_cos Hcos).
Qed.

(** C8.  At 12 h UTC the band summaries of that request have, in band
    order, the reliabilities 0, 0, 0, 0, 0, [NaN], 6, 0, 0, 0.  The
    comparator of line 360 returns [NaN] whenever the 17 m entry is one of
    its arguments, so it is not a consistent comparator for this array, and
    the order of [currentBands] is the order of the engine, whichever that
    is.  With an engine that leaves such an array as it is, the 15 m band,
    of reliability 6, stands behind five bands of reliability 0. *)
Theorem currentBands_unsorted_binary64 : forall Math_cos : float -> float,
  Math_cos 0%float = 1%float ->
  let unsorted :=
    Binary64.summaries Math_cos 0 degenerate_latitude 12 900 859 5
      degenerate_station degenerate_station in
  map Binary64.band unsorted = bands /\
  map Binary64.band_reliability unsorted =
    [0; 0; 0; 0; 0; PrimFloat.nan; 6; 0; 0; 0]%float /\
  (forall a b, In a unsorted -> In b unsorted ->
     Binary64.band a = "17m"%string -> Binary64.byReliability a b = None) /\
  consistentComparator Binary64.byReliability unsorted = false /\
  (forall sortOrder,
     Binary64.currentBands Math_cos sortOrder 0 degenerate_latitude 12 900 859 5
       degenerate_station degenerate_station =
     arrangeBy (sortOrder unsorted) unsorted) /\
  map Binary64.band_reliability
    (Binary64.currentBands Math_cos (@keepsOrder Binary64.BandSummary)
       0 degenerate_latitude 12 900 859 5 degenerate_station degenerate_station) =
    [0; 0; 0; 0; 0; PrimFloat.nan; 6; 0; 0; 0]%float.
Proof.
  intros Math_cos Hcos unsorted.
  assert (E : unsorted =
              Binary64.summaries (fun _ => 1%float) 0 degenerate_latitude 12 900 859 5
                degenerate_station degenerate_station)
    by (apply degenerate_summaries; exact Hcos).
  assert (Hinc : consistentComparator Binary64.byReliability unsorted = false)
    by (rewrite E; vm_compute; reflexivity).
  assert (Hsort : forall sortOrder,
            Binary64.currentBands Math_cos sortOrder 0 degenerate_latitude 12 900 859 5
              degenerate_station degenerate_station =
            arrangeBy (sortOrder unsorted) unsorted).
  { intro sortOrder. unfold Binary64.currentBands, sortWith. fold unsorted.
    now rewrite Hinc. }
  split; [rewrite E; reflexivity|].
  split; [rewrite E; vm_compute; reflexivity|].
  split.
  { intros a b Ha Hb H17. rewrite E in Ha, Hb.
    cbv [In Binary64.summaries map combine bands Binary64.bandFreqs] in Ha, Hb.
    repeat (destruct Ha as [<- | Ha]; [try discriminate H17|]); try contradiction.
    repeat (destruct Hb as [<- | Hb]; [vm_compute; reflexivity|]).
    contradiction. }
  split; [exact Hinc|].
  split; [exact Hsort|].
  rewrite Hsort. unfold keepsOrder. rewrite arrangeBy_keeps.
  rewrite E. vm_compute. reflexivity.
Qed.

Lemma currentBands_unsorted_binary64_witness :
  let unsorted :=
    Binary64.summaries (fun _ => 1%float) 0 degenerate_latitude 12 900 859 5
      degenerate_station degenerate_station in
  map Binary64.band unsorted = bands /\
  map Binary64.band_reliability unsorted =
    [0; 0; 0; 0; 0; PrimFloat.nan; 6; 0; 0; 0]%float /\
  (forall a b, In a unsorted -> In b unsorted ->
     Binary64.band a = "17m"%string -> Binary64.byReliability a b = None) /\
  consistentComparator Binary64.byReliability unsorted = false /\
  (forall sortOrder,
     Binary64.currentBands (fun _ => 1%float) sortOrder 0 degenerate_latitude 12
       900 859 5 degenerate_station degenerate_station =
     arrangeBy (sortOrder unsorted) unsorted) /\
  map Binary64.band_reliability
    (Binary64.currentBands (fun _ => 1%float) (@keepsOrder Binary64.BandSummary)
       0 degenerate_latitude 12 900 859 5 degenerate_station degenerate_station) =
    [0; 0; 0; 0; 0; PrimFloat.nan; 6; 0; 0; 0]%float.
Proof.
  exact (currentBands_unsorted_binary64 (fun _ => 1%float) eq_refl).
Defined.

End Binary64Facts.

(* ================================================================== *)
(** * Part X. The theorems at concrete requests *)
(* ================================================================== *)

Section Instances.
Local Open Scope string_scope.

(** Stand-ins for the built-ins, none of which is reached below. *)
Definition noNumberToString : Q -> string := fun _ => "".
Definition noStringToNumber : string -> qnum := fun _ => NaN.

Definition sample_spot : Spot :=
  {| freq := JStr "7.022"; call := JStr "KP5/NP3VI";
     comment := JStr "Up 2 Desecheo Island"; time := JStr "06:10z";
     spotter := JStr "F5PAC" |}.

(** Only HamQTH answers, with the sample record. *)
Definition hamqth_only : World :=
  fun s => match s with
           | HamQTH => Response true (Some sample_line)
           | _ => FetchRejected
           end.

(** A parser that knows one text, an array of one record without
    properties. *)
Definition parse_one_record : string -> option jsval :=
  fun s => if String.eqb s "[{}]" then Some (JArr [JObj []]) else None.

(** HamQTH sends a comment line only and DX Summit answers; HamQTH is down,
    DX Summit answers 503 and DXHeat answers; nothing answers. *)
Definition summit_answers : World :=
  fun s => match s with
           | HamQTH => Response true (Some "# no spots")
           | DXSummit => Response true (Some "[{}]")
           | DXHeat => FetchRejected
           end.

Definition heat_answers : World :=
  fun s => match s with
           | HamQTH => FetchRejected
           | DXSummit => Response false None
           | DXHeat => Response true (Some "[{}]")
           end.

Definition nothing_answers : World := fun _ => FetchRejected.

Lemma dxcluster_first_success_wins_witness :
  runDxcluster noNumberToString parse_one_record hamqth_only =
    (json200 [sample_spot], [HamQTH]) /\
  runDxcluster noNumberToString parse_one_record summit_answers =
    (json200 [unknownSpot], [HamQTH; DXSummit]) /\
  runDxcluster noNumberToString parse_one_record heat_answers =
    (json200 [unknownSpot], [HamQTH; DXSummit; DXHeat]) /\
  runDxcluster noNumberToString parse_one_record nothing_answers =
    (json200 [], [HamQTH; DXSummit; DXHeat]).
Proof.
  split; [|split; [|split]].
  - apply (proj1 (dxcluster_first_success_wins noNumberToString parse_one_record
                    hamqth_only)).
    apply yields_HamQTH; [reflexivity | discriminate].
  - apply (proj1 (proj2 (dxcluster_first_success_wins noNumberToString
                           parse_one_record summit_answers))).
    + apply fails_no_spot. reflexivity.
    + apply (@yields_DXSummit noNumberToString parse_one_record "[{}]" [JObj []]);
        [reflexivity | reflexivity | discriminate].
  - apply (proj1 (proj2 (proj2 (dxcluster_first_success_wins noNumberToString
                                  parse_one_record heat_answers)))).
    + apply fails_rejected.
    + apply fails_status.
    + apply (@yields_DXHeat noNumberToString parse_one_record "[{}]"
               (JArr [JObj []]) JUndefined [JObj []]);
        [reflexivity | reflexivity | reflexivity | reflexivity | discriminate].
  - apply (proj1 (proj2 (proj2 (proj2 (dxcluster_first_success_wins noNumberToString
                                         parse_one_record nothing_answers)))));
      apply fails_rejected.
Defined.

(** A record on 7022.5 kHz: the quotient by 1000 is the binary64 number
    just below 7.0225, printed as 7.022. *)
Definition half_khz_line : string :=
  "F5PAC^7022.5^KP5/NP3VI^Up 2^0610 2026-01-30".

Definition half_khz_spot : Spot :=
  {| freq := JStr "7.022"; call := JStr "KP5/NP3VI";
     comment := JStr "Up 2"; time := JStr "06:10z";
     spotter := JStr "F5PAC" |}.

Lemma hamqth_frequency_checked_json_unchecked_witness :
  exists line khz,
    In line (firstn 25 (hamqthLines half_khz_line)) /\
    khz = parseFloat (at_or_empty (split "^" line) 1) /\
    isNaN khz = false /\ qgt khz (Fin 0%Q) = true /\
    freq half_khz_spot =
      JStr (toFixed noNumberToString (rounded (qdiv khz (Fin 1000%Q))) 3).
Proof.
  exact (proj1 (hamqth_frequency_checked_json_unchecked noNumberToString)
           half_khz_line [half_khz_spot] half_khz_spot eq_refl (or_introl eq_refl)).
Defined.



(** The K feed ends with a planetary index of 0.33. *)
Definition quiet_k_series : jsval :=
  JArr [JArr [JStr "time_tag"; JStr "Kp"];
        JArr [JStr "2026-01-30 06:00:00.000"; JStr "0.33"]].

Lemma kindex_zero_never_reported_witness :
  kIndex (solarSnapshot noNumberToString noStringToNumber Rejected
            (Fulfilled true (Some quiet_k_series))) = Fin 2%Q.
Proof.
  exact (proj2 (kindex_zero_never_reported noNumberToString noStringToNumber
                  Rejected (Fulfilled true (Some quiet_k_series)))
           quiet_k_series
           (JArr [JStr "2026-01-30 06:00:00.000"; JStr "0.33"])
           (JStr "0.33") eq_refl eq_refl eq_refl eq_refl (or_introl eq_refl)).
Defined.

Local Open Scope R_scope.

Lemma reliability_formulas_witness :
  let muf := mufR 34 12 0 70 in
  let luf := lufR 100 2 (real 12) north north in
  foF2 (real 34) (real 12) =
    real (0.9 * sqrt (34 + 15) * (1 + 0.4 * cos ((12 - 12) * PI / 12))) /\
  MUF (real 34) (real 12) (real 0) (real 70) = real muf /\
  LUF (real 100) (real 2) (real 12) north north = real luf /\
  (muf < 7 ->
   baseReliability (real 7) (real muf) (real luf) =
   real (Rmax 0 (50 - (7 - muf) * 10))) /\
  (7 <= muf -> 7 < luf ->
   baseReliability (real 7) (real muf) (real luf) =
   real (Rmax 0 (50 - (luf - 7) * 15))) /\
  (luf <= 7 <= muf -> luf < muf ->
   baseReliability (real 7) (real muf) (real luf) =
   real (50 + (1 - Rabs (7 - (muf + luf) / 2) / (muf - luf)) * 45)).
Proof.
  apply (proj2 reliability_formulas 7 0 70 12 100 34 2 north north); lra.
Defined.

End Instances.

(* ================================================================== *)
(** * Part XI. Further properties of the propagation route *)
(* ================================================================== *)

(** ** The great circle distance *)

Section DistanceFacts.
Local Open Scope R_scope.

(** The term [a] of lines 381-383 on real coordinates. *)
Definition haversine (lat1 lon1 lat2 lon2 : R) : R :=
  sin ((lat2 - lat1) * PI / 180 / 2) * sin ((lat2 - lat1) * PI / 180 / 2) +
  cos (lat1 * PI / 180) * cos (lat2 * PI / 180) *
  sin ((lon2 - lon1) * PI / 180 / 2) * sin ((lon2 - lon1) * PI / 180 / 2).

Lemma calculateDistance_real : forall lat1 lon1 lat2 lon2,
  calculateDistance (real lat1) (real lon1) (real lat2) (real lon2) =
  (real 6371 * real 2 *
   Math_atan2 (Math_sqrt (real (haversine lat1 lon1 lat2 lon2)))
              (Math_sqrt (real 1 - real (haversine lat1 lon1 lat2 lon2))))%js.
Proof.
  intros. unfold calculateDistance, Math_PI. fold (real PI).
  repeat first [ rewrite jsub_real | rewrite jmul_real | rewrite jadd_real
               | rewrite Math_sin_real | rewrite Math_cos_real
               | rewrite jdiv_real by lra ].
  reflexivity.
Qed.

Lemma haversine_sym : forall lat1 lon1 lat2 lon2,
  haversine lat1 lon1 lat2 lon2 = haversine lat2 lon2 lat1 lon1.
Proof.
  intros. unfold haversine.
  replace ((lat1 - lat2) * PI / 180 / 2) with (- ((lat2 - lat1) * PI / 180 / 2)) by lra.
  replace ((lon1 - lon2) * PI / 180 / 2) with (- ((lon2 - lon1) * PI / 180 / 2)) by lra.
  rewrite !sin_neg. ring.
Qed.

(** X3.  The distance does not depend on the direction of the path: for
    real coordinates, exchanging the two stations gives the same value. *)
Theorem distance_symmetric : forall lat1 lon1 lat2 lon2 : R,
  calculateDistance (real lat1) (real lon1) (real lat2) (real lon2) =
  calculateDistance (real lat2) (real lon2) (real lat1) (real lon1).
Proof.
  intros. rewrite !calculateDistance_real.
  now rewrite (haversine_sym lat1 lon1 lat2 lon2).
Qed.

End DistanceFacts.

(** ** The query parameters *)

Section QueryFacts.
Local Open Scope string_scope.

Variable NumberToString : Q -> string.
Variable StringToNumber : string -> qnum.
Variable sortOrder : list BandSummary -> list nat.

Lemma queryOr_falsy : forall v w d,
  qtruthy (parseFloat (ToString NumberToString v)) = false ->
  qtruthy (parseFloat (ToString NumberToString w)) = false ->
  queryOr NumberToString v d = queryOr NumberToString w d.
Proof. intros v w d Hv Hw. unfold queryOr. now rewrite Hv, Hw. Qed.

(** X5.  A coordinate parameter whose text parses to 0 or to no number at
    all is treated exactly as a missing one: the handler answers as if the
    parameter were absent, with the default 40, -75, 35 or 139 in its
    place.  A latitude or longitude of 0 cannot be requested. *)
Theorem zero_coordinate_is_missing :
  forall s deLat deLon dxLat dxLon fluxRes kRes utcHours,
  qtruthy (parseFloat s) = false ->
  let route := propagation NumberToString StringToNumber sortOrder in
  route (JStr s) deLon dxLat dxLon fluxRes kRes utcHours =
    route JUndefined deLon dxLat dxLon fluxRes kRes utcHours /\
  route deLat (JStr s) dxLat dxLon fluxRes kRes utcHours =
    route deLat JUndefined dxLat dxLon fluxRes kRes utcHours /\
  route deLat deLon (JStr s) dxLon fluxRes kRes utcHours =
    route deLat deLon JUndefined dxLon fluxRes kRes utcHours /\
  route deLat deLon dxLat (JStr s) fluxRes kRes utcHours =
    route deLat deLon dxLat JUndefined fluxRes kRes utcHours /\
  queryOr NumberToString JUndefined 40 = real 40 /\
  queryOr NumberToString JUndefined (-75) = real (-75) /\
  queryOr NumberToString JUndefined 35 = real 35 /\
  queryOr NumberToString JUndefined 139 = real 139.
Proof.
  intros s deLat deLon dxLat dxLon fluxRes kRes utcHours Hs route.
  assert (E : forall d, queryOr NumberToString (JStr s) d =
                        queryOr NumberToString JUndefined d).
  { intro d. apply queryOr_falsy; [exact Hs|reflexivity]. }
  unfold route, propagation. rewrite !E.
  repeat split.
  - exact (toReal_integer 40).
  - exact (toReal_integer (-75)).
  - exact (toReal_integer 35).
  - exact (toReal_integer 139).
Qed.

End QueryFacts.

(** ** The usable window *)

Section WindowFacts.
Local Open Scope string_scope.
Local Open Scope R_scope.

(** The long-path and high-band penalties never amplify when the flux is
    not negative. *)
Lemma penalties_factor : forall f s d, 0 <= s ->
  exists M, 0 <= M <= 1 /\
    forall x, highBandPenalty (real f) (real s) (longPathPenalty (real d) (real x)) =
              real (x * M).
Proof.
  intros f s d Hs. unfold highBandPenalty, longPathPenalty.
  rewrite !jge_real, !jlt_real, !jgt_real.
  assert (HL : exists L, 0 <= L <= 1 /\
            forall x, (if Rltb 15000 d then (real x * real 0.7)%js
                       else if Rltb 10000 d then (real x * real 0.85)%js
                       else real x) = real (x * L)).
  { destruct (Rltb 15000 d); [exists 0.7; split; [lra|reflexivity]|].
    destruct (Rltb 10000 d); [exists 0.85; split; [lra|reflexivity]|].
    exists 1. split; [lra|]. intro x. now rewrite Rmult_1_r. }
  destruct HL as (L & HL & EL).
  assert (H1 : exists A, 0 <= A <= 1 /\
            forall y, (if negb (Rltb f 21) && Rltb s 100
                       then (real y * (real s / real 100))%js else real y) =
                      real (y * A)).
  { destruct (negb (Rltb f 21)); cbn [andb].
    - destruct (Rltb s 100) eqn:E.
      + apply Rltb_true in E. exists (s / 100). split; [lra|].
        intro y. now rewrite jdiv_real by lra.
      + exists 1. split; [lra|]. intro y. now rewrite Rmult_1_r.
    - exists 1. split; [lra|]. intro y. now rewrite Rmult_1_r. }
  destruct H1 as (A & HA & EA).
  assert (H2 : exists B, 0 <= B <= 1 /\
            forall y, (if negb (Rltb f 28) && Rltb s 120
                       then (real y * (real s / real 120))%js else real y) =
                      real (y * B)).
  { destruct (negb (Rltb f 28)); cbn [andb].
    - destruct (Rltb s 120) eqn:E.
      + apply Rltb_true in E. exists (s / 120). split; [lra|].
        intro y. now rewrite jdiv_real by lra.
      + exists 1. split; [lra|]. intro y. now rewrite Rmult_1_r.
    - exists 1. split; [lra|]. intro y. now rewrite Rmult_1_r. }
  destruct H2 as (B & HB & EB).
  assert (HLA : 0 <= L * A <= 1) by nra.
  exists (L * A * B). split; [nra|].
  intro x. rewrite EL, EA, EB. f_equal. ring.
Qed.

Lemma product_bounds : forall B b c M,
  0 <= b <= B -> 0 < c <= 1 -> 0 <= M <= 1 -> 0 <= b * c * M <= B.
Proof.
  intros B b c M Hb Hc HM.
  assert (H1 : 0 <= b * c) by (apply Rmult_le_pos; lra).
  assert (H2 : b * c <= b * 1) by (apply Rmult_le_compat_l; lra).
  assert (H3 : 0 <= b * c * M) by (apply Rmult_le_pos; lra).
  assert (H4 : b * c * M <= b * c * 1) by (apply Rmult_le_compat_l; lra).
  lra.
Qed.

Lemma clamp_id : forall x, 0 <= x <= 95 -> Rmin 99 (Rmax 0 x) = x.
Proof.
  intros x Hx. unfold Rmin, Rmax.
  destruct (Rle_dec 0 x); [|lra]. destruct (Rle_dec 99 x); lra.
Qed.

(** X6.  With a flux that is not negative, a reliability that is a number
    lies between 0 and 95: the upper bound 99 of the final clamp is never
    reached. *)
Theorem reliability_at_most_95 : forall f d m h s n k de dx r,
  0 <= s ->
  calculateBandReliability (real f) (real d) (real m) (real h) (real s) (real n)
    (real k) de dx = real r ->
  0 <= r <= 95.
Proof.
  intros f d m h s n k de dx r Hs H.
  unfold calculateBandReliability in H. rewrite LUF_real in H.
  pose proof (MUF_real_or_NaN n h d m) as Hmuf.
  set (muf := MUF (real n) (real h) (real d) (real m)) in *.
  set (l := 2 + s / 100 * dayNightR (real h) de dx + k * 0.5) in *.
  destruct (@baseReliability_real_or_NaN f muf l Hmuf) as [E | (b & E)].
  { rewrite E, stormDegradation_NaN, penalties_NaN in H. discriminate. }
  destruct (@baseReliability_bounds f muf l b Hmuf E) as (Hb & _).
  destruct (stormDegradation_real k) as (c & Hc & Ec).
  destruct (@penalties_factor f s d Hs) as (M & HM & EM).
  rewrite E, Ec, EM, clamp_real in H. injection H as <-.
  pose proof (@product_bounds 95 b c M Hb Hc HM) as Hp.
  now rewrite clamp_id.
Qed.

Lemma getStatus_real : forall r,
  getStatus (real r) =
  if Rltb r 70 then
    if Rltb r 50 then
      if Rltb r 30 then
        if Rltb r 15 then "CLOSED" else "POOR"
      else "FAIR"
    else "GOOD"
  else "EXCELLENT".
Proof.
  intro r. unfold getStatus. rewrite !jge_real.
  destruct (Rltb r 70), (Rltb r 50), (Rltb r 30), (Rltb r 15); reflexivity.
Qed.

(** X8.  With a flux that is not negative, a frequency above the maximum
    usable frequency, or below the lowest one, has a reliability between 0
    and 50; it is 0 from 5 MHz above the maximum and, for a frequency not
    above the maximum, from 10/3 MHz below the lowest. *)
Theorem outside_window_at_most_50 : forall f d m h s n k de dx muf luf,
  MUF (real n) (real h) (real d) (real m) = real muf ->
  LUF (real s) (real k) (real h) de dx = real luf ->
  0 <= s ->
  muf < f \/ f < luf ->
  exists r,
    calculateBandReliability (real f) (real d) (real m) (real h) (real s) (real n)
      (real k) de dx = real r /\
    0 <= r <= 50 /\
    (muf + 5 <= f \/ (f <= muf /\ f + 10 / 3 <= luf) -> r = 0).
Proof.
  intros f d m h s n k de dx mu l Hmu Hl Hs Hout.
  unfold calculateBandReliability. rewrite Hmu, Hl.
  destruct (stormDegradation_real k) as (c & Hc & Ec).
  destruct (@penalties_factor f s d Hs) as (M & HM & EM).
  assert (Hb : exists b, baseReliability (real f) (real mu) (real l) = real b /\
                         0 <= b <= 50 /\
                         (mu + 5 <= f \/ (f <= mu /\ f + 10 / 3 <= l) -> b = 0)).
  { rewrite baseReliability_real. destruct (Rltb mu f) eqn:Em.
    - apply Rltb_true in Em. eexists. split; [reflexivity|].
      unfold Rmax. destruct (Rle_dec 0 _); split; try lra; intros [H | H]; lra.
    - apply Rltb_false in Em. destruct Hout as [Hout | Hout]; [lra|].
      rewrite (Rltb_lt Hout). eexists. split; [reflexivity|].
      unfold Rmax. destruct (Rle_dec 0 _); split; try lra; intros [H | H]; lra. }
  destruct Hb as (b & -> & Hb & Hzero).
  rewrite Ec, EM, clamp_real.
  pose proof (@product_bounds 50 b c M Hb Hc HM) as Hp.
  rewrite clamp_id by lra.
  eexists. split; [reflexivity|]. split; [lra|].
  intro Hz. rewrite (Hzero Hz). ring.
Qed.

Lemma cos_midnight : cos ((0 - 12) * PI / 12) = -1.
Proof.
  replace ((0 - 12) * PI / 12) with (- PI) by lra. rewrite cos_neg. apply cos_PI.
Qed.

(** X9.  The maximum usable frequency follows the UTC hour, not the local
    time of the path: with a mid latitude of at most 200 in absolute value
    it is never negative, it is lowest at 0 h UTC and highest at 12 h UTC,
    where it is [4.41 * sqrt(ssn + 15) * sqrt(1 + distance / 3500) *
    (1 - |midLat| / 200)], 7/3 of its value at 0 h. *)
Theorem muf_follows_utc_hour : forall n h d m,
  0 <= n + 15 -> 0 <= 1 + d / 3500 -> Rabs m <= 200 ->
  exists lo x hi,
    MUF (real n) (real 0) (real d) (real m) = real lo /\
    MUF (real n) (real h) (real d) (real m) = real x /\
    MUF (real n) (real 12) (real d) (real m) = real hi /\
    0 <= lo <= x /\ x <= hi /\
    hi = 4.41 * sqrt (n + 15) * sqrt (1 + d / 3500) * (1 - Rabs m / 200) /\
    lo * 7 = hi * 3.
Proof.
  intros n h d m Hn Hd Hm. rewrite !MUF_real by assumption.
  do 3 eexists. split; [reflexivity|]. split; [reflexivity|]. split; [reflexivity|].
  rewrite cos_midnight, cos_noon.
  pose proof (COS_bound ((h - 12) * PI / 12)) as [Hc1 Hc2].
  set (c := cos ((h - 12) * PI / 12)) in *.
  pose proof (sqrt_pos (n + 15)) as H1. pose proof (sqrt_pos (1 + d / 3500)) as H2.
  set (a := sqrt (n + 15)) in *. set (b := sqrt (1 + d / 3500)) in *.
  assert (Hl : 0 <= 1 - Rabs m / 200) by lra.
  set (t := 1 - Rabs m / 200) in *.
  assert (Hab : 0 <= a * b) by nra.
  assert (Habt : 0 <= a * b * t) by nra.
  repeat split; try nra.
Qed.

End WindowFacts.

(** ** Status and label of a band *)

Section LabelFacts.
Local Open Scope string_scope.

(** The labels that can stand beside a status. *)
Definition snrLabelsFor (status : string) : list string :=
  if String.eqb status "EXCELLENT" then ["+10dB"; "+20dB"]
  else if String.eqb status "GOOD" then ["0dB"; "+10dB"]
  else if String.eqb status "FAIR" then ["-10dB"; "0dB"]
  else if String.eqb status "POOR" then ["-20dB"; "-10dB"]
  else ["-20dB"].

Local Open Scope R_scope.

Lemma round_below : forall x (t : Z),
  IZR (Zfloor (x + / 2)) < IZR t -> x < IZR t - / 2.
Proof.
  intros x t H. apply lt_IZR in H.
  assert (H1 : (Zfloor (x + / 2) + 1 <= t)%Z) by lia.
  apply IZR_le in H1. rewrite plus_IZR in H1.
  pose proof (Zfloor_bound (x + / 2)) as [_ Hhi]. simpl in H1. lra.
Qed.

Lemma round_above : forall x (t : Z),
  IZR t <= IZR (Zfloor (x + / 2)) -> IZR t - / 2 <= x.
Proof.
  intros x t H. pose proof (Zfloor_bound (x + / 2)) as [Hlo _]. lra.
Qed.

(** The status is computed from the rounded reliability and the label from
    the unrounded one; the two differ by at most one bracket. *)
Lemma labels_agree : forall r : jsnum,
  In (calculateSNR r) (snrLabelsFor (getStatus (Math_round r))).
Proof.
  intros [|s|x].
  - cbn. auto.
  - destruct s; cbn; auto.
  - change (Fin x) with (real x).
    rewrite Math_round_real, getStatus_real, calculateSNR_real.
    set (z := Zfloor (x + / 2)).
    destruct (Rltb (IZR z) 70) eqn:E70, (Rltb (IZR z) 50) eqn:E50,
             (Rltb (IZR z) 30) eqn:E30, (Rltb (IZR z) 15) eqn:E15;
      repeat match goal with
             | H : Rltb (IZR z) _ = true |- _ =>
                 apply Rltb_true in H; pose proof (round_below _ _ H); clear H
             | H : Rltb (IZR z) _ = false |- _ =>
                 apply Rltb_false in H; pose proof (round_above _ _ H); clear H
             end;
      destruct (Rltb x 80) eqn:H80, (Rltb x 60) eqn:H60,
               (Rltb x 40) eqn:H40, (Rltb x 20) eqn:H20;
      first [ solve [cbn; auto]
            | exfalso;
              repeat match goal with
                     | H : Rltb x _ = true |- _ => apply Rltb_true in H
                     | H : Rltb x _ = false |- _ => apply Rltb_false in H
                     end; lra ].
Qed.

Variable NumberToString : Q -> string.
Variable StringToNumber : string -> qnum.
Variable sortOrder : list BandSummary -> list nat.

(** X11.  In every entry of [currentBands] the label goes with the status:
    EXCELLENT carries +10dB or +20dB, GOOD 0dB or +10dB, FAIR -10dB or 0dB,
    POOR -20dB or -10dB, and CLOSED always -20dB. *)
Theorem status_and_snr_agree :
  forall deLat deLon dxLat dxLon fluxRes kRes utcHours,
  (utcHours < 24)%nat ->
  exists resp,
    propagation NumberToString StringToNumber sortOrder deLat deLon dxLat dxLon
      fluxRes kRes utcHours = json200 resp /\
    Forall (fun b => In (band_snr b) (snrLabelsFor (band_status b)))
           (currentBands resp).
Proof.
  intros deLat deLon dxLat dxLon fluxRes kRes utcHours Hh.
  destruct (@propagation_ok NumberToString StringToNumber sortOrder deLat deLon dxLat dxLon
              fluxRes kRes utcHours Hh)
    as (resp & Hresp & dist & midLat & de & dx & _ & _ & Hcb).
  exists resp. split; [exact Hresp|]. rewrite Hcb.
  set (unsorted := map _ _).
  pose proof (Array_sort_perm band_reliability sortOrder unsorted) as Hp.
  eapply Permutation_Forall; [symmetry; exact Hp|].
  unfold unsorted. apply Forall_forall. intros b Hb.
  apply in_map_iff in Hb. destruct Hb as (bf & <- & _).
  cbn [summaryAt entryAt band_snr band_status reliability snr].
  apply labels_agree.
Qed.

End LabelFacts.

(* ================================================================== *)
(** * Part XII. Further properties of the spot route and of the proxies *)
(* ================================================================== *)

Section SpotRouteFacts.
Local Open Scope string_scope.

Variable NumberToString : Q -> string.
Variable JSON_parse : string -> option jsval.

Lemma hamqthSpots_length : forall lines,
  (List.length (hamqthSpots NumberToString lines) <= 25)%nat.
Proof.
  intro lines. rewrite hamqthSpots_flat_map.
  assert (H : forall l : list string,
            (List.length (flat_map (fun line =>
                            match hamqthLine NumberToString line with
                            | Some spot => [spot]
                            | None => []
                            end) l) <= List.length l)%nat).
  { induction l as [|x l IH]; cbn [flat_map]; [apply Nat.le_refl|].
    rewrite length_app. destruct (hamqthLine NumberToString x); simpl; lia. }
  eapply Nat.le_trans; [apply H|]. apply firstn_le_length.
Qed.

Lemma tryHamQTH_length : forall r spots,
  tryHamQTH NumberToString r = Some spots -> (List.length spots <= 25)%nat.
Proof.
  intros [|[] [text|]] spots H; try discriminate. cbn [tryHamQTH] in H.
  destruct (0 <? List.length (hamqthLines text))%nat; [|discriminate].
  destruct (0 <? List.length (hamqthSpots NumberToString (hamqthLines text)))%nat;
    [|discriminate].
  injection H as <-. apply hamqthSpots_length.
Qed.

Lemma mapM_firstn_length : forall (A B : Type) (f : A -> option B) items ys,
  mapM f (firstn 20 items) = Some ys -> (List.length ys <= 20)%nat.
Proof.
  intros A B f items ys H. apply mapM_length in H. rewrite H. apply firstn_le_length.
Qed.

Lemma tryDXSummit_length : forall r spots,
  tryDXSummit NumberToString JSON_parse r = Some spots -> (List.length spots <= 20)%nat.
Proof.
  intros [|[] [text|]] spots H; try discriminate. cbn [tryDXSummit] in H.
  destruct (JSON_parse text) as [data|]; [|discriminate]. cbn [bindOpt] in H.
  destruct data; try discriminate. cbn [dxSummitSpots] in H.
  destruct (0 <? List.length items)%nat; [|discriminate].
  eapply mapM_firstn_length; eassumption.
Qed.

Lemma tryDXHeat_length : forall r spots,
  tryDXHeat NumberToString JSON_parse r = Some spots -> (List.length spots <= 20)%nat.
Proof.
  intros [|[] [text|]] spots H; try discriminate. cbn [tryDXHeat] in H.
  destruct (JSON_parse text) as [data|]; [|discriminate]. cbn [bindOpt] in H.
  unfold dxHeatSpots in H.
  destruct (getProp data "spots") as [ds|]; [|discriminate]. cbn [bindOpt] in H.
  destruct (orElse ds data); try discriminate.
  destruct (0 <? List.length items)%nat; [|discriminate].
  eapply mapM_firstn_length; eassumption.
Qed.

(** X12.  Whatever the three upstream sources answer, the reply is a 200
    with at most 25 spots, and at most 20 when it does not come from HamQTH
    alone (DX Summit is asked for 25 records, of which 20 are kept). *)
Theorem spot_reply_size : forall w : World,
  exists spots log,
    runDxcluster NumberToString JSON_parse w = (json200 spots, log) /\
    (List.length spots <= 25)%nat /\
    (log <> [HamQTH] -> (List.length spots <= 20)%nat).
Proof.
  intro w. unfold runDxcluster, dxclusterSpots, bind, fetch, ret. simpl.
  destruct (tryHamQTH NumberToString (w HamQTH)) as [s1|] eqn:E1.
  { exists s1, [HamQTH]. split; [reflexivity|].
    split; [eapply tryHamQTH_length; eassumption|]. intro H. now elim H. }
  destruct (tryDXSummit NumberToString JSON_parse (w DXSummit)) as [s2|] eqn:E2.
  { exists s2, [HamQTH; DXSummit]. split; [reflexivity|].
    apply tryDXSummit_length in E2. split; [lia|]. intros _. exact E2. }
  destruct (tryDXHeat NumberToString JSON_parse (w DXHeat)) as [s3|] eqn:E3.
  { exists s3, [HamQTH; DXSummit; DXHeat]. split; [reflexivity|].
    apply tryDXHeat_length in E3. split; [lia|]. intros _. exact E3. }
  exists [], [HamQTH; DXSummit; DXHeat]. split; [reflexivity|]. simpl. split; lia.
Qed.

(** X13.  The cap of the HamQTH parser is on lines, not on spots: once 25
    lines (comment and blank lines not counted) have been read, no later
    line contributes a spot, whether or not the 25 were usable. *)
Theorem spots_come_from_first_25_lines : forall lines more : list string,
  (25 <= List.length lines)%nat ->
  hamqthSpots NumberToString (lines ++ more) = hamqthSpots NumberToString lines.
Proof.
  intros lines more H. rewrite !hamqthSpots_flat_map, firstn_app.
  replace (25 - List.length lines)%nat with 0%nat by lia.
  cbn [firstn]. now rewrite app_nil_r.
Qed.

Lemma hamqthLine_time : forall line sp,
  hamqthLine NumberToString line = Some sp ->
  time sp =
  JStr (let timeDate := at_or_empty (split "^" line) 4 in
        if nonEmpty timeDate && (4 <=? String.length timeDate)%nat
        then substring 0 2 (substring 0 4 timeDate) ++ ":" ++
             substring 2 4 (substring 0 4 timeDate) ++ "z"
        else "").
Proof.
  intros line sp. unfold hamqthLine.
  destruct (5 <=? List.length (split "^" line))%nat; [|discriminate].
  destruct (negb _ && _ && _); [|discriminate].
  intro H. injection H as <-. reflexivity.
Qed.

(** X14.  The time of a HamQTH spot is empty when the fifth field has
    fewer than four characters; otherwise it is the first four characters
    of that field, whatever they are, with a colon after the second and a
    final [z]. *)
Theorem hamqth_time_is_unvalidated : forall line sp,
  hamqthLine NumberToString line = Some sp ->
  let timeDate := at_or_empty (split "^" line) 4 in
  ((String.length timeDate < 4)%nat -> time sp = JStr "") /\
  (forall a b c d rest,
      timeDate = String a (String b (String c (String d rest))) ->
      time sp = JStr (String a (String b (String ":" (String c (String d "z")))))).
Proof.
  intros line sp H timeDate. rewrite (hamqthLine_time _ H). fold timeDate. cbv zeta.
  split.
  - intro Hlen. apply Nat.leb_gt in Hlen. rewrite Hlen. now rewrite andb_false_r.
  - intros a b c d rest ->. destruct rest; reflexivity.
Qed.

Lemma mapM_None : forall (A B : Type) (f : A -> option B) xs x,
  In x xs -> f x = None -> mapM f xs = None.
Proof.
  induction xs as [|y xs IH]; intros x Hin Hx; [contradiction|].
  cbn [mapM]. destruct Hin as [-> | Hin].
  - now rewrite Hx.
  - destruct (f y); [|reflexivity]. cbn [bindOpt].
    now rewrite (IH x Hin Hx).
Qed.

(** X15.  One [null] among the first 20 records of a JSON payload makes
    the mapping throw, and the whole payload is given up: neither JSON
    parser yields a spot from it, and when HamQTH has yielded none and
    DX Summit sends such a payload the handler goes on to DXHeat. *)
Theorem null_record_discards_source : forall (w : World) text items,
  tryHamQTH NumberToString (w HamQTH) = None ->
  w DXSummit = Response true (Some text) ->
  JSON_parse text = Some (JArr items) ->
  In JNull (firstn 20 items) ->
  dxSummitSpots NumberToString (JArr items) = None /\
  dxHeatSpots NumberToString (JArr items) = None /\
  snd (runDxcluster NumberToString JSON_parse w) = [HamQTH; DXSummit; DXHeat].
Proof.
  intros w text items Hh Hw Hj Hin.
  assert (Hne : (0 <? List.length items)%nat = true).
  { destruct items; [|reflexivity]. destruct Hin. }
  assert (H2 : dxSummitSpots NumberToString (JArr items) = None).
  { cbn [dxSummitSpots]. rewrite Hne. eapply mapM_None; [exact Hin|reflexivity]. }
  assert (H3 : dxHeatSpots NumberToString (JArr items) = None).
  { unfold dxHeatSpots. change (getProp (JArr items) "spots") with (Some JUndefined).
    cbn [bindOpt orElse truthy]. rewrite Hne.
    eapply mapM_None; [exact Hin|reflexivity]. }
  split; [exact H2|]. split; [exact H3|].
  unfold runDxcluster, dxclusterSpots, bind, fetch, ret. simpl.
  rewrite Hh. unfold tryDXSummit. rewrite Hw, Hj. cbn [bindOpt]. rewrite H2.
  destruct (tryDXHeat NumberToString JSON_parse (w DXHeat)); reflexivity.
Qed.

End SpotRouteFacts.

Section ProxyFacts.
Local Open Scope string_scope.

Variable NumberToString : Q -> string.
Variable StringToNumber : string -> qnum.

(** X16.  The proxies do not look at the upstream status: a response that
    is not ok but whose body is JSON is sent on with status 200 by
    [/api/noaa/flux] (and its body as XML by [/api/hamqsl/conditions]),
    while the propagation route ignores the same response and keeps the
    default flux 150; only a rejected fetch or an unreadable body gives the
    500 of the proxy. *)
Theorem proxy_forwards_what_propagation_ignores : forall data text kRes,
  noaaFlux (Fulfilled false (Some data)) = json200 data /\
  hamqslConditions (Response false (Some text)) = sendText "application/xml" text /\
  sfi (solarSnapshot NumberToString StringToNumber (Fulfilled false (Some data)) kRes)
    = Fin 150%Q /\
  (forall ok, noaaFlux (Fulfilled ok None) =
              json500 "Failed to fetch solar flux data") /\
  noaaFlux Rejected = json500 "Failed to fetch solar flux data".
Proof.
  intros data text kRes. split; [reflexivity|]. split; [reflexivity|].
  split; [|split; reflexivity].
  rewrite snapshot_cases. cbn [fluxStatement].
  destruct (kStatement NumberToString StringToNumber kRes defaults) as [s2|] eqn:E;
    [|reflexivity].
  apply kStatement_frame in E. cbn [sfi]. now destruct E as (-> & _).
Qed.

End ProxyFacts.

(* ================================================================== *)
(** * Part XIII. The further properties at concrete requests *)
(* ================================================================== *)

Section MoreInstances.
Local Open Scope string_scope.
Local Open Scope R_scope.

Lemma zero_coordinate_is_missing_witness :
  let route := propagation noNumberToString noStringToNumber (@keepsOrder BandSummary) in
  route (JStr "0") JUndefined JUndefined JUndefined Rejected Rejected 0%nat =
    route JUndefined JUndefined JUndefined JUndefined Rejected Rejected 0%nat /\
  route JUndefined (JStr "0") JUndefined JUndefined Rejected Rejected 0%nat =
    route JUndefined JUndefined JUndefined JUndefined Rejected Rejected 0%nat /\
  route JUndefined JUndefined (JStr "0") JUndefined Rejected Rejected 0%nat =
    route JUndefined JUndefined JUndefined JUndefined Rejected Rejected 0%nat /\
  route JUndefined JUndefined JUndefined (JStr "0") Rejected Rejected 0%nat =
    route JUndefined JUndefined JUndefined JUndefined Rejected Rejected 0%nat /\
  queryOr noNumberToString JUndefined 40 = real 40 /\
  queryOr noNumberToString JUndefined (-75) = real (-75) /\
  queryOr noNumberToString JUndefined 35 = real 35 /\
  queryOr noNumberToString JUndefined 139 = real 139.
Proof.
  apply (@zero_coordinate_is_missing noNumberToString noStringToNumber
           (@keepsOrder BandSummary) "0"
           JUndefined JUndefined JUndefined JUndefined Rejected Rejected 0%nat).
  reflexivity.
Defined.

Lemma reliability_at_most_95_witness : 0 <= example_r2 <= 95.
Proof.
  apply (@reliability_at_most_95 7 0 70 12 100 34 2 north north example_r2);
    [lra | exact example_reliability_k2].
Defined.

Lemma example_MUF_6m : MUF (real 1) (real 12) (real 0) (real 0) = real 17.64.
Proof. rewrite MUF_real by lra. f_equal. exact mufR_example_closed. Qed.

Lemma outside_window_at_most_50_witness :
  exists r,
    calculateBandReliability (real 50) (real 0) (real 0) (real 12) (real 150)
      (real 1) (real 2) greenwich greenwich = real r /\
    0 <= r <= 50 /\
    (17.64 + 5 <= 50 \/
     (50 <= 17.64 /\
      50 + 10 / 3 <= lufR 150 2 (real 12) greenwich greenwich) -> r = 0).
Proof.
  apply (@outside_window_at_most_50 50 0 0 12 150 1 2 greenwich greenwich 17.64
           (lufR 150 2 (real 12) greenwich greenwich) example_MUF_6m
           (LUF_real 150 2 (real 12) greenwich greenwich)); [lra | left; lra].
Defined.

Lemma muf_follows_utc_hour_witness :
  exists lo x hi,
    MUF (real 34) (real 0) (real 0) (real 70) = real lo /\
    MUF (real 34) (real 6) (real 0) (real 70) = real x /\
    MUF (real 34) (real 12) (real 0) (real 70) = real hi /\
    0 <= lo <= x /\ x <= hi /\
    hi = 4.41 * sqrt (34 + 15) * sqrt (1 + 0 / 3500) * (1 - Rabs 70 / 200) /\
    lo * 7 = hi * 3.
Proof.
  apply (@muf_follows_utc_hour 34 6 0 70); [lra | lra |].
  rewrite Rabs_pos_eq; lra.
Defined.

Lemma currentBands_sorted_when_numbers_witness :
  exists resp unsorted,
    propagation noNumberToString noStringToNumber (@keepsOrder BandSummary)
      JUndefined JUndefined JUndefined JUndefined Rejected Rejected 0 =
    json200 resp /\
    map band unsorted = bands /\
    map band_freq unsorted = bandFreqs /\
    StronglySorted (fun x y => (x <? y)%js = true) (map band_freq unsorted) /\
    Permutation (currentBands resp) unsorted /\
    (Forall (fun e => exists r, band_reliability e = real r) (currentBands resp) ->
     orderedByReliability (currentBands resp) unsorted).
Proof.
  apply (@currentBands_sorted_when_numbers noNumberToString noStringToNumber
           (@keepsOrder BandSummary)
           JUndefined JUndefined JUndefined JUndefined Rejected Rejected 0%nat).
  lia.
Defined.

Lemma status_and_snr_agree_witness :
  exists resp,
    propagation noNumberToString noStringToNumber (@keepsOrder BandSummary)
      JUndefined JUndefined JUndefined JUndefined Rejected Rejected 0 =
    json200 resp /\
    Forall (fun b => In (band_snr b) (snrLabelsFor (band_status b)))
           (currentBands resp).
Proof.
  apply (@status_and_snr_agree noNumberToString noStringToNumber
           (@keepsOrder BandSummary)
           JUndefined JUndefined JUndefined JUndefined Rejected Rejected 0%nat).
  lia.
Defined.

(** Twenty-five lines that carry no spot, followed by the sample record. *)
Definition unusable_lines : list string := repeat "x" 25.

Lemma spots_come_from_first_25_lines_witness :
  hamqthSpots noNumberToString (unusable_lines ++ [sample_line]) =
  hamqthSpots noNumberToString unusable_lines.
Proof.
  apply (@spots_come_from_first_25_lines noNumberToString unusable_lines
           [sample_line]).
  apply Nat.le_refl.
Defined.

Lemma hamqth_time_is_unvalidated_witness :
  let timeDate := at_or_empty (split "^" sample_line) 4 in
  ((String.length timeDate < 4)%nat -> time sample_spot = JStr "") /\
  (forall a b c d rest,
      timeDate = String a (String b (String c (String d rest))) ->
      time sample_spot =
      JStr (String a (String b (String ":" (String c (String d "z")))))).
Proof.
  exact (@hamqth_time_is_unvalidated noNumberToString sample_line sample_spot
           eq_refl).
Defined.

(** A parser that knows one text, and a world in which HamQTH is down and
    DX Summit sends that text. *)
Definition parse_null_payload : string -> option jsval :=
  fun s => if String.eqb s "[null]" then Some (JArr [JNull]) else None.

Definition dxsummit_null : World :=
  fun s => match s with
           | DXSummit => Response true (Some "[null]")
           | _ => FetchRejected
           end.

Lemma null_record_discards_source_witness :
  dxSummitSpots noNumberToString (JArr [JNull]) = None /\
  dxHeatSpots noNumberToString (JArr [JNull]) = None /\
  snd (runDxcluster noNumberToString parse_null_payload dxsummit_null) =
  [HamQTH; DXSummit; DXHeat].
Proof.
  apply (@null_record_discards_source noNumberToString parse_null_payload
           dxsummit_null "[null]" [JNull]);
    [reflexivity | reflexivity | reflexivity | left; reflexivity].
Defined.

End MoreInstances.

(* ================================================================== *)
(** * Part XIV. Calendar arithmetic *)
(* ================================================================== *)

Module DateFacts.
Import Date.
Local Open Scope Z_scope.

Definition maxTime : Z := 8640000000000000.

Lemma TimeClip_inRange : forall t, - maxTime <= t <= maxTime -> TimeClip t = Some t.
Proof.
  intros t H. unfold TimeClip. fold maxTime.
  destruct (Z.leb_spec (Z.abs t) maxTime); [reflexivity|lia].
Qed.

Lemma TimeClip_outOfRange : forall t, maxTime < t -> TimeClip t = None.
Proof.
  intros t H. unfold TimeClip. fold maxTime.
  destruct (Z.leb_spec (Z.abs t) maxTime); [lia|reflexivity].
Qed.

Lemma Day_MakeDate : forall d tod,
  0 <= tod < msPerDay -> Day (MakeDate d tod) = d /\ TimeWithinDay (MakeDate d tod) = tod.
Proof.
  intros d tod H. unfold Day, TimeWithinDay, MakeDate, msPerDay in *.
  Z.div_mod_to_equations. lia.
Qed.

Lemma MakeDate_Day : forall t, MakeDate (Day t) (TimeWithinDay t) = t.
Proof.
  intro t. unfold Day, TimeWithinDay, MakeDate, msPerDay.
  Z.div_mod_to_equations. lia.
Qed.

Lemma TimeWithinDay_range : forall t, 0 <= TimeWithinDay t < msPerDay.
Proof. intro t. unfold TimeWithinDay, msPerDay. Z.div_mod_to_equations. lia. Qed.

Lemma DayFromYear_succ : forall y, DayFromYear (y + 1) = DayFromYear y + DaysInYear y.
Proof.
  intro y. unfold DayFromYear, DaysInYear.
  destruct (Z.eqb_spec (y mod 4) 0), (Z.eqb_spec (y mod 100) 0), (Z.eqb_spec (y mod 400) 0);
    cbn [negb]; Z.div_mod_to_equations; lia.
Qed.

Lemma DayFromYear_mono : forall a b, a <= b -> DayFromYear a <= DayFromYear b.
Proof. intros a b H. unfold DayFromYear. Z.div_mod_to_equations. lia. Qed.

Lemma DaysInYear_cases : forall y, DaysInYear y = 365 \/ DaysInYear y = 366.
Proof.
  intro y. unfold DaysInYear.
  destruct (negb _); [now left|]. destruct (negb _); [now right|].
  destruct (negb _); [now left|now right].
Qed.

(** [YearFromTime] is the year of the specification: the largest [y] with
    [TimeFromYear y <= t]. *)
Lemma YearFromTime_spec : forall t,
  DayFromYear (YearFromTime t) <= Day t < DayFromYear (YearFromTime t + 1).
Proof.
  intro t. unfold YearFromTime. cbv zeta.
  set (d := Day t). set (y := 1970 + (400 * d) / 146097).
  assert (H : DayFromYear (y - 1) <= d < DayFromYear (y + 2)).
  { unfold y, DayFromYear. Z.div_mod_to_equations. lia. }
  destruct (Z.ltb_spec d (DayFromYear y)).
  - replace (y - 1 + 1) with y by lia. lia.
  - destruct (Z.leb_spec (DayFromYear (y + 1)) d).
    + replace (y + 1 + 1) with (y + 2) by lia. lia.
    + lia.
Qed.

Lemma YearFromTime_unique : forall t y,
  DayFromYear y <= Day t < DayFromYear (y + 1) -> YearFromTime t = y.
Proof.
  intros t y H. pose proof (YearFromTime_spec t) as Hs.
  set (y' := YearFromTime t) in *.
  destruct (Z.lt_trichotomy y y') as [Hlt | [Heq | Hgt]]; [|now symmetry|].
  - pose proof (@DayFromYear_mono (y + 1) y' ltac:(lia)). lia.
  - pose proof (@DayFromYear_mono (y' + 1) y ltac:(lia)). lia.
Qed.

Lemma YearFromTime_largest : forall t y,
  TimeFromYear y <= t <-> y <= YearFromTime t.
Proof.
  intros t y. pose proof (YearFromTime_spec t) as Hs. unfold TimeFromYear.
  assert (Hd : msPerDay * DayFromYear y <= t <-> DayFromYear y <= Day t).
  { unfold Day, msPerDay. Z.div_mod_to_equations. lia. }
  rewrite Hd. split; intro H.
  - destruct (Z.le_gt_cases y (YearFromTime t)) as [|Hgt]; [assumption|].
    pose proof (@DayFromYear_mono (YearFromTime t + 1) y ltac:(lia)). lia.
  - pose proof (@DayFromYear_mono y (YearFromTime t) H). lia.
Qed.

Lemma leapYear_cases : forall y,
  (leapYear y = 0 /\ DaysInYear y = 365) \/ (leapYear y = 1 /\ DaysInYear y = 366).
Proof.
  intro y. unfold leapYear. destruct (DaysInYear_cases y) as [-> | ->]; auto.
Qed.

Lemma DayWithinYear_range : forall t,
  0 <= DayWithinYear t < DaysInYear (YearFromTime t).
Proof.
  intro t. unfold DayWithinYear. pose proof (YearFromTime_spec t) as H.
  rewrite DayFromYear_succ in H. lia.
Qed.

Lemma MonthFromTime_range : forall t, 0 <= MonthFromTime t <= 11.
Proof.
  intro t. unfold MonthFromTime. cbv zeta.
  repeat match goal with |- context [if ?c then _ else _] => destruct c end; lia.
Qed.

(** Month and date of a day of the year. *)
Lemma MonthFromTime_Date : forall t,
  daysBeforeMonth (InLeapYear t) (MonthFromTime t) + DateFromTime t - 1 = DayWithinYear t /\
  1 <= DateFromTime t <= DaysInMonth (YearFromTime t) (MonthFromTime t).
Proof.
  intro t. pose proof (DayWithinYear_range t) as Hr.
  unfold DateFromTime, MonthFromTime, DaysInMonth. cbv zeta.
  unfold InLeapYear in *.
  destruct (leapYear_cases (YearFromTime t)) as [(Hl & Hy) | (Hl & Hy)];
    rewrite Hl; rewrite Hy in Hr;
    set (d := DayWithinYear t) in *;
    repeat match goal with
           | |- context [if ?a <? ?b then _ else _] => destruct (Z.ltb_spec a b)
           end; cbn [daysBeforeMonth]; lia.
Qed.

Lemma MakeDay_in_year : forall y mn dt, 0 <= mn <= 11 ->
  MakeDay y mn dt = DayFromYear y + daysBeforeMonth (leapYear y) mn + dt - 1.
Proof.
  intros y mn dt H. unfold MakeDay. cbv zeta.
  replace (mn / 12) with 0 by (Z.div_mod_to_equations; lia).
  replace (mn mod 12) with mn by (Z.div_mod_to_equations; lia).
  now rewrite Z.add_0_r.
Qed.

Lemma MakeDay_normalize : forall y m dt,
  MakeDay y m dt = MakeDay (y + m / 12) (m mod 12) dt.
Proof.
  intros y m dt. unfold MakeDay. cbv zeta.
  replace ((m mod 12) / 12) with 0 by (Z.div_mod_to_equations; lia).
  replace ((m mod 12) mod 12) with (m mod 12) by (Z.div_mod_to_equations; lia).
  now rewrite Z.add_0_r.
Qed.

(** [MakeDay] undoes the three calendar functions. *)
Lemma MakeDay_inverse : forall t k,
  MakeDay (YearFromTime t) (MonthFromTime t) (DateFromTime t + k) = Day t + k.
Proof.
  intros t k. rewrite MakeDay_in_year by apply MonthFromTime_range.
  pose proof (MonthFromTime_Date t) as [H _]. unfold InLeapYear in H.
  unfold DayWithinYear in H. lia.
Qed.

(** Case analysis on a month number and on the leap flag of a year. *)
Ltac month_cases m :=
  let E := fresh "E" in
  assert (E : m = 0 \/ m = 1 \/ m = 2 \/ m = 3 \/ m = 4 \/ m = 5 \/ m = 6 \/
              m = 7 \/ m = 8 \/ m = 9 \/ m = 10 \/ m = 11) by lia;
  repeat (destruct E as [E | E]; [rewrite E in * |]); try rewrite E in *.

Ltac leap_cases y :=
  let H := fresh "Hleap" in
  let Hy := fresh "Hdays" in
  destruct (leapYear_cases y) as [(H & Hy) | (H & Hy)].

Ltac calendar :=
  cbv beta iota delta [daysBeforeMonth DaysInMonth] in *;
  repeat match goal with
         | H : leapYear ?y = _ |- _ => rewrite ?H in *; clear H
         end;
  try first [lia | reflexivity].

Lemma DaysInMonth_range : forall y mn, 28 <= DaysInMonth y mn <= 31.
Proof.
  intros y mn. unfold DaysInMonth.
  destruct (leapYear_cases y) as [(-> & _) | (-> & _)];
    destruct mn as [|p|p]; try lia;
    repeat (destruct p as [p|p|]; try lia).
Qed.

Lemma daysBeforeMonth_next : forall y mn, 0 <= mn <= 10 ->
  daysBeforeMonth (leapYear y) (mn + 1) = daysBeforeMonth (leapYear y) mn + DaysInMonth y mn.
Proof.
  intros y mn H. leap_cases y; month_cases mn; try lia; calendar.
Qed.

Lemma daysBeforeMonth_last : forall y,
  daysBeforeMonth (leapYear y) 11 + DaysInMonth y 11 = DaysInYear y.
Proof. intro y. leap_cases y; calendar. Qed.

(** The months, laid end to end, fill the year. *)
Lemma month_within_year : forall y mn dt,
  0 <= mn <= 11 -> 1 <= dt <= DaysInMonth y mn ->
  0 <= daysBeforeMonth (leapYear y) mn + dt - 1 < DaysInYear y.
Proof.
  intros y mn dt Hm Hd. leap_cases y; month_cases mn; calendar.
Qed.

(** A day of the year lies in one month only. *)
Lemma month_unique : forall y m1 d1 m2 d2,
  0 <= m1 <= 11 -> 1 <= d1 <= DaysInMonth y m1 ->
  0 <= m2 <= 11 -> 1 <= d2 <= DaysInMonth y m2 ->
  daysBeforeMonth (leapYear y) m1 + d1 = daysBeforeMonth (leapYear y) m2 + d2 ->
  m1 = m2 /\ d1 = d2.
Proof.
  intros y m1 d1 m2 d2 H1 Hd1 H2 Hd2 E.
  leap_cases y; month_cases m1; month_cases m2; calendar.
Qed.

(** The calendar functions undo [MakeDay] on a date of the calendar. *)
Lemma civil_of_MakeDay : forall y mn dt tod,
  0 <= mn <= 11 -> 1 <= dt <= DaysInMonth y mn -> 0 <= tod < msPerDay ->
  let t := MakeDate (MakeDay y mn dt) tod in
  YearFromTime t = y /\ MonthFromTime t = mn /\ DateFromTime t = dt.
Proof.
  intros y mn dt tod Hm Hd Htod t.
  destruct (@Day_MakeDate (MakeDay y mn dt) tod Htod) as [HD _]. fold t in HD.
  rewrite MakeDay_in_year in HD by assumption.
  pose proof (@month_within_year y mn dt Hm Hd) as Hdwy.
  assert (Hy : YearFromTime t = y).
  { apply YearFromTime_unique. rewrite DayFromYear_succ. lia. }
  pose proof (MonthFromTime_Date t) as [H1 H2].
  pose proof (MonthFromTime_range t) as Hmr.
  unfold InLeapYear, DayWithinYear in H1. rewrite Hy in *. rewrite HD in H1.
  split; [reflexivity|].
  apply (@month_unique y (MonthFromTime t) (DateFromTime t) mn dt); try assumption.
  lia.
Qed.

Lemma WeekDay_shift : forall t k,
  WeekDay (t + k * msPerDay) = (WeekDay t + k) mod 7.
Proof.
  intros t k. unfold WeekDay, Day.
  rewrite Z.div_add by (unfold msPerDay; lia).
  rewrite Zplus_mod_idemp_l. f_equal. lia.
Qed.

Lemma WeekDay_range : forall t, 0 <= WeekDay t <= 6.
Proof. intro t. unfold WeekDay. Z.div_mod_to_equations. lia. Qed.

Lemma setUTCDate_shift : forall t k,
  setUTCDate (Some t) (Some (DateFromTime t + k)) = TimeClip (t + k * msPerDay).
Proof.
  intros t k. unfold setUTCDate. rewrite MakeDay_inverse. f_equal.
  pose proof (MakeDate_Day t) as H. unfold MakeDate in *. lia.
Qed.


(** Every instant of the years -271000 to 275500 is a time value. *)
Lemma year_inRange : forall y d tod,
  -271000 <= y <= 275500 -> DayFromYear y <= d < DayFromYear (y + 1) ->
  0 <= tod < msPerDay ->
  - maxTime <= MakeDate d tod <= maxTime.
Proof.
  intros y d tod Hy Hd Htod. unfold MakeDate, maxTime, msPerDay, DayFromYear in *.
  Z.div_mod_to_equations. lia.
Qed.

Lemma MakeDay_year_range : forall y mn dt,
  0 <= mn <= 11 -> 1 <= dt <= DaysInMonth y mn ->
  DayFromYear y <= MakeDay y mn dt < DayFromYear (y + 1).
Proof.
  intros y mn dt Hm Hd. rewrite MakeDay_in_year by assumption.
  pose proof (@month_within_year y mn dt Hm Hd). rewrite DayFromYear_succ. lia.
Qed.

(** The last day of a month, as [Date.UTC(year, month + 1, 0)] finds it. *)
Lemma MakeDay_last : forall y mn, 0 <= mn <= 11 ->
  MakeDay y (mn + 1) 0 = MakeDay y mn (DaysInMonth y mn).
Proof.
  intros y mn H. assert (E : mn = 11 \/ 0 <= mn <= 10) by lia. destruct E as [-> | E].
  - rewrite MakeDay_normalize. change ((11 + 1) / 12) with 1. change ((11 + 1) mod 12) with 0.
    rewrite !MakeDay_in_year by lia. rewrite DayFromYear_succ.
    pose proof (daysBeforeMonth_last y). cbn [daysBeforeMonth] in *. lia.
  - rewrite !MakeDay_in_year by lia. rewrite daysBeforeMonth_next by assumption. lia.
Qed.

(** The first day of the next month. *)
Lemma MakeDay_first_next : forall y mn, 0 <= mn <= 11 ->
  MakeDay y mn (DaysInMonth y mn + 1) = MakeDay y (mn + 1) 1.
Proof. intros y mn H. pose proof (@MakeDay_last y mn H) as E. unfold MakeDay in *. lia. Qed.

Lemma setUTCDate_next : forall t,
  setUTCDate (Some t) (Some (DateFromTime t + 1)) = TimeClip (t + msPerDay).
Proof. intro t. rewrite setUTCDate_shift; f_equal; lia. Qed.

Lemma setUTCDate_previous : forall t,
  setUTCDate (Some t) (Some (DateFromTime t - 1)) = TimeClip (t - msPerDay).
Proof.
  intro t. replace (DateFromTime t - 1) with (DateFromTime t + -1) by lia.
  rewrite setUTCDate_shift; f_equal; lia.
Qed.

End DateFacts.

(* ================================================================== *)
(** * Part XV. The weekend helpers (lines 639-663) *)
(* ================================================================== *)

Section WeekendFacts.
Import Date DateFacts.
Local Open Scope Z_scope.

Lemma UTC_midnight : forall year mn dt,
  100 <= year ->
  UTC year mn dt 0 0 0 0 = TimeClip (MakeDay year mn dt * msPerDay).
Proof.
  intros year mn dt H. unfold UTC.
  destruct (Z.leb_spec year 99); [lia|]. rewrite andb_false_r.
  unfold MakeDate, MakeTime. f_equal. lia.
Qed.

Lemma midnight_day : forall d,
  Day (d * msPerDay) = d /\ TimeWithinDay (d * msPerDay) = 0.
Proof.
  intro d. unfold Day, TimeWithinDay, msPerDay. Z.div_mod_to_equations. lia.
Qed.

Lemma WeekDay_midnight : forall d, WeekDay (d * msPerDay) = (d + 4) mod 7.
Proof. intro d. unfold WeekDay. now rewrite (proj1 (midnight_day d)). Qed.

(** *** [getLastWeekendOfMonth] *)

(** From a valid date the loop steps back to the nearest Saturday, at
    most six days earlier. *)
Lemma lastWeekendLoop_steps : forall (j fuel : nat) t,
  Z.of_nat j = (WeekDay t + 1) mod 7 ->
  (j < fuel)%nat ->
  - maxTime <= t - Z.of_nat j * msPerDay -> t <= maxTime ->
  lastWeekendLoop fuel (Some t) = Returns (Some (t - Z.of_nat j * msPerDay)).
Proof.
  induction j as [|j IH]; intros fuel t Hj Hfuel Hlo Hhi.
  - destruct fuel as [|fuel]; [lia|]. cbn [lastWeekendLoop getUTCDay option_map equalTo].
    pose proof (WeekDay_range t) as Hw.
    assert (E : WeekDay t = 6) by (Z.div_mod_to_equations; lia).
    rewrite E. cbn [Z.eqb Pos.eqb negb]. do 2 f_equal. lia.
  - destruct fuel as [|fuel]; [lia|]. cbn [lastWeekendLoop getUTCDay option_map equalTo].
    pose proof (WeekDay_range t) as Hw.
    assert (E : WeekDay t <> 6) by (Z.div_mod_to_equations; lia).
    apply Z.eqb_neq in E. rewrite E. cbn [negb getUTCDate option_map].
    rewrite setUTCDate_previous.
    assert (Hj' : 0 <= Z.of_nat j) by lia.
    rewrite TimeClip_inRange by (unfold msPerDay in *; lia).
    rewrite IH.
    + do 2 f_equal. lia.
    + replace (t - msPerDay) with (t + -1 * msPerDay) by lia.
      rewrite WeekDay_shift. Z.div_mod_to_equations. lia.
    + lia.
    + unfold msPerDay in *. lia.
    + unfold msPerDay in *. lia.
Qed.

(** The last Saturday of a month, and the [n]th. *)
Definition lastSaturday (year month : Z) : Z :=
  let L := MakeDay year month (DaysInMonth year month) in
  (L - (WeekDay (L * msPerDay) + 1) mod 7) * msPerDay.

Definition nthSaturday (year month n : Z) : Z :=
  let D1 := MakeDay year month 1 in
  (D1 + ((6 - WeekDay (D1 * msPerDay)) mod 7 + 7 * (n - 1))) * msPerDay.

Lemma lastSaturday_facts : forall year month,
  -271000 <= year <= 275500 -> 0 <= month <= 11 ->
  let t := lastSaturday year month in
  - maxTime <= t <= maxTime /\
  WeekDay t = 6 /\ TimeWithinDay t = 0 /\
  YearFromTime t = year /\ MonthFromTime t = month /\
  DaysInMonth year month - 6 <= DateFromTime t <= DaysInMonth year month.
Proof.
  intros year month Hy Hm t. unfold t, lastSaturday. cbv zeta.
  pose proof (DaysInMonth_range year month) as Hdim.
  set (dim := DaysInMonth year month) in *.
  set (L := MakeDay year month dim).
  set (j := (WeekDay (L * msPerDay) + 1) mod 7).
  assert (Hj : 0 <= j <= 6) by (unfold j; Z.div_mod_to_equations; lia).
  pose proof (@MakeDay_year_range year month (dim - j) Hm ltac:(lia)) as HLj.
  assert (ELj : MakeDay year month (dim - j) = L - j) by (unfold L, MakeDay; lia).
  rewrite ELj in HLj.
  pose proof (@year_inRange year (L - j) 0 ltac:(lia) HLj ltac:(unfold msPerDay; lia)) as Hrj.
  unfold MakeDate in Hrj. rewrite Z.add_0_r in Hrj.
  split; [exact Hrj|].
  rewrite WeekDay_midnight. split.
  { unfold j. rewrite WeekDay_midnight. Z.div_mod_to_equations. lia. }
  split; [apply midnight_day|].
  pose proof (@civil_of_MakeDay year month (dim - j) 0 Hm ltac:(fold dim; lia)
                ltac:(unfold msPerDay; lia)) as Hc.
  cbv zeta in Hc. unfold MakeDate in Hc. rewrite Z.add_0_r, ELj in Hc.
  destruct Hc as (-> & -> & ->). repeat split; lia.
Qed.

Lemma getLastWeekendOfMonth_value : forall (fuel : nat) year month,
  (7 <= fuel)%nat -> 100 <= year <= 275000 -> 0 <= month <= 11 ->
  getLastWeekendOfMonth fuel year month = Returns (Some (lastSaturday year month)).
Proof.
  intros fuel year month Hfuel Hy Hm. unfold getLastWeekendOfMonth.
  rewrite UTC_midnight by lia. rewrite MakeDay_last by assumption.
  destruct (@lastSaturday_facts year month ltac:(lia) Hm) as (Hrj & _).
  unfold lastSaturday in *. cbv zeta in *.
  pose proof (DaysInMonth_range year month) as Hdim.
  set (dim := DaysInMonth year month) in *.
  set (L := MakeDay year month dim) in *.
  pose proof (@MakeDay_year_range year month dim Hm ltac:(lia)) as HL. fold L in HL.
  pose proof (@year_inRange year L 0 ltac:(lia) HL ltac:(unfold msPerDay; lia)) as Hr.
  unfold MakeDate in Hr. rewrite Z.add_0_r in Hr.
  rewrite TimeClip_inRange by assumption.
  set (j := (WeekDay (L * msPerDay) + 1) mod 7) in *.
  assert (Hj : 0 <= j <= 6) by (unfold j; Z.div_mod_to_equations; lia).
  rewrite (@lastWeekendLoop_steps (Z.to_nat j) fuel (L * msPerDay)); rewrite ?Z2Nat.id by lia;
    try (fold j; lia); try lia.
  do 2 f_equal. lia.
Qed.

(** X17.  [getLastWeekendOfMonth] returns after at most seven tests of its
    loop condition, and the date it returns is the last Saturday of the
    month: a Saturday at 00:00 UTC of that year and month, among the last
    seven days of the month. *)
Theorem last_weekend_is_last_saturday : forall (fuel : nat) year month,
  (7 <= fuel)%nat -> 100 <= year <= 275000 -> 0 <= month <= 11 ->
  exists t,
    getLastWeekendOfMonth fuel year month = Returns (Some t) /\
    WeekDay t = 6 /\ TimeWithinDay t = 0 /\
    YearFromTime t = year /\ MonthFromTime t = month /\
    DaysInMonth year month - 6 <= DateFromTime t <= DaysInMonth year month.
Proof.
  intros fuel year month Hfuel Hy Hm.
  exists (lastSaturday year month).
  split; [now apply getLastWeekendOfMonth_value|].
  apply (@lastSaturday_facts year month); lia.
Qed.

(** X18.  From the year 275761 on, [Date.UTC] gives an invalid date, whose
    day of the week is [NaN] and never 6: the loop of
    [getLastWeekendOfMonth] does not end, whatever the number of tests of
    its condition. *)
Theorem last_weekend_loops_on_invalid_date : forall (fuel : nat) year month,
  275761 <= year -> 0 <= month <= 11 ->
  getLastWeekendOfMonth fuel year month = OutOfFuel.
Proof.
  intros fuel year month Hy Hm. unfold getLastWeekendOfMonth.
  rewrite UTC_midnight by lia.
  rewrite TimeClip_outOfRange.
  - induction fuel as [|fuel IH]; [reflexivity|]. exact IH.
  - rewrite MakeDay_last by assumption.
    pose proof (DaysInMonth_range year month) as Hdim.
    pose proof (@MakeDay_year_range year month (DaysInMonth year month) Hm ltac:(lia)) as HL.
    pose proof (@DayFromYear_mono 275761 year ltac:(lia)) as Hmono.
    assert (H0 : DayFromYear 275761 = 100000110) by reflexivity.
    unfold maxTime, msPerDay. lia.
Qed.


(** *** [getNthWeekendOfMonth] *)

Section NthWeekend.
Variables year month n : Z.
Hypothesis Hyear : 100 <= year <= 275000.
Hypothesis Hmonth : 0 <= month <= 11.

Let D1 := MakeDay year month 1.
Let dim := DaysInMonth year month.
(** Days from the first of the month to its first Saturday. *)
Let k0 := (6 - WeekDay (D1 * msPerDay)) mod 7.
(** Where the loop stops: the [n]th Saturday if the month has one, the
    first day of the next month otherwise. *)
Let stop := if (1 <=? n) && (k0 + 7 * (n - 1) <? dim)
            then k0 + 7 * (n - 1) else dim.

Lemma day_of_month : forall i, 0 <= i < dim ->
  let t := (D1 + i) * msPerDay in
  - maxTime <= t <= maxTime /\
  YearFromTime t = year /\ MonthFromTime t = month /\ DateFromTime t = i + 1.
Proof using Hyear Hmonth.
  clear stop. intros i Hi t.
  assert (E : MakeDay year month (i + 1) = D1 + i) by (unfold D1, MakeDay; lia).
  pose proof (@MakeDay_year_range year month (i + 1) Hmonth ltac:(fold dim; lia)) as HL.
  pose proof (@year_inRange year _ 0 ltac:(lia) HL ltac:(unfold msPerDay; lia)) as Hr.
  pose proof (@civil_of_MakeDay year month (i + 1) 0 Hmonth ltac:(fold dim; lia)
                ltac:(unfold msPerDay; lia)) as Hc.
  cbv zeta in Hc. unfold MakeDate in Hr, Hc. rewrite Z.add_0_r, E in Hr, Hc.
  split; assumption.
Qed.

Lemma first_of_next_month :
  let t := (D1 + dim) * msPerDay in
  - maxTime <= t <= maxTime /\
  MonthFromTime t = (month + 1) mod 12 /\ DateFromTime t = 1 /\
  Some t = UTC year (month + 1) 1 0 0 0 0.
Proof using Hyear Hmonth.
  clear stop. intro t.
  assert (E : MakeDay year (month + 1) 1 = D1 + dim).
  { rewrite <- MakeDay_first_next by assumption. unfold D1, dim, MakeDay. lia. }
  rewrite MakeDay_normalize in E.
  set (y' := year + (month + 1) / 12) in *. set (m' := (month + 1) mod 12) in *.
  assert (Hm' : 0 <= m' <= 11) by (unfold m'; Z.div_mod_to_equations; lia).
  assert (Hy' : year <= y' <= year + 1) by (unfold y'; Z.div_mod_to_equations; lia).
  pose proof (DaysInMonth_range y' m') as Hd.
  pose proof (@MakeDay_year_range y' m' 1 Hm' ltac:(lia)) as HL.
  pose proof (@year_inRange y' _ 0 ltac:(lia) HL ltac:(unfold msPerDay; lia)) as Hr.
  pose proof (@civil_of_MakeDay y' m' 1 0 Hm' ltac:(lia) ltac:(unfold msPerDay; lia)) as Hc.
  cbv zeta in Hc. unfold MakeDate in Hr, Hc. rewrite Z.add_0_r, E in Hr, Hc.
  split; [exact Hr|]. split; [apply Hc|]. split; [apply Hc|].
  rewrite UTC_midnight by lia. rewrite MakeDay_normalize. fold y' m'. rewrite E.
  symmetry. now apply TimeClip_inRange.
Qed.

Lemma nthWeekendLoop_steps : forall (r fuel : nat) i c,
  Z.of_nat r = dim - i -> 0 <= i -> (r < fuel)%nat ->
  c = (i + 6 - k0) / 7 -> (n <= 0 \/ c < n) ->
  nthWeekendLoop fuel month n (Some ((D1 + i) * msPerDay)) c =
  Returns (Some ((D1 + stop) * msPerDay)).
Proof.
  assert (Hk0 : 0 <= k0 <= 6) by (unfold k0; Z.div_mod_to_equations; lia).
  induction r as [|r IH]; intros fuel i c Hr Hi Hfuel Hc Hn.
  - destruct fuel as [|fuel]; [lia|].
    assert (Ei : i = dim) by lia. subst i.
    destruct first_of_next_month as (_ & Hm & _).
    cbn [nthWeekendLoop getUTCMonth option_map equalTo]. rewrite Hm.
    assert (Hne : (month + 1) mod 12 <> month) by (Z.div_mod_to_equations; lia).
    apply Z.eqb_neq in Hne. rewrite Hne.
    do 3 f_equal. unfold stop.
    destruct (Z.leb_spec 1 n); [|reflexivity].
    destruct (Z.ltb_spec (k0 + 7 * (n - 1)) dim); [|reflexivity].
    exfalso. subst c. Z.div_mod_to_equations. lia.
  - destruct fuel as [|fuel]; [lia|].
    destruct (@day_of_month i ltac:(lia)) as (Hrange & Hy & Hm & Hd).
    cbn [nthWeekendLoop getUTCMonth getUTCDay getUTCDate option_map equalTo].
    rewrite Hm, Z.eqb_refl.
    rewrite setUTCDate_next.
    replace ((D1 + i) * msPerDay + msPerDay) with ((D1 + (i + 1)) * msPerDay) by lia.
    assert (Hnext : TimeClip ((D1 + (i + 1)) * msPerDay) = Some ((D1 + (i + 1)) * msPerDay)).
    { apply TimeClip_inRange.
      assert (E : i + 1 = dim \/ i + 1 < dim) by lia. destruct E as [E | E].
      - rewrite E. apply first_of_next_month.
      - apply (@day_of_month (i + 1)). lia. }
    rewrite Hnext.
    assert (Hw : WeekDay ((D1 + i) * msPerDay) = 6 <-> (i - k0) mod 7 = 0).
    { rewrite WeekDay_midnight. unfold k0. rewrite WeekDay_midnight.
      Z.div_mod_to_equations. lia. }
    destruct (Z.eqb_spec (WeekDay ((D1 + i) * msPerDay)) 6) as [Hsat | Hsat].
    + apply Hw in Hsat.
      destruct (Z.eqb_spec (c + 1) n) as [Hcn | Hcn].
      * do 3 f_equal. unfold stop.
        assert (Etgt : k0 + 7 * (n - 1) = i) by (subst c; Z.div_mod_to_equations; lia).
        rewrite Etgt.
        destruct (Z.leb_spec 1 n); [|subst c; Z.div_mod_to_equations; lia].
        destruct (Z.ltb_spec i dim); [reflexivity|lia].
      * apply IH; try lia.
        -- subst c. Z.div_mod_to_equations. lia.
    + assert (Hns : (i - k0) mod 7 <> 0) by (intro H; apply Hsat, Hw, H).
      apply IH; try lia.
      subst c. Z.div_mod_to_equations. lia.
Qed.

Lemma getNthWeekendOfMonth_stop : forall fuel : nat,
  (32 <= fuel)%nat ->
  getNthWeekendOfMonth fuel year month n = Returns (Some ((D1 + stop) * msPerDay)).
Proof.
  intros fuel Hfuel. unfold getNthWeekendOfMonth.
  rewrite UTC_midnight by lia. fold D1.
  pose proof (DaysInMonth_range year month) as Hdim. fold dim in Hdim.
  destruct (@day_of_month 0 ltac:(lia)) as (Hr & _).
  rewrite Z.add_0_r in Hr. rewrite TimeClip_inRange by assumption.
  replace (D1 * msPerDay) with ((D1 + 0) * msPerDay) by lia.
  assert (Hk0 : 0 <= k0 <= 6) by (unfold k0; Z.div_mod_to_equations; lia).
  apply (@nthWeekendLoop_steps (Z.to_nat dim) fuel 0 0); try lia.
  - Z.div_mod_to_equations. lia.
Qed.

End NthWeekend.

Lemma nthSaturday_facts : forall year month n,
  100 <= year <= 275000 -> 0 <= month <= 11 -> 1 <= n <= 4 ->
  let t := nthSaturday year month n in
  - maxTime <= t <= maxTime /\
  WeekDay t = 6 /\ TimeWithinDay t = 0 /\
  YearFromTime t = year /\ MonthFromTime t = month /\
  7 * n - 6 <= DateFromTime t <= 7 * n.
Proof.
  intros year month n Hy Hm Hn t. unfold t, nthSaturday. cbv zeta.
  pose proof (DaysInMonth_range year month) as Hdim.
  set (D1 := MakeDay year month 1).
  set (k0 := (6 - WeekDay (D1 * msPerDay)) mod 7).
  assert (Hk0 : 0 <= k0 <= 6) by (unfold k0; Z.div_mod_to_equations; lia).
  destruct (@day_of_month year month Hy Hm (k0 + 7 * (n - 1)) ltac:(lia))
    as (Hr & Hyear & Hmonth & Hdate).
  fold D1 in Hr, Hyear, Hmonth, Hdate.
  split; [exact Hr|]. split.
  { rewrite WeekDay_midnight. unfold k0. rewrite WeekDay_midnight.
    Z.div_mod_to_equations. lia. }
  split; [apply midnight_day|].
  rewrite Hyear, Hmonth, Hdate. repeat split; lia.
Qed.

Lemma getNthWeekendOfMonth_value : forall (fuel : nat) year month n,
  (32 <= fuel)%nat -> 100 <= year <= 275000 -> 0 <= month <= 11 -> 1 <= n <= 4 ->
  getNthWeekendOfMonth fuel year month n = Returns (Some (nthSaturday year month n)).
Proof.
  intros fuel year month n Hfuel Hy Hm Hn.
  rewrite (@getNthWeekendOfMonth_stop year month n Hy Hm fuel Hfuel).
  pose proof (DaysInMonth_range year month) as Hdim.
  unfold nthSaturday. cbv zeta.
  set (D1 := MakeDay year month 1).
  set (k0 := (6 - WeekDay (D1 * msPerDay)) mod 7).
  assert (Hk0 : 0 <= k0 <= 6) by (unfold k0; Z.div_mod_to_equations; lia).
  destruct (Z.leb_spec 1 n); [|lia].
  destruct (Z.ltb_spec (k0 + 7 * (n - 1)) (DaysInMonth year month)); [|lia].
  reflexivity.
Qed.

(** X19.  For a weekend number [n] from 1 to 4, [getNthWeekendOfMonth]
    returns after at most 32 tests of its loop condition, and the date it
    returns is the [n]-th Saturday of the month: a Saturday at 00:00 UTC of
    that year and month whose day of the month lies between [7n - 6] and
    [7n]. *)
Theorem nth_weekend_is_nth_saturday : forall (fuel : nat) year month n,
  (32 <= fuel)%nat -> 100 <= year <= 275000 -> 0 <= month <= 11 -> 1 <= n <= 4 ->
  exists t,
    getNthWeekendOfMonth fuel year month n = Returns (Some t) /\
    WeekDay t = 6 /\ TimeWithinDay t = 0 /\
    YearFromTime t = year /\ MonthFromTime t = month /\
    7 * n - 6 <= DateFromTime t <= 7 * n.
Proof.
  intros fuel year month n Hfuel Hy Hm Hn.
  exists (nthSaturday year month n).
  split; [now apply getNthWeekendOfMonth_value|].
  now apply nthSaturday_facts.
Qed.

(** X20.  For [n <= 0] or [n >= 6] no Saturday of the month is the [n]-th:
    the loop runs off the end of the month and the function returns the
    first day of the following month, not a date of the month asked for. *)
Theorem nth_weekend_missing_is_next_month : forall (fuel : nat) year month n,
  (32 <= fuel)%nat -> 100 <= year <= 275000 -> 0 <= month <= 11 ->
  n <= 0 \/ 6 <= n ->
  exists t,
    getNthWeekendOfMonth fuel year month n = Returns (Some t) /\
    UTC year (month + 1) 1 0 0 0 0 = Some t /\
    MonthFromTime t = (month + 1) mod 12 /\ DateFromTime t = 1.
Proof.
  intros fuel year month n Hfuel Hy Hm Hn.
  rewrite (@getNthWeekendOfMonth_stop year month n Hy Hm fuel Hfuel).
  pose proof (DaysInMonth_range year month) as Hdim.
  set (D1 := MakeDay year month 1).
  set (k0 := (6 - WeekDay (D1 * msPerDay)) mod 7).
  assert (Hk0 : 0 <= k0 <= 6) by (unfold k0; Z.div_mod_to_equations; lia).
  assert (E : (1 <=? n) && (k0 + 7 * (n - 1) <? DaysInMonth year month) = false).
  { destruct (Z.leb_spec 1 n); [|reflexivity].
    destruct (Z.ltb_spec (k0 + 7 * (n - 1)) (DaysInMonth year month)); [lia|reflexivity]. }
  rewrite E.
  destruct (@first_of_next_month year month Hy Hm) as (_ & Hmonth & Hdate & Hutc).
  fold D1 in Hmonth, Hdate, Hutc.
  eexists. split; [reflexivity|]. split; [now symmetry|]. split; assumption.
Qed.

End WeekendFacts.

(* ================================================================== *)
(** * Part XVI. Dates printed and read back *)
(* ================================================================== *)

Section IsoFacts.
Import Date DateFacts.
Local Open Scope Z_scope.

(** The text [toISOString] gives for a time value. *)
Definition isoString (t : Z) : string :=
  (yearString (YearFromTime t) ++ "-" ++
   padStart 2 (MonthFromTime t + 1) ++ "-" ++
   padStart 2 (DateFromTime t) ++ "T" ++
   padStart 2 (HourFromTime t) ++ ":" ++
   padStart 2 (MinFromTime t) ++ ":" ++
   padStart 2 (SecFromTime t) ++ "." ++
   padStart 3 (msFromTime t) ++ "Z")%string.

Lemma toISOString_valid : forall t, toISOString (Some t) = Some (isoString t).
Proof. reflexivity. Qed.

(** Reading back a padded number. *)
Definition readsBack (k : nat) (n : Z) : bool :=
  match readFixed k 0 (padStart k n) with
  | Some (m, EmptyString) => m =? n
  | _ => false
  end.

Lemma readFixed_app : forall k acc s v rest,
  readFixed k acc s = Some (v, EmptyString) ->
  readFixed k acc (s ++ rest) = Some (v, rest).
Proof.
  induction k as [|k IH]; intros acc s v rest H; cbn [readFixed] in *.
  - injection H as <- ->. reflexivity.
  - destruct s as [|c s]; [discriminate|]. cbn [String.append].
    destruct (digitValue c); [|discriminate]. now apply IH.
Qed.

Lemma below_all : forall (P : Z -> bool) (N : Z),
  forallb P (map Z.of_nat (seq 0 (Z.to_nat N))) = true ->
  forall n, 0 <= n < N -> P n = true.
Proof.
  intros P N H n Hn. rewrite forallb_forall in H. apply H.
  apply in_map_iff. exists (Z.to_nat n). split; [lia|]. apply in_seq. lia.
Qed.

Lemma readsBack_2 : forall n, 0 <= n < 100 -> readsBack 2 n = true.
Proof. apply (@below_all (readsBack 2) 100). vm_compute. reflexivity. Qed.

Lemma readsBack_3 : forall n, 0 <= n < 1000 -> readsBack 3 n = true.
Proof. apply (@below_all (readsBack 3) 1000). vm_compute. reflexivity. Qed.

Lemma readsBack_4 : forall n, 0 <= n < 10000 -> readsBack 4 n = true.
Proof. apply (@below_all (readsBack 4) 10000). vm_compute. reflexivity. Qed.

Lemma readFixed_padStart : forall k n rest,
  readsBack k n = true ->
  readFixed k 0 (padStart k n ++ rest) = Some (n, rest).
Proof.
  intros k n rest H. unfold readsBack in H.
  destruct (readFixed k 0 (padStart k n)) as [[m s]|] eqn:E; [|discriminate].
  destruct s; [|discriminate]. apply Z.eqb_eq in H. subst m.
  now apply readFixed_app.
Qed.

Lemma time_fields : forall t,
  0 <= HourFromTime t <= 23 /\ 0 <= MinFromTime t <= 59 /\
  0 <= SecFromTime t <= 59 /\ 0 <= msFromTime t <= 999 /\
  MakeTime (HourFromTime t) (MinFromTime t) (SecFromTime t) (msFromTime t) =
  TimeWithinDay t.
Proof.
  intro t.
  unfold HourFromTime, MinFromTime, SecFromTime, msFromTime, MakeTime, TimeWithinDay,
    msPerHour, msPerMinute, msPerSecond, msPerDay.
  Z.div_mod_to_equations. lia.
Qed.

(** [Date.parse] reads back what [toISOString] prints, for the years that
    are printed with four digits. *)
Lemma parseComplete_isoString : forall t,
  0 <= YearFromTime t <= 9999 -> parseComplete (isoString t) = Some t.
Proof.
  intros t Hy.
  destruct (time_fields t) as (Hh & Hmi & Hs & Hms & Htime).
  pose proof (MonthFromTime_range t) as Hm.
  pose proof (MonthFromTime_Date t) as [_ Hd].
  pose proof (DaysInMonth_range (YearFromTime t) (MonthFromTime t)) as Hdim.
  unfold parseComplete, isoString, yearString.
  destruct (Z.leb_spec 0 (YearFromTime t)); [|lia].
  destruct (Z.leb_spec (YearFromTime t) 9999); [|lia]. cbn [andb].
  rewrite readFixed_padStart by (apply readsBack_4; lia).
  cbn [bindOpt snd fst expect String.append Ascii.eqb Bool.eqb].
  rewrite readFixed_padStart by (apply readsBack_2; lia).
  cbn [bindOpt snd fst expect String.append Ascii.eqb Bool.eqb].
  rewrite readFixed_padStart by (apply readsBack_2; lia).
  cbn [bindOpt snd fst expect String.append Ascii.eqb Bool.eqb].
  rewrite readFixed_padStart by (apply readsBack_2; lia).
  cbn [bindOpt snd fst expect String.append Ascii.eqb Bool.eqb].
  rewrite readFixed_padStart by (apply readsBack_2; lia).
  cbn [bindOpt snd fst expect String.append Ascii.eqb Bool.eqb].
  rewrite readFixed_padStart by (apply readsBack_2; lia).
  cbn [bindOpt snd fst expect String.append Ascii.eqb Bool.eqb].
  rewrite readFixed_padStart by (apply readsBack_3; lia).
  cbn [bindOpt snd fst expect String.append Ascii.eqb Bool.eqb].
  replace (MonthFromTime t + 1 - 1) with (MonthFromTime t) by lia.
  repeat match goal with
         | |- context [?a <=? ?b] => destruct (Z.leb_spec a b); [|lia]
         end.
  cbn [andb]. f_equal.
  replace (DateFromTime t) with (DateFromTime t + 0) by lia.
  rewrite MakeDay_inverse, Z.add_0_r, Htime. apply MakeDate_Day.
Qed.

Variable parseOther : string -> date.

Lemma parse_isoString : forall t,
  0 <= YearFromTime t <= 9999 -> parse parseOther (isoString t) = Some t.
Proof. intros t H. unfold parse. now rewrite parseComplete_isoString. Qed.

End IsoFacts.

(* ================================================================== *)
(** * Part XVII. Properties of the computed calendar (lines 538-637) *)
(* ================================================================== *)

Section CalendarFacts.
Import Date DateFacts.
Local Open Scope string_scope.
Local Open Scope Z_scope.

Variable parseOther : string -> date.
Variable LocalTZA : Z -> Z.

(** The clock reads a time between 1970 and 9990. *)
Definition saneClock (now : Z) : Prop := 0 <= now < TimeFromYear 9990.

(** An entry of the computed calendar that starts at [ts] and ends at
    [te]. *)
Definition calendarEntry (now : Z) (name mode : string) (ts te : Z) : Contest :=
  {| contest_name := JStr name;
     contest_start := isoString ts;
     contest_end := isoString te;
     contest_mode := JStr mode;
     contest_status := if (ts <=? now) && (now <=? te) then "active" else "upcoming";
     contest_url := None |}.

Lemma after_ms : forall t duration ms,
  (duration * 3600000 == inject_Z ms)%Q ->
  after (Some t) duration = TimeClip (t + ms).
Proof.
  intros t duration ms H. unfold after, ofNumber, TimeClip.
  assert (E : (inject_Z t + duration * 3600000 == inject_Z (t + ms))%Q).
  { rewrite H, inject_Z_plus. reflexivity. }
  rewrite (Qfloor_comp _ _ E), (Qceiling_comp _ _ E), Qfloor_Z, Qceiling_Z.
  assert (Eabs : Qle_bool (Qabs (inject_Z t + duration * 3600000)) 8640000000000000 =
                 (Z.abs (t + ms) <=? 8640000000000000)).
  { assert (Hiff : (Qabs (inject_Z t + duration * 3600000) <= 8640000000000000)%Q <->
                    Z.abs (t + ms) <= 8640000000000000).
    { rewrite E. unfold Qle, Qabs, inject_Z. cbn [Qnum Qden]. lia. }
    destruct (Z.leb_spec (Z.abs (t + ms)) 8640000000000000) as [Hle | Hgt].
    - apply Qle_bool_iff, Hiff, Hle.
    - destruct (Qle_bool _ _) eqn:Eb; [|reflexivity].
      apply Qle_bool_iff, Hiff in Eb. lia. }
  rewrite Eabs. destruct (Z.abs (t + ms) <=? 8640000000000000); [|reflexivity].
  now destruct (Qle_bool 0 _).
Qed.

Lemma YearFromTime_bounds : forall t lo hi,
  TimeFromYear lo <= t < TimeFromYear hi -> lo <= YearFromTime t < hi.
Proof.
  intros t lo hi [H1 H2]. split.
  - now apply YearFromTime_largest.
  - destruct (Z.lt_ge_cases (YearFromTime t) hi) as [|Hge]; [assumption|].
    apply YearFromTime_largest in Hge. lia.
Qed.

Lemma TimeFromYear_mono : forall a b, a <= b -> TimeFromYear a <= TimeFromYear b.
Proof.
  intros a b H. unfold TimeFromYear. pose proof (DayFromYear_mono H).
  unfold msPerDay. lia.
Qed.

Lemma TimeFromYear_step : forall y,
  TimeFromYear y + 365 * msPerDay <= TimeFromYear (y + 1).
Proof.
  intro y. unfold TimeFromYear. rewrite DayFromYear_succ.
  destruct (DaysInYear_cases y) as [-> | ->]; unfold msPerDay; lia.
Qed.

(** *** Weekly contests *)

(** The time of day at which a weekly contest starts. *)
Definition weeklyTimeOfDay (c : WeeklyContest) : Z :=
  MakeTime (weekly_hour c) (minuteOf c) 0 0.

Definition weeklyStart (now : Z) (c : WeeklyContest) : Z :=
  MakeDate (Day now + daysUntilNext now c) (weeklyTimeOfDay c).

Lemma weekly_table : forall c, In c weeklyContests ->
  0 <= weekly_dayOfWeek c <= 6 /\ 0 <= weeklyTimeOfDay c < msPerDay /\
  exists ms, (weekly_duration c * 3600000 == inject_Z ms)%Q /\ 0 < ms <= 3600000.
Proof.
  intros c H. unfold weeklyContests in H. cbn [In] in H.
  repeat (destruct H as [<- | H];
          [split; [cbn; lia|]; split; [vm_compute; split; [discriminate|reflexivity]|];
           first [ exists 3600000; split; [reflexivity|lia]
                 | exists 1800000; split; [reflexivity|lia] ] |]).
  contradiction.
Qed.

Lemma saneClock_range : forall now k,
  saneClock now -> 0 <= k <= 10 * msPerDay ->
  - maxTime <= now + k <= maxTime /\
  TimeFromYear 0 <= now + k < TimeFromYear 10000.
Proof.
  intros now k [H1 H2] Hk. unfold maxTime.
  assert (E1 : TimeFromYear 9990 = 253086768000000) by reflexivity.
  assert (E2 : TimeFromYear 10000 = 253402300800000) by reflexivity.
  assert (E3 : TimeFromYear 0 = -62167219200000) by reflexivity.
  unfold msPerDay in *. lia.
Qed.

Lemma today_at : forall now tod,
  saneClock now -> 0 <= tod < msPerDay ->
  TimeClip (MakeDate (Day now) tod) = Some (MakeDate (Day now) tod).
Proof.
  intros now tod Hsane Htod. apply TimeClip_inRange.
  pose proof (MakeDate_Day now) as Hnow. pose proof (TimeWithinDay_range now) as Hr.
  destruct (@saneClock_range now 0 Hsane ltac:(unfold msPerDay; lia)) as (H0 & _).
  destruct (@saneClock_range now msPerDay Hsane ltac:(unfold msPerDay; lia)) as (H1 & _).
  destruct Hsane. unfold MakeDate, maxTime, msPerDay in *. lia.
Qed.

(** The next start is today or within the six days that follow, on the
    day of the week of the contest, and it is not in the past. *)
Lemma daysUntilNext_facts : forall now c,
  saneClock now -> In c weeklyContests ->
  let k := daysUntilNext now c in
  0 <= k <= 7 /\ (WeekDay now + k) mod 7 = weekly_dayOfWeek c /\
  now <= weeklyStart now c < now + 7 * msPerDay.
Proof using.
  clear LocalTZA.
  intros now c Hsane Hc k.
  destruct (@weekly_table c Hc) as (Hd & Htod & _).
  unfold weeklyStart. fold k. unfold k, daysUntilNext. cbv zeta.
  unfold setUTCHours. fold (weeklyTimeOfDay c).
  rewrite (today_at Hsane Htod). cbn [lt].
  set (tod := weeklyTimeOfDay c) in *. clearbody tod.
  pose proof (WeekDay_range now) as Hw.
  pose proof (MakeDate_Day now) as Hnow. pose proof (TimeWithinDay_range now) as Hr.
  set (w := WeekDay now) in *. clearbody w.
  set (dow := weekly_dayOfWeek c) in *. clearbody dow.
  unfold MakeDate in *. set (d := Day now) in *. clearbody d.
  set (r := TimeWithinDay now) in *. clearbody r.
  unfold msPerDay in *.
  destruct (Z.ltb_spec (dow - w) 0);
    match goal with |- context [if ?a =? ?b then _ else _] => destruct (Z.eqb_spec a b) end;
    try match goal with |- context [if ?a <? ?b then _ else _] => destruct (Z.ltb_spec a b) end;
    (split; [lia|]); (split; [Z.div_mod_to_equations; lia|]); lia.
Qed.

Lemma weeklyStart_facts : forall now c,
  saneClock now -> In c weeklyContests ->
  let ts := weeklyStart now c in
  now <= ts < now + 7 * msPerDay /\
  WeekDay ts = weekly_dayOfWeek c /\
  TimeWithinDay ts = weeklyTimeOfDay c.
Proof using.
  clear LocalTZA.
  intros now c Hsane Hc ts.
  destruct (@weekly_table c Hc) as (Hd & Htod & _).
  destruct (@daysUntilNext_facts now c Hsane Hc) as (Hk & Hdow & Hts).
  split; [exact Hts|]. unfold ts, weeklyStart.
  destruct (@Day_MakeDate (Day now + daysUntilNext now c) (weeklyTimeOfDay c) Htod)
    as [HD HT].
  split; [|exact HT].
  unfold WeekDay at 1. rewrite HD. unfold WeekDay in Hdow.
  rewrite <- Hdow. rewrite Zplus_mod_idemp_l. f_equal. lia.
Qed.

Lemma weeklyEntry_value : forall now c,
  saneClock now -> In c weeklyContests ->
  exists ms,
    (weekly_duration c * 3600000 == inject_Z ms)%Q /\ 0 < ms <= 3600000 /\
    weeklyEntry now c =
    Returns [calendarEntry now (weekly_name c) (weekly_mode c)
               (weeklyStart now c) (weeklyStart now c + ms)].
Proof using.
  clear LocalTZA.
  intros now c Hsane Hc.
  destruct (@weekly_table c Hc) as (Hd & Htod & ms & Hdur & Hms).
  exists ms. split; [exact Hdur|]. split; [exact Hms|].
  destruct (@daysUntilNext_facts now c Hsane Hc) as (Hk & _ & Hts).
  unfold weeklyEntry. cbv zeta.
  set (k := daysUntilNext now c) in *.
  rewrite setUTCDate_shift.
  assert (Hk10 : 0 <= k * msPerDay <= 10 * msPerDay)
    by (clearbody k; unfold msPerDay; lia).
  destruct (@saneClock_range now (k * msPerDay) Hsane Hk10) as (Hr1 & _).
  rewrite TimeClip_inRange by exact Hr1.
  unfold setUTCHours. fold (weeklyTimeOfDay c).
  replace (Day (now + k * msPerDay)) with (Day now + k)
    by (unfold Day; rewrite Z.div_add by (unfold msPerDay; lia); reflexivity).
  change (MakeDate (Day now + k) (weeklyTimeOfDay c)) with (weeklyStart now c).
  set (ts := weeklyStart now c) in *.
  assert (Hts10 : 0 <= ts - now <= 10 * msPerDay)
    by (clearbody ts k; unfold msPerDay in *; lia).
  destruct (@saneClock_range now (ts - now) Hsane Hts10) as (Hr2 & _).
  replace (now + (ts - now)) with ts in Hr2 by lia.
  rewrite (TimeClip_inRange Hr2).
  rewrite (@after_ms ts (weekly_duration c) ms Hdur).
  assert (Hte10 : 0 <= ts + ms - now <= 10 * msPerDay)
    by (clearbody ts k; unfold msPerDay in *; lia).
  destruct (@saneClock_range now (ts + ms - now) Hsane Hte10) as (Hr3 & _).
  replace (now + (ts + ms - now)) with (ts + ms) in Hr3 by lia.
  rewrite (TimeClip_inRange Hr3).
  rewrite !toISOString_valid. reflexivity.
Qed.

(** *** Major contests *)

(** The Saturday on which a major contest starts in year [y]. *)
Definition occurrenceStart (c : MajorContest) (y : Z) : Z :=
  if major_weekend c =? -1 then lastSaturday y (major_month c)
  else nthSaturday y (major_month c) (major_weekend c).

Lemma major_table : forall c, In c majorContests ->
  0 <= major_month c <= 11 /\
  (major_weekend c = -1 \/ 1 <= major_weekend c <= 4) /\
  exists h, major_duration c = inject_Z h /\ 12 <= h <= 48 /\
            (h < 24 -> 2 <= major_weekend c).
Proof.
  intros c H. unfold majorContests in H. cbn [In] in H.
  repeat (destruct H as [<- | H];
          [cbn [major_month major_weekend major_duration];
           split; [lia|]; split; [lia|];
           first [ exists 48; split; [reflexivity|lia]
                 | exists 24; split; [reflexivity|lia]
                 | exists 27; split; [reflexivity|lia]
                 | exists 12; split; [reflexivity|lia]
                 | exists 42; split; [reflexivity|lia] ] |]).
  contradiction.
Qed.

Lemma daysBeforeMonth_nonneg : forall y mn, 0 <= daysBeforeMonth (leapYear y) mn.
Proof.
  intros y mn. leap_cases y; rewrite Hleap;
    destruct mn as [|p|p]; try (cbn; lia);
    repeat (destruct p as [p|p|]; try (cbn; lia)).
Qed.

Lemma time_in_year : forall t,
  TimeFromYear (YearFromTime t) <= t < TimeFromYear (YearFromTime t + 1).
Proof.
  intro t. pose proof (YearFromTime_spec t) as H. unfold TimeFromYear.
  pose proof (MakeDate_Day t) as E. pose proof (TimeWithinDay_range t) as Hr.
  unfold MakeDate, msPerDay in *. lia.
Qed.

Lemma occurrence_facts : forall c y,
  In c majorContests -> 100 <= y <= 275000 ->
  let S := occurrenceStart c y in
  - maxTime <= S <= maxTime /\ TimeWithinDay S = 0 /\ WeekDay S = 6 /\
  YearFromTime S = y /\ MonthFromTime S = major_month c /\
  (2 <= major_weekend c -> TimeFromYear y + 7 * msPerDay <= S).
Proof.
  intros c y Hc Hy S.
  destruct (@major_table c Hc) as (Hm & Hw & _).
  assert (H : - maxTime <= S <= maxTime /\ WeekDay S = 6 /\ TimeWithinDay S = 0 /\
              YearFromTime S = y /\ MonthFromTime S = major_month c /\
              (2 <= major_weekend c -> 8 <= DateFromTime S)).
  { unfold S, occurrenceStart. destruct Hw as [-> | Hw].
    - change (-1 =? -1) with true. cbv iota.
      destruct (@lastSaturday_facts y (major_month c) ltac:(lia) Hm)
        as (H1 & H2 & H3 & H4 & H5 & _).
      repeat split; try assumption; lia.
    - destruct (Z.eqb_spec (major_weekend c) (-1)); [lia|].
      destruct (@nthSaturday_facts y (major_month c) (major_weekend c) Hy Hm Hw)
        as (H1 & H2 & H3 & H4 & H5 & H6).
      repeat split; try assumption; lia. }
  destruct H as (H1 & H2 & H3 & H4 & H5 & H6).
  repeat split; try assumption; try lia.
  intro Hw2. specialize (H6 Hw2).
  pose proof (MonthFromTime_Date S) as [E _].
  unfold InLeapYear, DayWithinYear in E. rewrite H4 in E.
  pose proof (daysBeforeMonth_nonneg y (MonthFromTime S)) as Hnn.
  pose proof (MakeDate_Day S) as ES. rewrite H3 in ES.
  unfold TimeFromYear, MakeDate, msPerDay in *. lia.
Qed.

Lemma majorOccurrence_value : forall (fuel : nat) now c y,
  (32 <= fuel)%nat -> In c majorContests -> 100 <= y <= 9997 ->
  exists ms,
    (major_duration c * 3600000 == inject_Z ms)%Q /\
    12 * 3600000 <= ms <= 2 * msPerDay /\
    (ms < msPerDay -> 2 <= major_weekend c) /\
    let S := occurrenceStart c y in
    majorOccurrence fuel now c y =
    Returns (if now <? S + ms
             then Some (calendarEntry now (major_name c) (major_mode c) S (S + ms))
             else None).
Proof.
  intros fuel now c y Hfuel Hc Hy.
  destruct (@major_table c Hc) as (Hm & Hw & h & Hdur & Hh & Hshort).
  exists (h * 3600000). split.
  { rewrite Hdur, inject_Z_mult. reflexivity. }
  split; [unfold msPerDay; lia|]. split; [unfold msPerDay; intro; apply Hshort; lia|].
  intro S.
  destruct (@occurrence_facts c y Hc ltac:(lia)) as (Hr & Htod & _ & Hyear & _).
  fold S in Hr, Htod, Hyear.
  unfold majorOccurrence.
  assert (Estart : (if major_weekend c =? -1
                    then getLastWeekendOfMonth fuel y (major_month c)
                    else getNthWeekendOfMonth fuel y (major_month c) (major_weekend c)) =
                   Returns (Some S)).
  { unfold S, occurrenceStart. destruct Hw as [-> | Hw].
    - change (-1 =? -1) with true. cbv iota.
      apply getLastWeekendOfMonth_value; lia.
    - destruct (Z.eqb_spec (major_weekend c) (-1)); [lia|].
      apply getNthWeekendOfMonth_value; lia. }
  rewrite Estart. cbn [andThen].
  assert (Emid : setUTCHours (Some S) 0 0 0 0 = Some S).
  { unfold setUTCHours. pose proof (MakeDate_Day S) as E. rewrite Htod in E.
    change (MakeTime 0 0 0 0) with 0. rewrite E. now apply TimeClip_inRange. }
  rewrite Emid.
  rewrite (@after_ms S (major_duration c) (h * 3600000))
    by (rewrite Hdur, inject_Z_mult; reflexivity).
  assert (Hend : - maxTime <= S + h * 3600000 <= maxTime).
  { pose proof (time_in_year S) as Hin. rewrite Hyear in Hin.
    pose proof (@TimeFromYear_mono 100 y ltac:(lia)) as H1.
    pose proof (@TimeFromYear_mono (y + 1) 9998 ltac:(lia)) as H2.
    assert (E1 : TimeFromYear 100 = -59011459200000) by reflexivity.
    assert (E2 : TimeFromYear 9998 = 253339228800000) by reflexivity.
    unfold maxTime. lia. }
  rewrite (TimeClip_inRange Hend). cbn [lt].
  destruct (now <? S + h * 3600000); [|reflexivity].
  rewrite !toISOString_valid. reflexivity.
Qed.

Lemma localYear_range : forall now,
  saneClock now -> - msPerDay <= LocalTZA now <= msPerDay ->
  1969 <= YearFromTime (now + LocalTZA now) <= 9990.
Proof.
  intros now [H1 H2] Htz.
  assert (E1 : TimeFromYear 1969 = -31536000000) by reflexivity.
  assert (E2 : TimeFromYear 9990 = 253086768000000) by reflexivity.
  assert (E3 : TimeFromYear 9991 = 253118304000000) by reflexivity.
  pose proof (@YearFromTime_bounds (now + LocalTZA now) 1969 9991) as H.
  unfold msPerDay in *. lia.
Qed.

(** What the loop over the two years pushes for one major contest. *)
Lemma majorEntry_value : forall (fuel : nat) now c,
  (32 <= fuel)%nat -> saneClock now -> - msPerDay <= LocalTZA now <= msPerDay ->
  In c majorContests ->
  let year := YearFromTime (now + LocalTZA now) in
  exists ts ms,
    majorEntry fuel now year c =
      Returns [calendarEntry now (major_name c) (major_mode c) ts (ts + ms)] /\
    (major_duration c * 3600000 == inject_Z ms)%Q /\
    12 * 3600000 <= ms <= 2 * msPerDay /\
    now < ts + ms /\
    TimeFromYear 1969 <= ts /\ ts + ms < TimeFromYear 9993 /\
    WeekDay ts = 6 /\ TimeWithinDay ts = 0 /\ MonthFromTime ts = major_month c /\
    (ts = occurrenceStart c year \/
     ts = occurrenceStart c (year + 1) /\ occurrenceStart c year + ms <= now).
Proof.
  intros fuel now c Hfuel Hsane Htz Hc year.
  pose proof (localYear_range Hsane Htz) as Hyear. fold year in Hyear.
  pose proof (time_in_year (now + LocalTZA now)) as Hin. fold year in Hin.
  destruct (@majorOccurrence_value fuel now c year Hfuel Hc ltac:(lia))
    as (ms & Hdur & Hms & Hshort & E0).
  destruct (@majorOccurrence_value fuel now c (year + 1) Hfuel Hc ltac:(lia))
    as (ms' & Hdur' & _ & _ & E1).
  assert (ms' = ms).
  { rewrite Hdur in Hdur'. unfold Qeq in Hdur'. cbn in Hdur'. lia. }
  subst ms'. cbv zeta in E0, E1.
  destruct (@occurrence_facts c year Hc ltac:(lia)) as (_ & T0 & W0 & Y0 & M0 & D0).
  destruct (@occurrence_facts c (year + 1) Hc ltac:(lia))
    as (_ & T1 & W1 & Y1 & M1 & D1).
  set (S0 := occurrenceStart c year) in *.
  set (S1 := occurrenceStart c (year + 1)) in *.
  pose proof (time_in_year S0) as I0. rewrite Y0 in I0.
  pose proof (time_in_year S1) as I1. rewrite Y1 in I1.
  pose proof (@TimeFromYear_mono 1969 year ltac:(lia)) as B1.
  pose proof (TimeFromYear_step (year + 1)) as B2.
  pose proof (TimeFromYear_step (year + 1 + 1)) as B3.
  pose proof (@TimeFromYear_mono (year + 1 + 1 + 1) 9993 ltac:(lia)) as B4.
  pose proof (@TimeFromYear_mono year (year + 1) ltac:(lia)) as B5.
  unfold majorEntry. rewrite E0. cbn [andThen].
  destruct (Z.ltb_spec now (S0 + ms)) as [Hlt | Hge].
  - exists S0, ms. repeat split; try assumption; try lia;
      try (unfold msPerDay in *; lia).
  - rewrite E1. cbn [andThen].
    assert (Hnext : now < S1 + ms).
    { destruct (Z.lt_ge_cases ms msPerDay) as [Hs | Hl].
      - specialize (D1 (Hshort Hs)). unfold msPerDay in *. lia.
      - unfold msPerDay in *. lia. }
    apply Z.ltb_lt in Hnext. rewrite Hnext.
    apply Z.ltb_lt in Hnext.
    exists S1, ms. repeat split; try assumption; try lia;
      try (unfold msPerDay in *; lia).
Qed.

End CalendarFacts.

(** ** Sorting with an exact comparator *)

Section SortQ.
Local Open Scope Z_scope.

Variables (A : Type) (comparefn : A -> A -> qnum) (key : A -> Z) (good : A -> Prop).
Hypothesis comparefn_sign : forall a b, good a -> good b ->
  qsign (comparefn a b) = Some (key a ?= key b).

Local Abbreviation ascending := (StronglySorted (fun a b => key a <= key b)).
Local Abbreviation signOf := (fun a b : A => qsign (comparefn a b)).

Lemma good_consistent : forall l,
  Forall good l -> consistentComparator signOf l = true.
Proof using comparefn_sign.
  intros l H. rewrite Forall_forall in H.
  apply (@consistent_of_key A signOf Z Z.compare key).
  - apply Z.compare_refl.
  - intros x y E. apply Z.compare_eq in E. subst. apply Z.compare_refl.
  - intros x y z E1 E2. apply Z.compare_eq in E1, E2. subst. apply Z.compare_refl.
  - intros x y z E1 E2. rewrite Z.compare_lt_iff in *. lia.
  - intros x y z E1 E2. rewrite Z.compare_gt_iff in *. lia.
  - intros a b Ha Hb. apply comparefn_sign; auto.
Qed.

Lemma insertSorted_ascending : forall x l,
  good x -> Forall good l -> ascending l -> ascending (insertSorted signOf x l).
Proof using comparefn_sign.
  intros x l Hx. induction l as [|y rest IH]; intros Hl Hs; cbn [insertSorted].
  - constructor; constructor.
  - inversion Hl as [|? ? Hy Hrest]; subst. inversion Hs as [|? ? Hs' Hall]; subst.
    unfold SortCompare. rewrite (comparefn_sign Hy Hx).
    destruct (Z.compare_spec (key y) (key x)) as [He | Hlt | Hgt].
    + constructor; [now apply IH|].
      eapply Permutation_Forall; [symmetry; apply insertSorted_perm|].
      constructor; [lia | assumption].
    + constructor; [now apply IH|].
      eapply Permutation_Forall; [symmetry; apply insertSorted_perm|].
      constructor; [lia | assumption].
    + constructor; [exact Hs|]. constructor; [lia|].
      eapply Forall_impl; [|exact Hall]. cbn. intros; lia.
Qed.

Lemma Array_sortQ_perm : forall engineOrder l,
  Permutation (Array_sortQ comparefn engineOrder l) l.
Proof. intros. apply sortWith_perm. Qed.

Lemma Array_sortQ_sorted : forall engineOrder l,
  Forall good l -> ascending (Array_sortQ comparefn engineOrder l).
Proof using comparefn_sign.
  intros engineOrder l Hl. unfold Array_sortQ, sortWith.
  rewrite (good_consistent Hl). unfold insertionSort.
  enough (H : forall acc, Forall good acc -> ascending acc -> Forall good l ->
            ascending (fold_left (fun sorted x => insertSorted signOf x sorted) l acc))
    by (apply H; [constructor | constructor | assumption]).
  clear Hl. induction l as [|x l IH]; intros acc Hacc Hs Hl; cbn [fold_left];
    [exact Hs|].
  inversion Hl; subst. apply IH.
  - eapply Permutation_Forall; [symmetry; apply insertSorted_perm|].
    constructor; assumption.
  - now apply insertSorted_ascending.
  - assumption.
Qed.

End SortQ.

Lemma Forall_firstn_of : forall (A : Type) (P : A -> Prop) n l,
  Forall P l -> Forall P (firstn n l).
Proof.
  intros A P n. induction n as [|n IH]; intros l H; [constructor|].
  destruct H; cbn [firstn]; constructor; auto.
Qed.

Lemma StronglySorted_firstn : forall (A : Type) (R : A -> A -> Prop) n l,
  StronglySorted R l -> StronglySorted R (firstn n l).
Proof.
  intros A R n. induction n as [|n IH]; intros l H; [constructor|].
  destruct H; cbn [firstn]; constructor; auto using Forall_firstn_of.
Qed.

Lemma StronglySorted_impl : forall (A : Type) (P : A -> Prop) (R R' : A -> A -> Prop) l,
  (forall a b, P a -> P b -> R a b -> R' a b) ->
  Forall P l -> StronglySorted R l -> StronglySorted R' l.
Proof.
  intros A P R R' l HR. induction l as [|x l IH]; intros HP Hs; [constructor|].
  inversion HP; subst. inversion Hs; subst. constructor; [auto|].
  rewrite Forall_forall in *. auto.
Qed.

Section CalendarTheorems.
Import Date DateFacts.
Local Open Scope string_scope.
Local Open Scope Z_scope.

Variable parseOther : string -> date.
Variable LocalTZA : Z -> Z.
Variable sortOrder : list Contest -> list nat.

(** An entry that starts at [ts], has not ended at [now], and is marked
    active exactly when it has started. *)
Definition listedAt (now : Z) (c : Contest) (ts : Z) : Prop :=
  exists te,
    toISOString (Some ts) = Some (contest_start c) /\
    toISOString (Some te) = Some (contest_end c) /\
    parse parseOther (contest_start c) = Some ts /\
    ts < te /\ now < te /\
    contest_status c = (if ts <=? now then "active" else "upcoming").

Definition listed (now : Z) (c : Contest) : Prop := exists ts, listedAt now c ts.

(** The start of an entry as the comparator of the sort reads it. *)
Definition startOf (c : Contest) : Z :=
  match parse parseOther (contest_start c) with Some t => t | None => 0 end.

Lemma calendarEntry_listed : forall now name mode ts te,
  TimeFromYear 0 <= ts -> ts < te -> now < te -> te < TimeFromYear 10000 ->
  listedAt now (calendarEntry now name mode ts te) ts.
Proof.
  intros now name mode ts te H0 H1 H2 H3. exists te.
  unfold calendarEntry. cbn [contest_start contest_end contest_status].
  rewrite !toISOString_valid.
  assert (Hy : 0 <= YearFromTime ts <= 9999).
  { pose proof (@YearFromTime_bounds ts 0 10000 ltac:(lia)). lia. }
  rewrite (@parse_isoString parseOther ts Hy).
  repeat split; try assumption.
  destruct (Z.leb_spec ts now); destruct (Z.leb_spec now te); cbn; try reflexivity; lia.
Qed.

Lemma byStart_sign : forall now a b, listed now a -> listed now b ->
  qsign (byStart parseOther a b) = Some (startOf a ?= startOf b).
Proof.
  intros now a b (ta & ea & _ & _ & Pa & _) (tb & eb & _ & _ & Pb & _).
  unfold byStart, timeOf, startOf. rewrite Pa, Pb. cbn. f_equal.
  unfold Qltb.
  assert (H1 : Qle_bool 0 (inject_Z ta + - inject_Z tb) = (tb <=? ta)).
  { destruct (Z.leb_spec tb ta) as [H | H].
    - apply Qle_bool_iff. unfold Qle. cbn. lia.
    - destruct (Qle_bool _ _) eqn:E; [|reflexivity].
      apply Qle_bool_iff in E. unfold Qle in E. cbn in E. lia. }
  assert (H2 : Qle_bool (inject_Z ta + - inject_Z tb) 0 = (ta <=? tb)).
  { destruct (Z.leb_spec ta tb) as [H | H].
    - apply Qle_bool_iff. unfold Qle. cbn. lia.
    - destruct (Qle_bool (inject_Z ta + - inject_Z tb) 0) eqn:E; [|reflexivity].
      apply Qle_bool_iff in E. unfold Qle in E. cbn in E. lia. }
  rewrite H1, H2.
  destruct (Z.compare_spec ta tb); destruct (Z.leb_spec tb ta);
    destruct (Z.leb_spec ta tb); cbn; try reflexivity; lia.
Qed.

(** Entry [a] starts no later than entry [b], as the comparator of the sort
    reads the two [start] texts. *)
Definition startsNoLater (a b : Contest) : Prop :=
  exists ta tb,
    parse parseOther (contest_start a) = Some ta /\
    parse parseOther (contest_start b) = Some tb /\ ta <= tb.

Lemma forEach_Forall : forall (A B : Type) (P : B -> Prop)
    (f : A -> outcome (list B)) l,
  (forall x, In x l -> exists y, f x = Returns [y] /\ P y) ->
  exists ys, forEach f l = Returns ys /\ List.length ys = List.length l /\ Forall P ys.
Proof.
  induction l as [|x l IH]; intro H; cbn [forEach].
  - exists []. repeat split. constructor.
  - destruct (H x (or_introl eq_refl)) as (y & Ey & Py).
    destruct IH as (ys & Eys & Hlen & Hall); [intros z Hz; apply H; now right|].
    rewrite Ey. cbn [andThen]. rewrite Eys. cbn [andThen].
    exists (y :: ys). cbn. repeat split; [congruence|]. now constructor.
Qed.

Lemma weeklyEntry_listed : forall now c,
  saneClock now -> In c weeklyContests ->
  exists e, weeklyEntry now c = Returns [e] /\ listed now e.
Proof.
  intros now c Hsane Hc.
  destruct (@weeklyEntry_value now c Hsane Hc) as (ms & _ & Hms & E).
  destruct (@weeklyStart_facts now c Hsane Hc) as (Hts & _).
  eexists. split; [exact E|]. exists (weeklyStart now c).
  set (ts := weeklyStart now c) in *. clearbody ts.
  destruct (@saneClock_range now (ts - now) Hsane ltac:(unfold msPerDay in *; lia))
    as (_ & H1).
  destruct (@saneClock_range now (ts + ms - now) Hsane ltac:(unfold msPerDay in *; lia))
    as (_ & H2).
  apply calendarEntry_listed; lia.
Qed.

Lemma majorEntry_listed : forall (fuel : nat) now c,
  (32 <= fuel)%nat -> saneClock now -> - msPerDay <= LocalTZA now <= msPerDay ->
  In c majorContests ->
  exists e, majorEntry fuel now (YearFromTime (now + LocalTZA now)) c = Returns [e] /\
            listed now e.
Proof.
  intros fuel now c Hfuel Hsane Htz Hc.
  destruct (@majorEntry_value LocalTZA fuel now c Hfuel Hsane Htz Hc)
    as (ts & ms & E & _ & Hms & Hnow & Hlo & Hhi & _).
  eexists. split; [exact E|]. exists ts.
  pose proof (@TimeFromYear_mono 0 1969 ltac:(lia)).
  pose proof (@TimeFromYear_mono 9993 10000 ltac:(lia)).
  apply calendarEntry_listed; unfold msPerDay in *; lia.
Qed.

(** X21.  For a weekly contest of the table, the entry that is pushed starts
    at the next time, from [now] on and less than seven days ahead, at which
    the day of the week and the time of day are those of the contest.  The
    entry is marked active only when [now] is that start to the millisecond:
    once a session has begun, the entry is the session of the week after,
    marked upcoming. *)
Theorem weekly_contest_entry : forall now c,
  saneClock now -> In c weeklyContests ->
  exists e ts,
    weeklyEntry now c = Returns [e] /\
    listedAt now e ts /\
    now <= ts < now + 7 * msPerDay /\
    WeekDay ts = weekly_dayOfWeek c /\
    TimeWithinDay ts = MakeTime (weekly_hour c) (minuteOf c) 0 0 /\
    (contest_status e = "active" <-> now = ts).
Proof.
  intros now c Hsane Hc.
  destruct (@weeklyEntry_value now c Hsane Hc) as (ms & _ & Hms & E).
  destruct (@weeklyStart_facts now c Hsane Hc) as (Hts & Hday & Htod).
  eexists. exists (weeklyStart now c). split; [exact E|].
  set (ts := weeklyStart now c) in *. clearbody ts.
  destruct (@saneClock_range now (ts - now) Hsane ltac:(unfold msPerDay in *; lia))
    as (_ & H1).
  destruct (@saneClock_range now (ts + ms - now) Hsane ltac:(unfold msPerDay in *; lia))
    as (_ & H2).
  split; [apply calendarEntry_listed; lia|].
  split; [exact Hts|]. split; [exact Hday|]. split; [exact Htod|].
  unfold calendarEntry. cbn [contest_status].
  destruct (Z.leb_spec ts now); destruct (Z.leb_spec now (ts + ms)); cbn [andb];
    split; intro Heq; try discriminate; try reflexivity; lia.
Qed.

(** X22.  For a major contest of the table, the loop over the local year
    and the year after pushes exactly one entry.  It starts on a Saturday at
    00:00 UTC in the month of the contest, in one of these two years; it has
    not ended at [now]; and it is marked active exactly when it has
    started. *)
Theorem major_contest_entry : forall (fuel : nat) now c,
  (32 <= fuel)%nat -> saneClock now -> - msPerDay <= LocalTZA now <= msPerDay ->
  In c majorContests ->
  let year := YearFromTime (now + LocalTZA now) in
  exists e ts,
    majorEntry fuel now year c = Returns [e] /\
    listedAt now e ts /\
    WeekDay ts = 6 /\ TimeWithinDay ts = 0 /\ MonthFromTime ts = major_month c /\
    year <= YearFromTime ts <= year + 1.
Proof.
  intros fuel now c Hfuel Hsane Htz Hc year.
  destruct (@majorEntry_value LocalTZA fuel now c Hfuel Hsane Htz Hc)
    as (ts & ms & E & _ & Hms & Hnow & Hlo & Hhi & Hw & Ht & Hm & Hcase).
  fold year in E, Hcase.
  eexists. exists ts. split; [exact E|].
  pose proof (@TimeFromYear_mono 0 1969 ltac:(lia)) as M1.
  pose proof (@TimeFromYear_mono 9993 10000 ltac:(lia)) as M2.
  split; [apply calendarEntry_listed; unfold msPerDay in *; lia|].
  split; [exact Hw|]. split; [exact Ht|]. split; [exact Hm|].
  pose proof (@localYear_range LocalTZA now Hsane Htz) as Hyear. fold year in Hyear.
  destruct (@occurrence_facts c year Hc ltac:(lia)) as (_ & _ & _ & Y0 & _).
  destruct (@occurrence_facts c (year + 1) Hc ltac:(lia)) as (_ & _ & _ & Y1 & _).
  destruct Hcase as [-> | [-> _]]; lia.
Qed.

(** The entries that [calculateUpcomingContests] builds before it sorts
    them: six weekly ones and eighteen major ones. *)
Lemma calendar_entries : forall (fuel : nat) now,
  (32 <= fuel)%nat -> saneClock now -> - msPerDay <= LocalTZA now <= msPerDay ->
  exists built,
    calculateUpcomingContests parseOther LocalTZA sortOrder fuel now =
      Returns (firstn 15 (Array_sortQ (byStart parseOther) sortOrder built)) /\
    List.length built = 24%nat /\ Forall (listed now) built.
Proof.
  intros fuel now Hfuel Hsane Htz. unfold calculateUpcomingContests, getFullYear.
  destruct (@forEach_Forall _ _ (listed now) (weeklyEntry now) weeklyContests)
    as (weekly & Ew & Lw & Fw); [intros; now apply weeklyEntry_listed|].
  destruct (@forEach_Forall _ _ (listed now)
              (majorEntry fuel now (YearFromTime (now + LocalTZA now))) majorContests)
    as (major & Em & Lm & Fm); [intros; now apply majorEntry_listed|].
  rewrite Ew. cbn [andThen]. rewrite Em. cbn [andThen].
  exists (weekly ++ major)%list. split; [reflexivity|]. split.
  - rewrite length_app, Lw, Lm. reflexivity.
  - apply Forall_app; now split.
Qed.

(** The first 15 of 24 entries sorted by start. *)
Lemma first15_by_start : forall now built,
  List.length built = 24%nat -> Forall (listed now) built ->
  let l := firstn 15 (Array_sortQ (byStart parseOther) sortOrder built) in
  List.length l = 15%nat /\ Forall (listed now) l /\ StronglySorted startsNoLater l.
Proof.
  intros now built Hlen Fall l. unfold l.
  pose proof (Array_sortQ_perm (byStart parseOther) sortOrder built) as Hperm.
  assert (Fs : Forall (listed now) (Array_sortQ (byStart parseOther) sortOrder built))
    by (eapply Permutation_Forall; [symmetry; exact Hperm | exact Fall]).
  split; [|split].
  - rewrite length_firstn, (Permutation_length Hperm), Hlen. reflexivity.
  - now apply Forall_firstn_of.
  - apply StronglySorted_firstn.
    apply (@StronglySorted_impl _ (listed now) (fun a b => startOf a <= startOf b));
      [|exact Fs|].
    + intros a b (ta & ea & _ & _ & Pa & _) (tb & eb & _ & _ & Pb & _) Hab.
      unfold startOf in Hab. rewrite Pa, Pb in Hab. now exists ta, tb.
    + apply (@Array_sortQ_sorted _ (byStart parseOther) startOf (listed now));
        [intros a b; apply byStart_sign | exact Fall].
Qed.

(** X23.  With the clock between 1970 and 9990 and a local offset of at most
    a day, [calculateUpcomingContests] returns exactly 15 entries.  None of
    them has ended, each is marked active exactly when it has started, and
    they are in ascending order of their start time as the comparator reads
    it back from the [start] text. *)
Theorem calculated_calendar : forall (fuel : nat) now,
  (32 <= fuel)%nat -> saneClock now -> - msPerDay <= LocalTZA now <= msPerDay ->
  exists l,
    calculateUpcomingContests parseOther LocalTZA sortOrder fuel now = Returns l /\
    List.length l = 15%nat /\
    Forall (listed now) l /\
    StronglySorted startsNoLater l.
Proof.
  intros fuel now Hfuel Hsane Htz.
  destruct (@calendar_entries fuel now Hfuel Hsane Htz) as (built & E & Hlen & Fall).
  eexists. split; [exact E|].
  exact (@first15_by_start now built Hlen Fall).
Qed.

End CalendarTheorems.

(** ** The route *)

Section ContestRouteFacts.
Import Date DateFacts.
Local Open Scope string_scope.
Local Open Scope Z_scope.

Variable parseOther : string -> date.
Variable LocalTZA : Z -> Z.
Variable NumberToString : Q -> string.
Variable sortOrder : list Contest -> list nat.

(** The upstream answer does not hold a JSON array. *)
Definition noFeed (upstream : settled) : Prop :=
  match upstream with
  | Fulfilled true (Some (JArr _)) => False
  | _ => True
  end.

Lemma noFeed_None : forall now upstream,
  noFeed upstream -> upstreamContests parseOther NumberToString now upstream = None.
Proof.
  intros now [|[] [data|]] H; try reflexivity.
  destruct data; try reflexivity; contradiction.
Qed.

(** X24.  When the upstream calendar gives no JSON array (the request
    fails, the status is not ok, the body is not JSON or is not an array),
    the route answers with the computed calendar of 15 entries; the empty
    reply of its last line is not reached. *)
Theorem contests_fallback_is_calendar : forall (fuel : nat) upstream now1 now2,
  noFeed upstream ->
  (32 <= fuel)%nat -> saneClock now2 -> - msPerDay <= LocalTZA now2 <= msPerDay ->
  exists l,
    contests parseOther LocalTZA NumberToString sortOrder fuel upstream now1 now2 =
      Returns (json200 l) /\
    List.length l = 15%nat /\
    Forall (listed parseOther now2) l /\
    StronglySorted (startsNoLater parseOther) l.
Proof.
  intros fuel upstream now1 now2 Hno Hfuel Hsane Htz.
  destruct (@calendar_entries parseOther LocalTZA sortOrder fuel now2 Hfuel Hsane Htz)
    as (built & E & Hlen & Fall).
  eexists. split.
  - unfold contests. rewrite (noFeed_None now1 _ Hno), E. reflexivity.
  - exact (@first15_by_start parseOther sortOrder now2 built Hlen Fall).
Qed.

Lemma filterM_kept : forall (A : Type) (f : A -> option bool) xs ys,
  filterM f xs = Some ys -> Forall (fun x => f x = Some true) ys.
Proof.
  induction xs as [|x xs IH]; intros ys H; cbn [filterM] in H.
  - injection H as <-. constructor.
  - destruct (f x) as [keep|] eqn:Ex; [|discriminate]. cbn [bindOpt] in H.
    destruct (filterM f xs) as [kept|]; [|discriminate]. cbn [bindOpt] in H.
    injection H as <-. destruct keep; [constructor|]; auto.
Qed.

Lemma filterM_none_kept : forall (A : Type) (f : A -> option bool) xs,
  Forall (fun x => f x = Some false) xs -> filterM f xs = Some [].
Proof.
  induction 1 as [|x xs Hx _ IH]; cbn [filterM]; [reflexivity|].
  now rewrite Hx, IH.
Qed.

Lemma filterM_throws : forall (A : Type) (f : A -> option bool) xs x,
  In x xs -> f x = None -> filterM f xs = None.
Proof.
  induction xs as [|y xs IH]; intros x Hin Hx; [contradiction|].
  cbn [filterM]. destruct Hin as [-> | Hin].
  - now rewrite Hx.
  - destruct (f y); [|reflexivity]. cbn [bindOpt]. now rewrite (IH x Hin Hx).
Qed.

Lemma mapM_Forall : forall (A B : Type) (f : A -> option B) (P : A -> Prop)
    (Q : B -> Prop) xs ys,
  (forall x y, P x -> f x = Some y -> Q y) ->
  Forall P xs -> mapM f xs = Some ys -> Forall Q ys.
Proof.
  intros A B f P Q xs ys HPQ. revert ys.
  induction xs as [|x xs IH]; intros ys HP H; cbn [mapM] in H.
  - injection H as <-. constructor.
  - inversion HP; subst.
    destruct (f x) as [y|] eqn:Ex; [|discriminate]. cbn [bindOpt] in H.
    destruct (mapM f xs) as [rest|]; [|discriminate]. cbn [bindOpt] in H.
    injection H as <-. constructor; eauto.
Qed.

(** An entry taken from the feed: it had not ended when the clock was read,
    it is marked active exactly when it had started, and it has a [url]. *)
Definition fromFeed (now : Z) (c : Contest) : Prop :=
  exists ts te,
    toISOString (Some ts) = Some (contest_start c) /\
    toISOString (Some te) = Some (contest_end c) /\
    now < te /\
    contest_status c = (if ts <=? now then "active" else "upcoming") /\
    contest_url c <> None.

Lemma upstreamEntry_fromFeed : forall now c e,
  isCurrent parseOther NumberToString now c = Some true ->
  upstreamEntry parseOther NumberToString now c = Some e ->
  fromFeed now e.
Proof.
  intros now c e Hcur He. unfold isCurrent in Hcur. unfold upstreamEntry in He.
  destruct (getProp c "start") as [s|]; [|discriminate]. cbn [bindOpt] in He.
  destruct (getProp c "end") as [en|]; [|discriminate]. cbn [bindOpt] in He, Hcur.
  destruct (getProp c "name") as [name|]; [|discriminate]. cbn [bindOpt] in He.
  destruct (getProp c "contest") as [cn|]; [|discriminate]. cbn [bindOpt] in He.
  destruct (ofValue parseOther NumberToString s) as [ts|]; [|discriminate].
  destruct (ofValue parseOther NumberToString en) as [te|]; [|discriminate].
  destruct (toISOString (Some ts)) as [start|] eqn:Es; [|discriminate].
  cbn [bindOpt] in He.
  destruct (toISOString (Some te)) as [finish|] eqn:Ee; [|discriminate].
  cbn [bindOpt] in He.
  destruct (getProp c "mode") as [mode|]; [|discriminate]. cbn [bindOpt] in He.
  destruct (getProp c "url") as [url|]; [|discriminate]. cbn [bindOpt] in He.
  injection He as <-. injection Hcur as Hcur. cbn [lt] in Hcur.
  apply Z.ltb_lt in Hcur.
  exists ts, te. cbn [contest_start contest_end contest_status contest_url].
  repeat split; try assumption; try discriminate.
  unfold statusAt. cbn [le].
  destruct (Z.leb_spec ts now); destruct (Z.leb_spec now te); cbn [andb];
    try reflexivity; lia.
Qed.

(** X25.  When the first block of the route answers, the reply has at most
    20 entries; every entry had not ended when the clock was read, is marked
    active exactly when it had started, and carries a [url] (possibly
    [null]). *)
Theorem contests_feed_entries : forall (fuel : nat) upstream now1 now2 found,
  upstreamContests parseOther NumberToString now1 upstream = Some found ->
  contests parseOther LocalTZA NumberToString sortOrder fuel upstream now1 now2 =
    Returns (json200 found) /\
  (List.length found <= 20)%nat /\
  Forall (fromFeed now1) found.
Proof.
  intros fuel upstream now1 now2 found H.
  split; [unfold contests; now rewrite H|].
  destruct upstream as [|[] [data|]]; try discriminate. cbn [upstreamContests bindOpt] in H.
  destruct (getProp data "length"); [|discriminate]. cbn [bindOpt] in H.
  destruct data; try discriminate.
  destruct (filterM _ items) as [current|] eqn:Ef; [|discriminate]. cbn [bindOpt] in H.
  split; [exact (mapM_firstn_length _ _ H)|].
  apply filterM_kept in Ef.
  eapply mapM_Forall; [|apply Forall_firstn_of; exact Ef|exact H].
  intros c e Hc He. exact (@upstreamEntry_fromFeed now1 c e Hc He).
Qed.

(** X26.  A feed that is an array in which no contest is still to end
    (an empty array included) is answered with an empty calendar: the
    computed calendar is not used. *)
Theorem finished_feed_gives_empty_calendar : forall (fuel : nat) items now1 now2,
  Forall (fun c => isCurrent parseOther NumberToString now1 c = Some false) items ->
  contests parseOther LocalTZA NumberToString sortOrder fuel
    (Fulfilled true (Some (JArr items))) now1 now2 = Returns (json200 []).
Proof.
  intros fuel items now1 now2 H. unfold contests, upstreamContests.
  cbn [bindOpt getProp]. now rewrite (filterM_none_kept _ H).
Qed.

(** X27.  A [null] element anywhere in the feed, also beyond the first 20
    entries, makes the route answer as if the request to the feed had
    failed. *)
Theorem null_entry_discards_feed : forall (fuel : nat) items now1 now2,
  In JNull items ->
  contests parseOther LocalTZA NumberToString sortOrder fuel
    (Fulfilled true (Some (JArr items))) now1 now2 =
  contests parseOther LocalTZA NumberToString sortOrder fuel Rejected now1 now2.
Proof.
  intros fuel items now1 now2 H. unfold contests, upstreamContests.
  cbn [bindOpt getProp].
  now rewrite (@filterM_throws _ (isCurrent parseOther NumberToString now1) items JNull H).
Qed.

End ContestRouteFacts.

(* ================================================================== *)
(** * Part XVIII. The calendar theorems at concrete requests *)
(* ================================================================== *)

Section CalendarInstances.
Import Date DateFacts.
Local Open Scope string_scope.
Local Open Scope Z_scope.

(** An engine that reads no text outside the complete UTC form, and a
    station whose local time is UTC. *)
Definition noOtherFormat : string -> date := fun _ => None.
Definition utcZone : Z -> Z := fun _ => 0.

(** 2025-11-02T00:00:00.000Z, a Sunday. *)
Definition sunday_midnight : Z := 1762041600000.

Lemma sunday_midnight_sane : saneClock sunday_midnight.
Proof. split; [discriminate | reflexivity]. Defined.

Lemma utcZone_small : - msPerDay <= utcZone sunday_midnight <= msPerDay.
Proof. split; discriminate. Defined.

Lemma nth_weekend_is_nth_saturday_witness :
  exists t,
    getNthWeekendOfMonth 32 2025 10 1 = Returns (Some t) /\
    WeekDay t = 6 /\ TimeWithinDay t = 0 /\
    YearFromTime t = 2025 /\ MonthFromTime t = 10 /\
    7 * 1 - 6 <= DateFromTime t <= 7 * 1.
Proof.
  apply (@nth_weekend_is_nth_saturday 32 2025 10 1);
    [apply Nat.le_refl | lia | lia | lia].
Defined.

Lemma nth_weekend_missing_is_next_month_witness :
  exists t,
    getNthWeekendOfMonth 32 2025 11 6 = Returns (Some t) /\
    UTC 2025 (11 + 1) 1 0 0 0 0 = Some t /\
    MonthFromTime t = (11 + 1) mod 12 /\ DateFromTime t = 1.
Proof.
  apply (@nth_weekend_missing_is_next_month 32 2025 11 6);
    [apply Nat.le_refl | lia | lia | right; lia].
Defined.

Lemma last_weekend_is_last_saturday_witness :
  exists t,
    getLastWeekendOfMonth 7 2025 10 = Returns (Some t) /\
    WeekDay t = 6 /\ TimeWithinDay t = 0 /\
    YearFromTime t = 2025 /\ MonthFromTime t = 10 /\
    DaysInMonth 2025 10 - 6 <= DateFromTime t <= DaysInMonth 2025 10.
Proof.
  apply (@last_weekend_is_last_saturday 7 2025 10); [apply Nat.le_refl | lia | lia].
Defined.

Lemma last_weekend_loops_on_invalid_date_witness :
  getLastWeekendOfMonth 1000 275761 0 = OutOfFuel.
Proof.
  apply (@last_weekend_loops_on_invalid_date 1000 275761 0); lia.
Defined.

(** The K1USN SST, Sundays at 00:00 UTC. *)
Definition k1usn : WeeklyContest :=
  {| weekly_name := "K1USN SST"; weekly_dayOfWeek := 0; weekly_hour := 0;
     weekly_minute := None; weekly_duration := 1; weekly_mode := "CW" |}.

Lemma k1usn_listed : In k1usn weeklyContests.
Proof. do 4 right. left. reflexivity. Defined.

Lemma weekly_contest_entry_witness :
  exists e ts,
    weeklyEntry sunday_midnight k1usn = Returns [e] /\
    listedAt noOtherFormat sunday_midnight e ts /\
    sunday_midnight <= ts < sunday_midnight + 7 * msPerDay /\
    WeekDay ts = weekly_dayOfWeek k1usn /\
    TimeWithinDay ts = MakeTime (weekly_hour k1usn) (minuteOf k1usn) 0 0 /\
    (contest_status e = "active" <-> sunday_midnight = ts).
Proof.
  exact (@weekly_contest_entry noOtherFormat sunday_midnight k1usn
           sunday_midnight_sane k1usn_listed).
Defined.

(** The CQ WW DX CW contest, on the last Saturday of November. *)
Definition cqww_cw : MajorContest :=
  {| major_name := "CQ WW DX CW"; major_month := 10; major_weekend := -1;
     major_duration := 48; major_mode := "CW" |}.

Lemma cqww_cw_listed : In cqww_cw majorContests.
Proof. left. reflexivity. Defined.

Lemma major_contest_entry_witness :
  exists e ts,
    majorEntry 32 sunday_midnight
      (YearFromTime (sunday_midnight + utcZone sunday_midnight)) cqww_cw =
      Returns [e] /\
    listedAt noOtherFormat sunday_midnight e ts /\
    WeekDay ts = 6 /\ TimeWithinDay ts = 0 /\ MonthFromTime ts = major_month cqww_cw /\
    YearFromTime (sunday_midnight + utcZone sunday_midnight) <= YearFromTime ts
      <= YearFromTime (sunday_midnight + utcZone sunday_midnight) + 1.
Proof.
  exact (@major_contest_entry noOtherFormat utcZone 32 sunday_midnight cqww_cw
           (Nat.le_refl 32) sunday_midnight_sane utcZone_small cqww_cw_listed).
Defined.

Lemma calculated_calendar_witness :
  exists l,
    calculateUpcomingContests noOtherFormat utcZone (@keepsOrder Contest) 32 sunday_midnight = Returns l /\
    List.length l = 15%nat /\
    Forall (listed noOtherFormat sunday_midnight) l /\
    StronglySorted (startsNoLater noOtherFormat) l.
Proof.
  exact (@calculated_calendar noOtherFormat utcZone (@keepsOrder Contest) 32 sunday_midnight
           (Nat.le_refl 32) sunday_midnight_sane utcZone_small).
Defined.

Lemma contests_fallback_is_calendar_witness :
  exists l,
    contests noOtherFormat utcZone noNumberToString (@keepsOrder Contest) 32 Rejected 0 sunday_midnight =
      Returns (json200 l) /\
    List.length l = 15%nat /\
    Forall (listed noOtherFormat sunday_midnight) l /\
    StronglySorted (startsNoLater noOtherFormat) l.
Proof.
  exact (@contests_fallback_is_calendar noOtherFormat utcZone noNumberToString
           (@keepsOrder Contest) 32
           Rejected 0 sunday_midnight I (Nat.le_refl 32) sunday_midnight_sane
           utcZone_small).
Defined.

(** A feed of one contest that runs from 2025-11-01 to 2025-11-03. *)
Definition one_contest_feed : settled :=
  Fulfilled true (Some (JArr [JObj [
    ("name", JStr "Test Contest");
    ("start", JStr "2025-11-01T00:00:00.000Z");
    ("end", JStr "2025-11-03T00:00:00.000Z");
    ("mode", JStr "CW")]])).

Definition one_contest_reply : list Contest :=
  [ {| contest_name := JStr "Test Contest";
       contest_start := "2025-11-01T00:00:00.000Z";
       contest_end := "2025-11-03T00:00:00.000Z";
       contest_mode := JStr "CW";
       contest_status := "active";
       contest_url := Some JNull |} ].

Lemma contests_feed_entries_witness :
  contests noOtherFormat utcZone noNumberToString (@keepsOrder Contest) 32 one_contest_feed
    sunday_midnight sunday_midnight = Returns (json200 one_contest_reply) /\
  (List.length one_contest_reply <= 20)%nat /\
  Forall (fromFeed sunday_midnight) one_contest_reply.
Proof.
  apply (@contests_feed_entries noOtherFormat utcZone noNumberToString
           (@keepsOrder Contest) 32
           one_contest_feed sunday_midnight sunday_midnight one_contest_reply).
  vm_compute. reflexivity.
Defined.

(** A feed whose only contest ended on 2025-11-01. *)
Definition finished_feed : list jsval :=
  [JObj [("name", JStr "Old Contest");
         ("start", JStr "2025-10-25T00:00:00.000Z");
         ("end", JStr "2025-11-01T00:00:00.000Z")]].

Lemma finished_feed_gives_empty_calendar_witness :
  contests noOtherFormat utcZone noNumberToString (@keepsOrder Contest) 32
    (Fulfilled true (Some (JArr finished_feed))) sunday_midnight sunday_midnight =
  Returns (json200 []).
Proof.
  apply (@finished_feed_gives_empty_calendar noOtherFormat utcZone noNumberToString
           (@keepsOrder Contest) 32 finished_feed sunday_midnight sunday_midnight).
  constructor; [vm_compute; reflexivity | constructor].
Defined.

Lemma null_entry_discards_feed_witness :
  contests noOtherFormat utcZone noNumberToString (@keepsOrder Contest) 32
    (Fulfilled true (Some (JArr [JNull]))) 0 sunday_midnight =
  contests noOtherFormat utcZone noNumberToString (@keepsOrder Contest) 32 Rejected 0 sunday_midnight.
Proof.
  apply (@null_entry_discards_feed noOtherFormat utcZone noNumberToString
           (@keepsOrder Contest) 32
           [JNull] 0 sunday_midnight).
  left. reflexivity.
Defined.

End CalendarInstances.
